(** * PennyLane Code Camp 2022 notebooks: a verification development

    The repository is five independent notebooks.  Each defines a small
    numeric routine on top of the PennyLane simulator, a [run]/[check] pair
    and a driver loop.  This file embeds the code of the notebooks and
    proves (or refutes) the statements of the specification about them.

    Conventions.

    - Python [float] is IEEE binary64; it is modelled by Rocq's primitive
      [float], whose operations are the same roundings.  Wherever a routine
      only adds, subtracts, multiplies, divides or compares floats the model
      is bit-exact.
    - The simulator itself (state evolution, matrix products, optimisers) is
      an external library.  Its linear algebra is modelled in exact
      arithmetic over the real field [R]; the routines of the notebooks are
      written once over a [Numeric] interface and read at [float] or at [R].
    - Python objects that are mutated in place live in a store ([gmap] from
      locations to list contents); exceptions are values of [result]. *)

From Stdlib Require Import ZArith List String Floats Reals Lra Lia QArith Qreals Epsilon.
From Stdlib Require Import Bool Arith.
From stdpp Require Import gmap strings pretty.
Import ListNotations.
Set Warnings "-inexact-float".

(* ------------------------------------------------------------------ *)
(** * Python runtime: exceptions, results, the store                    *)
(* ------------------------------------------------------------------ *)

Module Py.

(** An instance of Python's [Exception]: its class name and [str(exc)]. *)
Record exn : Type := Exn { exn_class : string; exn_msg : string }.

Inductive result (A : Type) : Type :=
| Ret (a : A)
| Raise (e : exn).
Arguments Ret {A} a.
Arguments Raise {A} e.

Definition AssertionError (msg : string) : exn := Exn "AssertionError" msg.
Definition IndexError : exn := Exn "IndexError" "list index out of range".
Definition ValueError (msg : string) : exn := Exn "ValueError" msg.
Definition TypeError (msg : string) : exn := Exn "TypeError" msg.

Definition is_ret {A} (r : result A) : bool :=
  match r with Ret _ => true | Raise _ => false end.

(** What [check] may hand back to the driver: [None] or a message. *)
Inductive pyval : Type := PyNone | PyStr (s : string).
(** Python's truth value: [None] and the empty string are false. *)
Definition truthy (v : pyval) : bool :=
  match v with
  | PyNone => false
  | PyStr s => negb (String.eqb s EmptyString)
  end.

(** [assert cond, msg] *)
Definition assert_ (cond : bool) (msg : string) : result unit :=
  if cond then Ret tt else Raise (AssertionError msg).

#[global] Instance result_ret : MRet result := @Ret.
#[global] Instance result_bind : MBind result := fun A B f r =>
  match r with Ret a => f a | Raise e => Raise e end.

(** ** The store: list objects by location *)
Abbreviation loc := positive (only parsing).

Section Store.
Context {num : Type}.

Abbreviation heap := (gmap loc (list num)) (only parsing).

(** A computation may read and write the store and may raise. *)
Definition M (A : Type) : Type := heap -> result A * heap.

Definition ret {A} (a : A) : M A := fun h => (Ret a, h).
Definition bind {A B} (c : M A) (f : A -> M B) : M B := fun h =>
  match c h with
  | (Ret a, h') => f a h'
  | (Raise e, h') => (Raise e, h')
  end.
Definition raise {A} (e : exn) : M A := fun h => (Raise e, h).
Definition lift {A} (r : result A) : M A := fun h => (r, h).

(** A fresh list object holding [xs]. *)
Definition alloc (xs : list num) : M loc := fun h =>
  let l := fresh (dom h) in (Ret l, <[l := xs]> h).

(** The current contents of the list at [l]. *)
Definition contents (l : loc) : M (list num) := fun h => (Ret (h !!! l), h).

(** [len(l)] *)
Definition len (l : loc) : M nat := fun h => (Ret (length (h !!! l)), h).

(** [l[i]] *)
Definition getitem (l : loc) (i : nat) : M num := fun h =>
  match (h !!! l) !! i with
  | Some x => (Ret x, h)
  | None => (Raise IndexError, h)
  end.

(** [l[i] = v] *)
Definition setitem (l : loc) (i : nat) (v : num) : M unit := fun h =>
  match (h !!! l) !! i with
  | Some _ => (Ret tt, <[l := <[i := v]> (h !!! l)]> h)
  | None => (Raise IndexError, h)
  end.

(** [for i in is_: a = body(i, a)] *)
Fixpoint for_each {A} (is_ : list nat) (body : nat -> A -> M A) (a : A) : M A :=
  match is_ with
  | [] => ret a
  | i :: rest => bind (body i a) (for_each rest body)
  end.
End Store.
Arguments M : clear implicits.

#[global] Instance M_ret {num} : MRet (M num) := @ret num.
#[global] Instance M_bind {num} : MBind (M num) := fun A B f c => bind c f.

End Py.
Import Py.
Abbreviation loc := positive (only parsing).
Abbreviation heap num := (gmap loc (list num)) (only parsing).

(* ------------------------------------------------------------------ *)
(** * Numbers: one interface, read at binary64 and at the reals         *)
(* ------------------------------------------------------------------ *)

(** The arithmetic the notebooks use on parameters and results.
    [around d x] is [np.round_(x, decimals=d)]. *)
Class Numeric (num : Type) : Type := {
  of_Z : Z -> num;
  add : num -> num -> num;
  sub : num -> num -> num;
  mul : num -> num -> num;
  div : num -> num -> num;
  opp : num -> num;
  sqrt : num -> num;
  pi : num;
  around : nat -> num -> num
}.

Declare Scope num_scope.
Delimit Scope num_scope with num.
Infix "+" := add : num_scope.
Infix "-" := sub : num_scope.
Infix "*" := mul : num_scope.
Infix "/" := div : num_scope.
Notation "- x" := (opp x) : num_scope.

Module F64.
Local Open Scope float_scope.

(** Python's [math.pi] / [np.pi]. *)
Definition pi : float := 0x1.921fb54442d18p+1.

(** Integer literals become floats exactly (only small non-negative
    literals occur in the notebooks). *)
Definition of_Z (z : Z) : float := PrimFloat.of_uint63 (Uint63.of_Z z).

(** [np.rint]: to the nearest integer, ties to even; the result has the
    sign of [x], so -0.0 and the negative numbers that round to zero give
    -0.0. *)
Definition rint (x : float) : float :=
  let big := 0x1p+52 in
  if PrimFloat.ltb (PrimFloat.abs x) big then
    let r := (PrimFloat.abs x + big) - big in
    if PrimFloat.get_sign x then - r else r
  else x.

(** [np.round_(x, decimals=d)]: scale, [rint], unscale. *)
Definition around (d : nat) (x : float) : float :=
  let scale := of_Z (10 ^ Z.of_nat d) in rint (x * scale) / scale.

#[global] Instance numeric : Numeric float :=
  Build_Numeric float of_Z PrimFloat.add PrimFloat.sub PrimFloat.mul
                PrimFloat.div PrimFloat.opp PrimFloat.sqrt pi around.
End F64.

Module Real.
Local Open Scope R_scope.

(** Nearest integer, ties to even. *)
Definition rint (x : R) : Z :=
  let n := Int_part x in
  let f := x - IZR n in
  if Rlt_dec f (1 / 2) then n
  else if Rlt_dec (1 / 2) f then (n + 1)%Z
  else if Z.even n then n else (n + 1)%Z.

Definition around (d : nat) (x : R) : R :=
  IZR (rint (x * 10 ^ d)) / 10 ^ d.

#[global] Instance numeric : Numeric R :=
  Build_Numeric R IZR Rplus Rminus Rmult Rdiv Ropp R_sqrt.sqrt PI around.
End Real.


#[global] Instance numeric_inhabited {num} `{Numeric num} : Inhabited num :=
  populate (of_Z 0).

(* ------------------------------------------------------------------ *)
(** * PennyLane: operations, and the linear algebra of the simulators   *)
(* ------------------------------------------------------------------ *)

Module QML.

(** The operations the notebooks queue, with PennyLane's wire arguments.
    A quantum function denotes the list of operations it queues, in order. *)
Inductive op (num : Type) : Type :=
| Hadamard (w : nat)
| T (w : nat)
| CNOT (c t : nat)
| U3 (theta phi delta : num) (w : nat)
| CRX (phi : num) (c t : nat)
| CRY (phi : num) (c t : nat)
| CRZ (phi : num) (c t : nat).
Arguments Hadamard {num} w.
Arguments T {num} w.
Arguments CNOT {num} c t.
Arguments U3 {num} theta phi delta w.
Arguments CRX {num} phi c t.
Arguments CRY {num} phi c t.
Arguments CRZ {num} phi c t.

(** What a mixed-state device runs: gates, and the bit-flip noise channel. *)
Inductive channel (num : Type) : Type :=
| Gate (o : op num)
| BitFlip (p : num) (w : nat).
Arguments Gate {num} o.
Arguments BitFlip {num} p w.

(** [op.name] *)
Definition name {num} (o : op num) : string :=
  match o with
  | Hadamard _ => "Hadamard"
  | T _ => "T"
  | CNOT _ _ => "CNOT"
  | U3 _ _ _ _ => "U3"
  | CRX _ _ _ => "CRX"
  | CRY _ _ _ => "CRY"
  | CRZ _ _ _ => "CRZ"
  end.

(** [op.wires] *)
Definition wires {num} (o : op num) : list nat :=
  match o with
  | Hadamard w | T w | U3 _ _ _ w => [w]
  | CNOT c t | CRX _ c t | CRY _ c t | CRZ _ c t => [c; t]
  end.
Definition channel_wires {num} (ch : channel num) : list nat :=
  match ch with Gate o => wires o | BitFlip _ w => [w] end.

(** Single-wire Pauli observables, summed in a Hamiltonian. *)
Inductive pauli : Type := PauliX (w : nat) | PauliZ (w : nat).

(** ** Matrices over a ring of scalars *)

Class Scalar (S : Type) : Type := {
  s0 : S;
  s1 : S;
  sadd : S -> S -> S;
  smul : S -> S -> S;
  sopp : S -> S;
  sconj : S -> S
}.

Section Matrices.
Context {S : Type} `{Scalar S}.

(** Row-major, as [ndarray.tolist()] gives them. *)
Definition matrix : Type := list (list S).

Definition entry (A : matrix) (i j : nat) : S := nth j (nth i A []) s0.
Definition rows (A : matrix) : nat := length A.
Definition cols (A : matrix) : nat := length (hd [] A).
Definition mk_matrix (n m : nat) (f : nat -> nat -> S) : matrix :=
  map (fun i => map (fun j => f i j) (seq 0 m)) (seq 0 n).

Definition ssum (l : list S) : S := fold_right sadd s0 l.

Definition mmul (A B : matrix) : matrix :=
  mk_matrix (rows A) (cols B)
    (fun i j => ssum (map (fun k => smul (entry A i k) (entry B k j)) (seq 0 (cols A)))).
Definition madd (A B : matrix) : matrix :=
  mk_matrix (rows A) (cols A) (fun i j => sadd (entry A i j) (entry B i j)).
Definition adjoint (A : matrix) : matrix :=
  mk_matrix (cols A) (rows A) (fun i j => sconj (entry A j i)).
Definition identity (n : nat) : matrix :=
  mk_matrix n n (fun i j => if Nat.eqb i j then s1 else s0).
Definition trace (A : matrix) : S :=
  ssum (map (fun i => entry A i i) (seq 0 (rows A))).

(** Wire [w] of an [n]-wire register is bit [n-1-w] of a basis index
    (wire 0 is the most significant bit). *)
Definition bit (n w r : nat) : bool := Nat.testbit r (n - 1 - w).
(** The index that the bits of [r] on [ws] spell, first wire first. *)
Definition sub_index (n : nat) (ws : list nat) (r : nat) : nat :=
  fold_left (fun acc w => (2 * acc + if bit n w r then 1 else 0)%nat) ws 0%nat.
(** [r] and [c] agree on every wire outside [ws]. *)
Definition same_rest (n : nat) (ws : list nat) (r c : nat) : bool :=
  forallb (fun w => existsb (Nat.eqb w) ws || Bool.eqb (bit n w r) (bit n w c))
          (seq 0 n).

(** A gate matrix on wires [ws], as an operator on the whole register. *)
Definition expand (n : nat) (ws : list nat) (G : matrix) : matrix :=
  mk_matrix (2 ^ n) (2 ^ n)
    (fun r c => if same_rest n ws r c
                then entry G (sub_index n ws r) (sub_index n ws c) else s0).

(** The product of gates (wires and matrix) on [n] wires, later gates to
    the left, applied to [M0]. *)
Definition chain (n : nat) (gs : list (list nat * matrix)) (M0 : matrix) : matrix :=
  fold_left (fun M g => mmul (expand n (fst g) (snd g)) M) gs M0.

(** The basis state |0...0> as a column. *)
Definition ket0 (n : nat) : matrix :=
  mk_matrix (2 ^ n) 1 (fun r _ => if Nat.eqb r 0 then s1 else s0).

Definition mmap {S'} (f : S -> S') (A : matrix) : list (list S') := map (map f) A.

End Matrices.
Arguments matrix : clear implicits.

End QML.
Import QML.

(** ** Complex numbers over the reals *)

Module Cplx.
Local Open Scope R_scope.

Definition C : Type := R * R.
Definition Cadd (x y : C) : C := (fst x + fst y, snd x + snd y).
Definition Cmul (x y : C) : C :=
  (fst x * fst y - snd x * snd y, fst x * snd y + snd x * fst y).
Definition Copp (x : C) : C := (- fst x, - snd x).
Definition Cconj (x : C) : C := (fst x, - snd x).
Definition RtoC (r : R) : C := (r, 0).
Definition Ci : C := (0, 1).
(** e^{i t} *)
Definition Cexp (t : R) : C := (cos t, sin t).
Definition Re (x : C) : R := fst x.

#[global] Instance C_scalar : Scalar C :=
  Build_Scalar C (RtoC 0) (RtoC 1) Cadd Cmul Copp Cconj.

End Cplx.
Import Cplx.

(** ** The exact field Q(sqrt 2, i)

    [(a, b, c, d)] stands for [(a + b sqrt 2) + i (c + d sqrt 2)].  Every
    entry of a Hadamard, T or CNOT matrix lies in this field, so products
    of such matrices can be computed. *)

Module Exact.
Local Open Scope Q_scope.

Record K : Type := mkK { re1 : Q; re2 : Q; im1 : Q; im2 : Q }.

Definition Kadd (x y : K) : K :=
  mkK (Qred (re1 x + re1 y)) (Qred (re2 x + re2 y))
      (Qred (im1 x + im1 y)) (Qred (im2 x + im2 y)).
Definition Kmul (x y : K) : K :=
  mkK (Qred (re1 x * re1 y + 2 * re2 x * re2 y - im1 x * im1 y - 2 * im2 x * im2 y))
      (Qred (re1 x * re2 y + re2 x * re1 y - im1 x * im2 y - im2 x * im1 y))
      (Qred (re1 x * im1 y + 2 * re2 x * im2 y + im1 x * re1 y + 2 * im2 x * re2 y))
      (Qred (re1 x * im2 y + re2 x * im1 y + im1 x * re2 y + im2 x * re1 y)).
Definition Kopp (x : K) : K :=
  mkK (Qred (- re1 x)) (Qred (- re2 x)) (Qred (- im1 x)) (Qred (- im2 x)).
Definition Kconj (x : K) : K :=
  mkK (re1 x) (re2 x) (Qred (- im1 x)) (Qred (- im2 x)).
Definition KofQ (q : Q) : K := mkK q 0 0 0.

#[global] Instance K_scalar : Scalar K :=
  Build_Scalar K (KofQ 0) (KofQ 1) Kadd Kmul Kopp Kconj.

(** The number a [K] stands for. *)
Definition denote (x : K) : C :=
  (Q2R (re1 x) + Q2R (re2 x) * R_sqrt.sqrt 2,
   Q2R (im1 x) + Q2R (im2 x) * R_sqrt.sqrt 2)%R.

(** 1/sqrt 2 and e^{i pi/4} *)
Definition inv_sqrt2 : K := mkK 0 (1 # 2) 0 0.
Definition omega : K := mkK 0 (1 # 2) 0 (1 # 2).

Definition Hadamard_K : matrix K :=
  [[inv_sqrt2; inv_sqrt2]; [inv_sqrt2; Kopp inv_sqrt2]].
Definition T_K : matrix K := [[KofQ 1; KofQ 0]; [KofQ 0; omega]].
Definition Z_K : matrix K := [[KofQ 1; KofQ 0]; [KofQ 0; KofQ (-1)]].
Definition CNOT_K : matrix K :=
  [[KofQ 1; KofQ 0; KofQ 0; KofQ 0];
   [KofQ 0; KofQ 1; KofQ 0; KofQ 0];
   [KofQ 0; KofQ 0; KofQ 0; KofQ 1];
   [KofQ 0; KofQ 0; KofQ 1; KofQ 0]].

End Exact.

(** ** The simulators, over the complex numbers *)

Module Sim.
Local Open Scope R_scope.

Definition c (r : R) : C := RtoC r.

(** PennyLane's matrices of the gates. *)
Definition gate_matrix (o : op R) : matrix C :=
  match o with
  | Hadamard _ =>
      [[c (/ R_sqrt.sqrt 2); c (/ R_sqrt.sqrt 2)];
       [c (/ R_sqrt.sqrt 2); c (- / R_sqrt.sqrt 2)]]
  | T _ => [[c 1; c 0]; [c 0; Cexp (PI / 4)]]
  | CNOT _ _ =>
      [[c 1; c 0; c 0; c 0];
       [c 0; c 1; c 0; c 0];
       [c 0; c 0; c 0; c 1];
       [c 0; c 0; c 1; c 0]]
  | U3 theta phi delta _ =>
      [[c (cos (theta / 2)); Copp (Cmul (Cexp delta) (c (sin (theta / 2))))];
       [Cmul (Cexp phi) (c (sin (theta / 2)));
        Cmul (Cexp (phi + delta)) (c (cos (theta / 2)))]]
  | CRX phi _ _ =>
      [[c 1; c 0; c 0; c 0];
       [c 0; c 1; c 0; c 0];
       [c 0; c 0; c (cos (phi / 2)); (0, - sin (phi / 2))];
       [c 0; c 0; (0, - sin (phi / 2)); c (cos (phi / 2))]]
  | CRY phi _ _ =>
      [[c 1; c 0; c 0; c 0];
       [c 0; c 1; c 0; c 0];
       [c 0; c 0; c (cos (phi / 2)); c (- sin (phi / 2))];
       [c 0; c 0; c (sin (phi / 2)); c (cos (phi / 2))]]
  | CRZ phi _ _ =>
      [[c 1; c 0; c 0; c 0];
       [c 0; c 1; c 0; c 0];
       [c 0; c 0; Cexp (- phi / 2); c 0];
       [c 0; c 0; c 0; Cexp (phi / 2)]]
  end.

(** The Kraus operators of an operation: a gate has one, its matrix;
    [BitFlip(p)] has [sqrt(1-p) I] and [sqrt(p) X]. *)
Definition kraus (ch : channel R) : list (matrix C) :=
  match ch with
  | BitFlip p _ =>
      [[[c (R_sqrt.sqrt (1 - p)); c 0]; [c 0; c (R_sqrt.sqrt (1 - p))]];
       [[c 0; c (R_sqrt.sqrt p)]; [c (R_sqrt.sqrt p); c 0]]]
  | Gate o => [gate_matrix o]
  end.

Definition pauli_matrix (P : pauli) : matrix C :=
  match P with
  | PauliX _ => [[c 0; c 1]; [c 1; c 0]]
  | PauliZ _ => [[c 1; c 0]; [c 0; c (-1)]]
  end.
Definition pauli_wire (P : pauli) : nat :=
  match P with PauliX w | PauliZ w => w end.

(** [qml.matrix]: the product of the operations' matrices on [n] wires,
    later operations to the left. *)
Definition gates_of (ops : list (op R)) : list (list nat * matrix C) :=
  map (fun o => (wires o, gate_matrix o)) ops.
Definition matrix_of (n : nat) (ops : list (op R)) : matrix C :=
  chain n (gates_of ops) (identity (2 ^ n)).

(** [default.qubit]: the state vector after [ops], from |0...0>. *)
Definition state_vector (n : nat) (ops : list (op R)) : matrix C :=
  chain n (gates_of ops) (ket0 n).

(** [qml.expval] of a sum of Paulis in a pure state: the sum of the
    <psi|P|psi>. *)
Definition expval (n : nat) (obs : list pauli) (psi : matrix C) : R :=
  fold_right Rplus 0
    (map (fun P => Re (trace (mmul (adjoint psi)
                         (mmul (expand n [pauli_wire P] (pauli_matrix P)) psi)))) obs).

(** [default.mixed]: the density matrix after [ops], from |0...0><0...0|;
    each operation maps rho to the sum of K rho K^dagger over its Kraus
    operators. *)
Definition apply_channel (n : nat) (rho : matrix C) (ch : channel R) : matrix C :=
  let terms := map (fun Kr => let E := expand n (channel_wires ch) Kr in
                              mmul E (mmul rho (adjoint E))) (kraus ch) in
  match terms with
  | [] => rho
  | t :: ts => fold_left madd ts t
  end.
Definition density_matrix (n : nat) (ops : list (channel R)) : matrix C :=
  fold_left (apply_channel n) ops (mmul (ket0 n) (adjoint (ket0 n))).

(** ** [qml.math.fidelity]

    On two density matrices PennyLane evaluates Uhlmann's fidelity
    [(Tr sqrt (sqrt rho . sigma . sqrt rho))^2]: it takes the square root
    [S] of [rho] ([qml.math.sqrt_matrix]), then the sum of the square roots
    of the eigenvalues of [S sigma S], which is the trace of the square
    root of that matrix, and squares it.  The square root of a positive
    matrix is the positive Hermitian matrix that squares to it. *)
Definition square_matrix (n : nat) (A : matrix C) : Prop :=
  length A = n /\ Forall (fun row => length row = n) A.
Definition hermitian (A : matrix C) : Prop := adjoint A = A.
(** [<v|A|v> >= 0] for every vector [v]. *)
Definition positive_semidefinite (A : matrix C) : Prop :=
  forall v : list C, length v = rows A ->
    0 <= Re (trace (mmul (adjoint (map (fun x => [x]) v))
                         (mmul A (map (fun x => [x]) v)))).
Definition sqrt_matrix (A S : matrix C) : Prop :=
  square_matrix (rows A) S /\ hermitian S /\ positive_semidefinite S /\ mmul S S = A.
(** [F] is the fidelity of [rho] and [sigma]. *)
Definition uhlmann (rho sigma : matrix C) (F : R) : Prop :=
  exists S T, sqrt_matrix rho S /\ sqrt_matrix (mmul S (mmul sigma S)) T
              /\ F = Re (trace T) ^ 2.
(** The number that [uhlmann] determines. *)
Definition fidelity (rho sigma : matrix C) : R :=
  epsilon (inhabits 0) (uhlmann rho sigma).

(** ** [qml.matrix] without a wire order

    [qml.matrix(qfunc)()] orders the wires as the tape meets them: the
    first wire an operation names is the most significant one. *)
Definition tape_wires (ops : list (op R)) : list nat :=
  fold_left (fun seen w => if existsb (Nat.eqb w) seen then seen else seen ++ [w])
            (concat (map wires ops)) [].
(** The place of wire [w] in the order [ws]. *)
Fixpoint position (ws : list nat) (w : nat) : nat :=
  match ws with
  | [] => 0%nat
  | w' :: rest => if Nat.eqb w w' then 0%nat else S (position rest w)
  end.
Definition qml_matrix (ops : list (op R)) : matrix C :=
  let ws := tape_wires ops in
  chain (length ws)
        (map (fun o => (map (position ws) (wires o), gate_matrix o)) ops)
        (identity (2 ^ length ws)).

End Sim.


(* ------------------------------------------------------------------ *)
(** * NumPy: closeness tests on binary64, polynomial fits on the reals  *)
(* ------------------------------------------------------------------ *)

Module NumPy.
Section Float.
Local Open Scope float_scope.

(** [abs(x - y) <= atol + rtol * abs(y)], evaluated in binary64. *)
Definition within_tol (rtol atol x y : float) : bool :=
  PrimFloat.leb (abs (x - y)) (atol + rtol * abs y).

(** [np.isclose] on one pair: the tolerance test on finite values,
    [x == y] as soon as one of them is infinite or NaN. *)
Definition isclose (rtol atol x y : float) : bool :=
  if is_finite x && is_finite y then within_tol rtol atol x y
  else PrimFloat.eqb x y.

(** The default tolerances of [np.allclose]. *)
Definition default_rtol : float := 1e-5.
Definition default_atol : float := 1e-8.

End Float.

(** Broadcasting of two one-dimensional shapes: equal lengths pair up, a
    length-1 operand is repeated, anything else is an error. *)
Definition broadcast {A B} (xs : list A) (ys : list B) : result (list (A * B)) :=
  if Nat.eqb (length xs) (length ys) then Ret (combine xs ys)
  else match xs, ys with
       | [x], _ => Ret (map (fun y => (x, y)) ys)
       | _, [y] => Ret (map (fun x => (x, y)) xs)
       | _, _ => Raise (ValueError "operands could not be broadcast together")
       end.

Fixpoint sequence {A} (rs : list (result A)) : result (list A) :=
  match rs with
  | [] => Ret []
  | r :: rest => a ← r; as_ ← sequence rest; Ret (a :: as_)
  end.

(** [np.allclose(a, b, rtol, atol)] on one-dimensional arrays. *)
Definition allclose (rtol atol : float) (a b : list float) : result bool :=
  ps ← broadcast a b;
  Ret (forallb (fun p => isclose rtol atol (fst p) (snd p)) ps).

(** [np.array] of a list of rows wants rows of one length. *)
Definition rectangular {A} (m : list (list A)) : bool :=
  match m with
  | [] => true
  | r :: rs => forallb (fun r' => Nat.eqb (length r') (length r)) rs
  end.
Definition array2 (m : list (list float)) : result (list (list float)) :=
  if rectangular m then Ret m
  else Raise (ValueError "setting an array element with a sequence").

(** [np.allclose] on two-dimensional arrays: rows broadcast, then columns. *)
Definition allclose2 (rtol atol : float) (a b : list (list float)) : result bool :=
  rowpairs ← broadcast a b;
  cells ← sequence (map (fun rp => broadcast (fst rp) (snd rp)) rowpairs);
  Ret (forallb (forallb (fun p => isclose rtol atol (fst p) (snd p))) cells).

(** The same tolerance test on real numbers. *)
Definition Rclose (rtol atol x y : R) : Prop :=
  (Rabs (x - y) <= atol + rtol * Rabs y)%R.
Definition Rallclose2 (rtol atol : R) (a b : list (list R)) : Prop :=
  Forall2 (Forall2 (Rclose rtol atol)) a b.

(** ** [np.polyfit] on the reals

    [np.polyfit(x, y, deg)] returns the coefficients, highest power first,
    of the polynomial of degree [deg] that minimises the squared error at
    the points.  The minimiser solves the normal equations
    [(V^T V) c = V^T y], [V] the Vandermonde matrix of [x]; it is written
    here by Cramer's rule, which gives the minimiser whenever [x] has more
    than [deg] distinct entries (on other inputs NumPy warns of a poorly
    conditioned fit; no statement below is about them).  An empty [x], or
    [x] and [y] of different lengths, is a TypeError. *)
Section Polyfit.
Local Open Scope R_scope.

#[global] Instance R_scalar : Scalar R := Build_Scalar R 0 1 Rplus Rmult Ropp (fun x => x).

(** [np.vander(x, m)]: row [i] is [x_i^(m-1), ..., x_i, 1]. *)
Definition vander (x : list R) (m : nat) : matrix R :=
  mk_matrix (length x) m (fun i j => nth i x 0 ^ (m - 1 - j)).

Definition remove_nth {A} (j : nat) (l : list A) : list A :=
  firstn j l ++ skipn (S j) l.

(** The determinant of an [n] x [n] matrix, expanded along its first row. *)
Fixpoint det (n : nat) (A : matrix R) : R :=
  match n with
  | O => 1
  | S n' =>
      fold_right Rplus 0
        (map (fun j => (-1) ^ j * entry A 0 j * det n' (map (remove_nth j) (tl A)))
             (seq 0 n))
  end.

(** [A] with column [k] replaced by the column vector [b]. *)
Definition replace_col (A : matrix R) (k : nat) (b : matrix R) : matrix R :=
  mk_matrix (rows A) (cols A)
    (fun i j => if Nat.eqb j k then entry b i 0 else entry A i j).

Definition polyfit (x y : list R) (deg : nat) : result (list R) :=
  if Nat.eqb (length x) 0 then
    Raise (TypeError "expected non-empty vector for x")
  else if negb (Nat.eqb (length x) (length y)) then
    Raise (TypeError "expected x and y to have same length")
  else
    let m := S deg in
    let V := vander x m in
    let Vt := mk_matrix m (length x) (fun i j => entry V j i) in
    let A := mmul Vt V in
    let b := mmul Vt (map (fun yi => [yi]) y) in
    Ret (map (fun k => det m (replace_col A k b) / det m A) (seq 0 m)).

End Polyfit.

End NumPy.

(* ------------------------------------------------------------------ *)
(** * Notebook "A four-term parameter-shift rule"                       *)
(* ------------------------------------------------------------------ *)

Module ParameterShift.
Section Code.
Context {num : Type} `{Numeric num}.

(** The device behind the QNode: the expectation value of a sum of
    observables after a list of operations. *)
Variable execute : list (op num) -> list pauli -> num.
(** [json.loads] on a test input, and [str] of the result list.  The
    inputs of the notebook are JSON lists of floats, and so are the values
    of [json_loads]: a list that holds an integer, or an input that is no
    list, makes NumPy raise inside the routine and is not modelled. *)
Variable json_loads : string -> result (list num).
Variable str : list num -> string.

Local Open Scope num_scope.

Definition shifts_and_coeffs : list num * list num :=
  ([pi / of_Z 2; pi * of_Z 3 / of_Z 2],
   [(sqrt (of_Z 2) + of_Z 1) / (of_Z 4 * sqrt (of_Z 2));
    (sqrt (of_Z 2) - of_Z 1) / (of_Z 4 * sqrt (of_Z 2))]).

(** [xs[i]] on a list value *)
Definition index (xs : list num) (i : nat) : result num :=
  match xs !! i with Some x => Ret x | None => Raise IndexError end.

(** The QNode [circuit]. *)
Definition circuit (params : list num) : result num :=
  let hadamards := map Hadamard (seq 0 3) in
  p0 ← index params 0;
  p1 ← index params 1;
  p2 ← index params 2;
  Ret (execute (hadamards ++ [CRX p0 1 2; CRY p1 0 1; CRZ p2 2 0])
               [PauliZ 0; PauliZ 1; PauliX 2]).

(** [circuit(params)], on the current contents of the list object. *)
Definition call_circuit (params : loc) : M num num :=
  fun h => (circuit (h !!! params), h).

(** [params[i] += d] and [params[i] -= d] *)
Definition iadd (params : loc) (i : nat) (d : num) : M num unit :=
  x ← getitem params i; setitem params i (x + d).
Definition isub (params : loc) (i : nat) (d : num) : M num unit :=
  x ← getitem params i; setitem params i (x - d).

(** The body of [for i in range(len(params))]; [gradient] is the local
    array, threaded through the loop. *)
Definition loop_body (shifts coeffs : list num) (params : loc)
    (i : nat) (gradient : list num) : M num (list num) :=
  (* c_1, s_1 term *)
  let shift := shifts !!! 0%nat in
  iadd params i shift;;
  v ← call_circuit params;
  let gradient := <[i := v]> gradient in
  isub params i (of_Z 2 * shift);;
  v ← call_circuit params;
  let gradient := <[i := gradient !!! i - v]> gradient in
  iadd params i shift;;
  let gradient := <[i := gradient !!! i * coeffs !!! 0%nat]> gradient in
  (* c_2, s_2 term *)
  let shift := shifts !!! 1%nat in
  iadd params i shift;;
  tmp ← call_circuit params;
  isub params i (of_Z 2 * shift);;
  v ← call_circuit params;
  let tmp := tmp - v in
  iadd params i shift;;
  let tmp := tmp * coeffs !!! 1%nat in
  mret (<[i := gradient !!! i - tmp]> gradient).

Definition my_parameter_shift_grad (params : loc) : M num (list num) :=
  ps ← contents params;
  let gradient := replicate (length ps) (of_Z 0) in
  let '(shifts, coeffs) := shifts_and_coeffs in
  n ← len params;
  gradient ← for_each (seq 0 n) (loop_body shifts coeffs params) gradient;
  mret (map (around 5) gradient).

Definition run (test_case_input : string) : M num string :=
  params ← lift (json_loads test_case_input);
  l ← alloc params;
  gradient ← my_parameter_shift_grad l;
  mret (str gradient).

End Code.

Section Check.
(** [json.loads] on the strings the driver passes: a list of floats. *)
Variable json_loads : string -> result (list float).

Definition check (solution_output expected_output : string) : result pyval :=
  solution_output ← json_loads solution_output;
  expected_output ← json_loads expected_output;
  ok ← NumPy.allclose 1e-4 NumPy.default_atol solution_output expected_output;
  assert_ ok "Your gradient isn't quite right!";;
  Ret PyNone.
End Check.

End ParameterShift.

(* ------------------------------------------------------------------ *)
(** * Notebook "Differentiable ZNE: Noisy circuits"                     *)
(* ------------------------------------------------------------------ *)

Module BitflipFidelity.
Section Code.
Context {num : Type} `{Numeric num}.

(** The [default.mixed] device: the state ([qml.state()]) after a list of
    operations on 2 wires; and [qml.math.fidelity]. *)
Variable state : Type.
Variable execute : list (channel num) -> state.
Variable fidelity : state -> state -> num.
Variable json_loads : string -> result (list num).
Variable str : list num -> string.

(** An error-less quantum circuit. *)
Definition circuit : state :=
  execute [Gate (Hadamard 0); Gate (CNOT 0 1)].

(** The same circuit, with a bitflip error on each wire. *)
Definition bitflip_circuit (p : num) : state :=
  execute [Gate (Hadamard 0); Gate (CNOT 0 1); BitFlip p 0; BitFlip p 1].

Definition fidelities (probs : list num) : list num :=
  map (fun p => fidelity (bitflip_circuit p) circuit) probs.

Definition run (test_case_input : string) : result string :=
  probs ← json_loads test_case_input;
  let fids := fidelities probs in
  Ret (str fids).

End Code.

Section Check.
Variable json_loads : string -> result (list float).

Definition check (solution_output expected_output : string) : result pyval :=
  solution_output ← json_loads solution_output;
  expected_output ← json_loads expected_output;
  ok ← NumPy.allclose 1e-4 NumPy.default_atol solution_output expected_output;
  assert_ ok "Your circuit isn't quite right!";;
  Ret PyNone.
End Check.

End BitflipFidelity.

(* ------------------------------------------------------------------ *)
(** * The two universality notebooks                                    *)
(* ------------------------------------------------------------------ *)

(** What [run] dumps and [check] loads: [{"matrix": ..., "gates": ...}]. *)
Record parsed_output (num : Type) : Type :=
  Output { matrix_field : list (list num); gates_field : list string }.
Arguments Output {num} _ _.
Arguments matrix_field {num} _.
Arguments gates_field {num} _.

(** [len(set(gates))] *)
Definition distinct_count (gates : list string) : nat :=
  size (list_to_set (C := gset string) gates).
(** [name in gates] *)
Definition contains (gates : list string) (name : string) : bool :=
  existsb (String.eqb name) gates.

Module UniversalityHT.
Section Code.
Context {num : Type}.

(** [qml.matrix(qnode)().real.tolist()] on 2 wires, and [json.dumps]. *)
Variable matrix_real : list (op num) -> list (list num).
Variable json_dumps : parsed_output num -> string.

(** This quantum function contains H, T and CNOT gates only. *)
Definition U : list (op num) :=
  [Hadamard 0; Hadamard 1; CNOT 0 1]
  (* sqrt(SWAP) *)
  ++ [CNOT 0 1; Hadamard 0; T 0]
  ++ replicate 7 (T 1)                       (* Tdg *)
  ++ [Hadamard 0; Hadamard 1; CNOT 0 1; Hadamard 0; Hadamard 1]
  ++ replicate 7 (T 0)                       (* Tdg *)
  ++ [Hadamard 0; CNOT 0 1]
  ++ replicate 6 (T 0)                       (* Sdg *)
  ++ replicate 2 (T 1)                       (* S *)
  ++ [Hadamard 0; Hadamard 1].

(** The main circuit of the statement, with [U] embedded twice. *)
Definition circuit : list (op num) :=
  [CNOT 0 1; Hadamard 0; Hadamard 1]
  ++ U
  ++ [CNOT 1 0]
  ++ U
  ++ [Hadamard 0; Hadamard 1].

Definition run (input : string) : result string :=
  let matrix := matrix_real circuit in
  let tape := U in
  let names := map name tape in
  Ret (json_dumps (Output matrix names)).

End Code.

Section Check.
Local Open Scope float_scope.
Variable json_loads : string -> result (parsed_output float).

(** [qml.matrix(qml.SWAP)(wires=[0, 1])] *)
Definition SWAP : list (list float) :=
  [[1; 0; 0; 0]; [0; 0; 1; 0]; [0; 1; 0; 0]; [0; 0; 0; 1]].

Definition check (user_output expected_output : string) : result pyval :=
  parsed_output ← json_loads user_output;
  matrix_user ← NumPy.array2 (matrix_field parsed_output);
  let gates := gates_field parsed_output in
  ok ← NumPy.allclose2 NumPy.default_rtol NumPy.default_atol matrix_user SWAP;
  assert_ ok EmptyString;;
  assert_ (Nat.eqb (distinct_count gates) 3
           && contains gates "Hadamard"
           && contains gates "CNOT"
           && contains gates "T") EmptyString;;
  Ret PyNone.
End Check.

End UniversalityHT.

Module UniversalityU3.
Section Code.
Context {num : Type} `{Numeric num}.
Local Open Scope num_scope.

Variable matrix_real : list (op num) -> list (list num).
Variable json_dumps : parsed_output num -> string.

(** Succession of U3 and CNOT gates that generates the requested matrix. *)
Definition circuit : list (op num) :=
  [ (* define ordering *)
    U3 (of_Z 0) (of_Z 0) (of_Z 0) 0;
    U3 (of_Z 0) (of_Z 0) (of_Z 0) 1;
    U3 (of_Z 0) (of_Z 0) (of_Z 0) 2;
    (* H(1) *)
    U3 (of_Z 0) (pi / of_Z 2) (pi / of_Z 2) 1;
    (* CZ([0,1]) *)
    U3 (pi / of_Z 2) (of_Z 0) pi 1;
    CNOT 0 1;
    U3 (pi / of_Z 2) (of_Z 0) pi 1;
    (* H(2) *)
    U3 (pi / of_Z 2) (of_Z 0) pi 2 ].

Definition run (input : string) : result string :=
  let matrix := matrix_real circuit in
  let tape := circuit in
  let names := map name tape in
  Ret (json_dumps (Output matrix names)).

End Code.

Section Check.
Local Open Scope float_scope.
Variable json_loads : string -> result (parsed_output float).

(** [1 / np.sqrt(2) * np.array([...])] *)
Definition solution : list (list float) :=
  map (map (fun x => 1 / PrimFloat.sqrt 2 * x))
    [[ 1;  1;  0;  0;  0;  0;  0;  0];
     [ 1; -1;  0;  0;  0;  0;  0;  0];
     [ 0;  0; -1; -1;  0;  0;  0;  0];
     [ 0;  0; -1;  1;  0;  0;  0;  0];
     [ 0;  0;  0;  0;  1;  1;  0;  0];
     [ 0;  0;  0;  0;  1; -1;  0;  0];
     [ 0;  0;  0;  0;  0;  0;  1;  1];
     [ 0;  0;  0;  0;  0;  0;  1; -1]].

Definition check (user_output expected_output : string) : result pyval :=
  parsed_output ← json_loads user_output;
  matrix_user ← NumPy.array2 (matrix_field parsed_output);
  let gates := gates_field parsed_output in
  ok ← NumPy.allclose2 NumPy.default_rtol NumPy.default_atol matrix_user solution;
  assert_ ok EmptyString;;
  assert_ (Nat.eqb (distinct_count gates) 2
           && contains gates "U3"
           && contains gates "CNOT") EmptyString;;
  Ret PyNone.
End Check.

End UniversalityU3.

(* ------------------------------------------------------------------ *)
(** * Notebook "Differentiable ZNE: Error-mitigated VQE"                *)
(* ------------------------------------------------------------------ *)

Module ZNE.

(** The two templates the ansatz queues. *)
Inductive ansatz_op (num : Type) : Type :=
| BasisState (bits : list nat) (wires : list nat)
| DoubleExcitation (param : num) (wires : list nat).
Arguments BasisState {num} bits wires.
Arguments DoubleExcitation {num} param wires.

Section Code.
Context {num : Type} `{Numeric num}.
Local Open Scope num_scope.

(** PennyLane's objects and the library calls on them. *)
Variables hamiltonian device qnode : Type.
(** [qml.qchem.molecular_hamiltonian(symbols, coordinates)] *)
Variable molecular_hamiltonian : list string -> list num -> hamiltonian * nat.
(** [qml.device("default.mixed", wires=n)] *)
Variable default_mixed : nat -> device.
(** [qml.transforms.insert(qml.DepolarizingChannel, strength, position="all")(dev)] *)
Variable insert_depolarizing : num -> device -> device.
(** [qml.QNode(cost_fn, dev)]; a cost function maps its parameter to the
    operations it queues and the observable it measures. *)
Variable QNode : (num -> list (ansatz_op num) * hamiltonian) -> device -> qnode.
(** [qml.transforms.fold_global(qnode, scale_factor)] *)
Variable fold_global : qnode -> num -> qnode.
(** [qnode(param)] *)
Variable call : qnode -> num -> num.
(** [qml.GradientDescentOptimizer(stepsize).step(qnode, param)] *)
Variable optimizer_step : num -> qnode -> num -> num.
(** [np.polyfit] *)
Variable polyfit : list num -> list num -> nat -> result (list num).
Variable json_loads : string -> result num.
Variable str : list num -> string.

(** Creates the H_2 Hamiltonian from a separation distance. *)
Definition hydrogen_hamiltonian (d : num) : hamiltonian * nat :=
  let symbols := ["H"; "H"]%string in
  let coordinates := [of_Z 0; of_Z 0; - d; of_Z 0; of_Z 0; d] in
  molecular_hamiltonian symbols coordinates.

(** The unitaries used for creating an ansatz. *)
Definition ansatz_template (param : num) (wires : list nat) : list (ansatz_op num) :=
  [BasisState [1; 1; 0; 0]%nat wires; DoubleExcitation param wires].

(** Performs a VQE routine given a QNode. *)
Definition VQE (qn : qnode) : num :=
  let param := of_Z 0 in
  let num_iters := 20%nat in
  let stepsize := of_Z 4 / of_Z 10 in
  let param := Nat.iter num_iters (fun param => optimizer_step stepsize qn param) param in
  let final_energy := call qn param in
  final_energy.

(** Generates ideal and mitigated qnodes. *)
Definition qnode_ansatzes (d : num) (scale_factors : list num) : qnode * list qnode :=
  let '(H_, qubits) := hydrogen_hamiltonian d in
  let noise_strength := of_Z 5 / of_Z 100 in
  let cost_fn := fun params => (ansatz_template params (seq 0 qubits), H_) in
  let dev_ideal := default_mixed qubits in
  let dev_noisy := insert_depolarizing noise_strength dev_ideal in
  let qnode_ideal := QNode cost_fn dev_ideal in
  let qnode_noisy := QNode cost_fn dev_noisy in
  let qnodes_mitigated := map (fun scale_factor => fold_global qnode_noisy scale_factor)
                              scale_factors in
  (qnode_ideal, qnodes_mitigated).

(** [xs[-1]] *)
Definition last_item (xs : list num) : result num :=
  match rev xs with x :: _ => Ret x | [] => Raise IndexError end.

(** Performs ZNE to obtain a zero-noise estimate of the ground state
    energy of H_2. *)
Definition extrapolation (d : num) (scale_factors : list num) : result (list num) :=
  let '(qnode_ideal, qnodes_mitigated) := qnode_ansatzes d scale_factors in
  let ideal_energy := around 6 (VQE qnode_ideal) in
  let mitigated_energies := map VQE qnodes_mitigated in
  coeffs ← polyfit scale_factors mitigated_energies 2;
  zne_energy ← last_item coeffs;
  Ret [ideal_energy; zne_energy].

Definition run (test_case_input : string) : result string :=
  d ← json_loads test_case_input;
  let scale_factors := [of_Z 1; of_Z 2; of_Z 3] in
  energies ← extrapolation d scale_factors;
  Ret (str energies).

End Code.

Section Check.
Variable json_loads : string -> result (list float).

Definition check (solution_output expected_output : string) : result pyval :=
  solution_output ← json_loads solution_output;
  expected_output ← json_loads expected_output;
  ok ← NumPy.allclose 1e-2 NumPy.default_atol solution_output expected_output;
  assert_ ok "Your extrapolation isn't quite right!";;
  Ret PyNone.
End Check.

End ZNE.

(* ------------------------------------------------------------------ *)
(** * The driver loop (the last cell of every notebook)                 *)
(* ------------------------------------------------------------------ *)

Module Driver.

(** What the loop does that can be observed: the lines it prints, and its
    calls of [run] and [check]. *)
Inductive event : Type :=
| Print (line : string)
| CallRun (input : string)
| CallCheck (output expected : string).

Local Open Scope string_scope.

(** The lines the loop can print. *)
Definition running (i : nat) (input_ : string) : string :=
  "Running test case " ++ pretty i ++ " with input '" ++ input_ ++ "'...".
Definition runtime_error (exc : exn) : string :=
  "Runtime Error. " ++ exn_msg exc.
Definition wrong_answer (output expected_output : string) : string :=
  "Wrong Answer. Have: '" ++ output ++ "'. Want: '" ++ expected_output ++ "'.".
Definition correct : string := "Correct!".

Section Loop.
(** [W] is whatever state [run] may touch (the store). *)
Context {W : Type}.
Variable run : string -> W -> result string * W.
Variable check : string -> string -> result pyval.

(** One iteration: the trace, the exception that escapes it (if any), and
    the state after it. *)
Definition test_case (i : nat) (input_ expected_output : string) (w : W)
  : list event * option exn * W :=
  let start := [Print (running i input_); CallRun input_] in
  match run input_ w with
  | (Raise exc, w') =>
      (start ++ [Print (runtime_error exc)], None, w')%list
  | (Ret output, w') =>
      let checked := (start ++ [CallCheck output expected_output])%list in
      match check output expected_output with
      | Raise exc => (checked, Some exc, w')
      | Ret message =>
          if truthy message then
            (checked ++ [Print (wrong_answer output expected_output)], None, w')%list
          else
            (checked ++ [Print correct], None, w')%list
      end
  end.

(** [for i, (input_, expected_output) in enumerate(test_cases)], from
    index [i]; an escaping exception ends the loop. *)
Fixpoint loop (i : nat) (test_cases : list (string * string)) (w : W)
  : list event * option exn * W :=
  match test_cases with
  | [] => ([], None, w)
  | (input_, expected_output) :: rest =>
      match test_case i input_ expected_output w with
      | (t, Some exc, w') => (t, Some exc, w')
      | (t, None, w') =>
          let '(t', r, w'') := loop (S i) rest w' in ((t ++ t')%list, r, w'')
      end
  end.

Definition driver (test_cases : list (string * string)) (w : W)
  : list event * option exn * W :=
  loop 0 test_cases w.

End Loop.

(** The lines on standard output. *)
Definition stdout (t : list event) : list string :=
  omap (fun e => match e with Print s => Some s | _ => None end) t.

(** A [run] that touches no state, as the loop calls it. *)
Definition stateless {W} (run : string -> result string) : string -> W -> result string * W :=
  fun input w => (run input, w).

End Driver.

(* ------------------------------------------------------------------ *)
(** * The ideal devices                                                 *)
(* ------------------------------------------------------------------ *)

(** What the notebooks' devices compute, in exact arithmetic. *)
Module Ideal.

(** [default.qubit] on 3 wires, measuring a sum of Paulis. *)
Definition qubit_expval (ops : list (op R)) (obs : list pauli) : R :=
  Sim.expval 3 obs (Sim.state_vector 3 ops).

(** [default.mixed] on 2 wires, returning [qml.state()]. *)
Definition mixed_state (ops : list (channel R)) : matrix C :=
  Sim.density_matrix 2 ops.

(** [qml.matrix(...)().real] on [n] wires. *)
Definition matrix_real (n : nat) (ops : list (op R)) : list (list R) :=
  mmap Re (Sim.matrix_of n ops).

End Ideal.

(* ------------------------------------------------------------------ *)
(** * Vocabulary of the statements                                      *)
(* ------------------------------------------------------------------ *)

Section StoreVocabulary.
Context {num : Type} `{Numeric num}.
Variable execute : list (op num) -> list pauli -> num.
Local Open Scope num_scope.

(** A computation of the store monad, run from [h], either raises or
    returns with a result and a store that satisfy [P]. *)
Definition returns_with {A} (c : M num A) (h : heap num)
    (P : A -> heap num -> Prop) : Prop :=
  match c h with
  | (Ret a, h') => P a h'
  | (Raise _, _) => True
  end.

(** Arithmetic in which a shift, minus its double, plus the shift again
    cancel: true of the reals, not of binary64. *)
Definition cancelling : Prop :=
  forall x s : num, (x + s - of_Z 2 * s) + s = x.

(** The value of the QNode on a list of at least three parameters. *)
Definition circuit_value (ps : list num) : num :=
  execute (map Hadamard (seq 0 3)
           ++ [CRX (ps !!! 0%nat) 1 2; CRY (ps !!! 1%nat) 0 1; CRZ (ps !!! 2%nat) 2 0])
          [PauliZ 0; PauliZ 1; PauliX 2].

(** The four-term combination for entry [i], as the loop computes it. *)
Definition shift_rule (shifts coeffs : list num) (ps : list num) (i : nat) : num :=
  let x := ps !!! i in
  let F v := circuit_value (<[i := v]> ps) in
  let s1 := shifts !!! 0%nat in
  let s2 := shifts !!! 1%nat in
  (F (x + s1) - F (x + s1 - of_Z 2 * s1)) * coeffs !!! 0%nat
  - (F (x + s2) - F (x + s2 - of_Z 2 * s2)) * coeffs !!! 1%nat.

(** Two stores that hold the same list, one at [l], the other at [l']. *)
Definition sim (l l' : loc) (h h' : heap num) : Prop := h !!! l = h' !!! l'.

(** Two computations that, from such stores, give the same result and
    leave such stores. *)
Definition related (l l' : loc) {A} (c c' : M num A) : Prop :=
  forall h h', sim l l' h h' ->
    fst (c h) = fst (c' h') /\ sim l l' (snd (c h)) (snd (c' h')).

(** A computation that writes to no location but [l]. *)
Definition confined (l : loc) {A} (c : M num A) : Prop :=
  forall h l0, l0 <> l -> snd (c h) !! l0 = h !! l0.

End StoreVocabulary.

Section DriverVocabulary.
Context {W : Type}.

Definition trace_of (r : list Driver.event * option exn * W) : list Driver.event :=
  fst (fst r).
Definition escaped (r : list Driver.event * option exn * W) : option exn :=
  snd (fst r).

End DriverVocabulary.

(** A user output whose matrix is the SWAP matrix exactly, on a tape of
    Hadamard and CNOT gates only. *)
Definition swap_without_T : parsed_output float :=
  Output UniversalityHT.SWAP ["Hadamard"; "CNOT"]%string.

(** A stand-in for [json.loads] on the two strings of the failing test
    case below. *)
Definition toy_loads (s : string) : result (list float) :=
  if String.eqb s "[0.08144, -0.33706, -0.37944]"%string
  then Ret [0.08144; -0.33706; -0.37944]%float
  else if String.eqb s "[0.0, 0.0, 0.0]"%string then Ret [0; 0; 0]%float
  else Raise (ValueError "not a list of numbers"%string).

Section RealVocabulary.
Local Open Scope R_scope.

(** The rule as it is usually written, for a function of one angle. *)
Definition four_term (f : R -> R) (x : R) : R :=
  let s1 := PI / 2 in
  let s2 := 3 * PI / 2 in
  let k1 := (R_sqrt.sqrt 2 + 1) / (4 * R_sqrt.sqrt 2) in
  let k2 := (R_sqrt.sqrt 2 - 1) / (4 * R_sqrt.sqrt 2) in
  k1 * (f (x + s1) - f (x - s1)) - k2 * (f (x + s2) - f (x - s2)).

(** [g] is the partial derivative of the ideal QNode in its [i]-th
    parameter at [ps], and the four-term rule gives it. *)
Definition partial_derivative (ps : list R) (i : nat) (g : R) : Prop :=
  exists F : R -> R,
    (forall v, ParameterShift.circuit Ideal.qubit_expval (<[i := v]> ps) = Ret (F v))
    /\ derivable_pt_lim F (ps !!! i) g
    /\ g = four_term F (ps !!! i).

(** Sums of the frequencies 0, 1/2 and 1, and their derivatives. *)
Definition trig (A B C_ D E : R) (v : R) : R :=
  A + B * cos (v / 2) + C_ * sin (v / 2) + D * cos v + E * sin v.
Definition trig' (A B C_ D E : R) (v : R) : R :=
  - B * sin (v / 2) / 2 + C_ * cos (v / 2) / 2 - D * sin v + E * cos v.

(** The expectation value of the parameter-shift circuit, in closed form. *)
Definition f_closed (t0 t1 t2 : R) : R := cos (t2 / 2) - sin t1 * cos (t0 / 2) / 2.

(** The value at [x] of the quadratic through three points. *)
Definition lagrange (x1 x2 x3 y1 y2 y3 x : R) : R :=
  y1 * ((x - x2) * (x - x3)) / ((x1 - x2) * (x1 - x3))
  + y2 * ((x - x1) * (x - x3)) / ((x2 - x1) * (x2 - x3))
  + y3 * ((x - x1) * (x - x2)) / ((x3 - x1) * (x3 - x2)).
Definition vdm (x1 x2 x3 : R) : R := (x1 - x2) * (x1 - x3) * (x2 - x3).

(** A column vector. *)
Definition col (l : list C) : matrix C := map (fun x => [x]) l.
Definition r (x : R) : C := (x, 0).

(** The state vector of the parameter-shift circuit after each gate;
    [a] stands for 1/sqrt 2, [c_i] and [s_i] for the cosine and sine of
    half the [i]-th angle. *)
Section Stages.
Variables a c0 s0 c1 s1 c2 s2 : R.
Let h := a * a * a.

Definition psi1 : matrix C :=
  col [(a, 0); (0, 0); (0, 0); (0, 0); (a, 0); (0, 0); (0, 0); (0, 0)].
Definition psi2 : matrix C :=
  col [(a * a, 0); (0, 0); (a * a, 0); (0, 0); (a * a, 0); (0, 0); (a * a, 0); (0, 0)].
Definition psi3 : matrix C := col (repeat (h, 0) 8).
Definition psi4 : matrix C :=
  col [(h, 0); (h, 0); (h * c0, - (h * s0)); (h * c0, - (h * s0));
       (h, 0); (h, 0); (h * c0, - (h * s0)); (h * c0, - (h * s0))].
Definition psi5 : matrix C :=
  col [(h, 0); (h, 0); (h * c0, - (h * s0)); (h * c0, - (h * s0));
       (h * (c1 - s1 * c0), h * (s1 * s0)); (h * (c1 - s1 * c0), h * (s1 * s0));
       (h * (s1 + c1 * c0), - (h * (c1 * s0))); (h * (s1 + c1 * c0), - (h * (c1 * s0)))].
Definition psi6 : matrix C :=
  col [(h, 0); Cmul (h, 0) (c2, - s2);
       (h * c0, - (h * s0)); Cmul (h * c0, - (h * s0)) (c2, - s2);
       (h * (c1 - s1 * c0), h * (s1 * s0));
       Cmul (h * (c1 - s1 * c0), h * (s1 * s0)) (c2, s2);
       (h * (s1 + c1 * c0), - (h * (c1 * s0)));
       Cmul (h * (s1 + c1 * c0), - (h * (c1 * s0))) (c2, s2)].
End Stages.

(** The density matrix of the bit-flip circuit after each operation. *)
Definition rho0 : matrix C :=
  [[r 1; r 0; r 0; r 0]; [r 0; r 0; r 0; r 0];
   [r 0; r 0; r 0; r 0]; [r 0; r 0; r 0; r 0]].
Definition rho1 : matrix C :=
  [[r (1/2); r 0; r (1/2); r 0]; [r 0; r 0; r 0; r 0];
   [r (1/2); r 0; r (1/2); r 0]; [r 0; r 0; r 0; r 0]].
(** The Bell state (|00> + |11>)/sqrt 2. *)
Definition bell : matrix C :=
  [[r (1/2); r 0; r 0; r (1/2)]; [r 0; r 0; r 0; r 0];
   [r 0; r 0; r 0; r 0]; [r (1/2); r 0; r 0; r (1/2)]].
Definition rho3 (p : R) : matrix C :=
  [[r ((1-p)/2); r 0; r 0; r ((1-p)/2)]; [r 0; r (p/2); r (p/2); r 0];
   [r 0; r (p/2); r (p/2); r 0]; [r ((1-p)/2); r 0; r 0; r ((1-p)/2)]].
Definition rho4 (p : R) : matrix C :=
  let a := ((1 - p) * (1 - p) + p * p) / 2 in
  let b := p * (1 - p) in
  [[r a; r 0; r 0; r a]; [r 0; r b; r b; r 0];
   [r 0; r b; r b; r 0]; [r a; r 0; r 0; r a]].

(** The expected matrices of the universality notebooks, on the reals. *)
Definition SWAP_R : list (list R) :=
  [[1; 0; 0; 0]; [0; 0; 1; 0]; [0; 1; 0; 0]; [0; 0; 0; 1]].
Definition solution_R : list (list R) :=
  map (map (fun x => 1 / R_sqrt.sqrt 2 * x))
    [[ 1;  1;  0;  0;  0;  0;  0;  0];
     [ 1; -1;  0;  0;  0;  0;  0;  0];
     [ 0;  0; -1; -1;  0;  0;  0;  0];
     [ 0;  0; -1;  1;  0;  0;  0;  0];
     [ 0;  0;  0;  0;  1;  1;  0;  0];
     [ 0;  0;  0;  0;  1; -1;  0;  0];
     [ 0;  0;  0;  0;  0;  0;  1;  1];
     [ 0;  0;  0;  0;  0;  0;  1; -1]].

End RealVocabulary.

Section ExactVocabulary.
Import Exact.

(** A list of exact gates, read as complex gates. *)
Definition exact_gates (gs : list (list nat * matrix K)) : list (list nat * matrix C) :=
  map (fun g => (fst g, mmap denote (snd g))) gs.

(** The exact matrix of a gate of the H/T/CNOT set. *)
Definition gate_K {num} (o : op num) : matrix K :=
  match o with
  | Hadamard _ => Hadamard_K
  | T _ => T_K
  | CNOT _ _ => CNOT_K
  | _ => []
  end.
Definition in_HT {num} (o : op num) : bool :=
  match o with Hadamard _ | T _ | CNOT _ _ => true | _ => false end.
Definition gates_K {num} (ops : list (op num)) : list (list nat * matrix K) :=
  map (fun o => (wires o, gate_K o)) ops.

(** The U3/CNOT circuit, gate by gate, in exact form. *)
Definition u3_circuit_K : list (list nat * matrix K) :=
  [([0%nat], identity 2); ([1%nat], identity 2); ([2%nat], identity 2);
   ([1%nat], Z_K);
   ([1%nat], Hadamard_K); ([0%nat; 1%nat], CNOT_K); ([1%nat], Hadamard_K);
   ([2%nat], Hadamard_K)].

End ExactVocabulary.

(* ------------------------------------------------------------------ *)
(** * Vocabulary of the further properties                              *)
(* ------------------------------------------------------------------ *)

Section DriftVocabulary.
Context {num : Type} `{Numeric num}.
Local Open Scope num_scope.

(** What one iteration of the loop leaves in the entry it shifted: the six
    in-place updates, in the order the code makes them. *)
Definition round_trip (shifts : list num) (x : num) : num :=
  let s1 := shifts !!! 0%nat in
  let s2 := shifts !!! 1%nat in
  (((((x + s1) - of_Z 2 * s1) + s1) + s2) - of_Z 2 * s2) + s2.

End DriftVocabulary.

(** The gradient of the parameter-shift circuit, in closed form. *)
Definition gradient_closed (t0 t1 t2 : R) : list R :=
  [sin t1 * sin (t0 / 2) / 4; - (cos t1 * cos (t0 / 2)) / 2; - sin (t2 / 2) / 2]%R.

(** The product state of two one-qubit states, wire 0 first. *)
Definition product_state (phi psi : C * C) : matrix C :=
  col [Cmul (fst phi) (fst psi); Cmul (fst phi) (snd psi);
       Cmul (snd phi) (fst psi); Cmul (snd phi) (snd psi)].

(** A stand-in for [json.loads] that knows two strings. *)
Definition two_loads (s1 : string) (v1 v2 : list float) (s : string) : result (list float) :=
  if String.eqb s s1 then Ret v1 else Ret v2.

(** The inputs [run] was called on, in the order of the calls. *)
Definition run_inputs (t : list Driver.event) : list string :=
  omap (fun e => match e with Driver.CallRun s => Some s | _ => None end) t.

Section ShiftVocabulary.
Context {num : Type} `{Numeric num}.
Local Open Scope num_scope.

(** The four values an entry [x] takes when the circuit is evaluated in
    one iteration of the loop: each is the previous one, updated in place. *)
Definition evaluation_points (shifts : list num) (x : num) : list num :=
  let s1 := shifts !!! 0%nat in
  let s2 := shifts !!! 1%nat in
  let p1 := x + s1 in
  let p2 := p1 - of_Z 2 * s1 in
  let p3 := (p2 + s1) + s2 in
  let p4 := p3 - of_Z 2 * s2 in
  [p1; p2; p3; p4].

End ShiftVocabulary.


Section ZNEVocabulary.
Context {num : Type} `{Numeric num}.
Variables hamiltonian device qnode : Type.
Variable molecular_hamiltonian : list string -> list num -> hamiltonian * nat.
Variable default_mixed : nat -> device.
Variable insert_depolarizing : num -> device -> device.
Variable QNode : (num -> list (ZNE.ansatz_op num) * hamiltonian) -> device -> qnode.
Variable fold_global : qnode -> num -> qnode.
Variable call : qnode -> num -> num.
Variable optimizer_step : num -> qnode -> num -> num.
Local Open Scope num_scope.

(** The parameter after [n] steps of gradient descent, of step size 0.4,
    on the QNode [qn], from [param]. *)
Fixpoint descend (qn : qnode) (n : nat) (param : num) : num :=
  match n with
  | O => param
  | S n' => descend qn n' (optimizer_step (of_Z 4 / of_Z 10) qn param)
  end.

(** The energy a VQE ends with: that of the QNode at the parameter which
    20 steps from 0 reach. *)
Definition vqe_energy (qn : qnode) : num := call qn (descend qn 20 (of_Z 0)).

(** The hydrogen molecule with its atoms at [-d] and [d] on the z axis:
    its Hamiltonian and the number of qubits of it. *)
Definition h2 (d : num) : hamiltonian * nat :=
  molecular_hamiltonian ["H"; "H"]%string [of_Z 0; of_Z 0; - d; of_Z 0; of_Z 0; d].

(** The cost function: the state |1100>, a double excitation by [param]
    on all the wires, and the expectation value of the Hamiltonian. *)
Definition h2_cost (d : num) (param : num) : list (ZNE.ansatz_op num) * hamiltonian :=
  let all_wires := seq 0 (snd (h2 d)) in
  ([ZNE.BasisState [1; 1; 0; 0]%nat all_wires; ZNE.DoubleExcitation param all_wires],
   fst (h2 d)).

(** The cost function on the noise-free device, and on the device with a
    depolarizing channel of strength 0.05 after every gate. *)
Definition ideal_qnode (d : num) : qnode :=
  QNode (h2_cost d) (default_mixed (snd (h2 d))).
Definition noisy_qnode (d : num) : qnode :=
  QNode (h2_cost d) (insert_depolarizing (of_Z 5 / of_Z 100) (default_mixed (snd (h2 d)))).

(** The VQE energy of the noisy circuit folded by a scale factor. *)
Definition mitigated_energy (d scale_factor : num) : num :=
  vqe_energy (fold_global (noisy_qnode d) scale_factor).

End ZNEVocabulary.

Section FidelityVocabulary.
Local Open Scope R_scope.

(** The matrix [2u |Phi+><Phi+| + 2v |Psi+><Psi+|] of the two Bell states
    (|00> + |11>)/sqrt 2 and (|01> + |10>)/sqrt 2. *)
Definition bell_mix (u v : R) : matrix C :=
  [[r u; r 0; r 0; r u]; [r 0; r v; r v; r 0];
   [r 0; r v; r v; r 0]; [r u; r 0; r 0; r u]].

(** A Hermitian 4 x 4 matrix, by its diagonal and its upper triangle. *)
Definition herm4 (d0 d1 d2 d3 x01 y01 x02 y02 x03 y03 x12 y12 x13 y13 x23 y23 : R)
  : matrix C :=
  [[(d0, 0); (x01, y01); (x02, y02); (x03, y03)];
   [(x01, - y01); (d1, 0); (x12, y12); (x13, y13)];
   [(x02, - y02); (x12, - y12); (d2, 0); (x23, y23)];
   [(x03, - y03); (x13, - y13); (x23, - y23); (d3, 0)]].

(** The determinant [a d - b c], the principal 2 x 2 minor of a matrix on
    rows and columns [i] and [j], and the squared modulus. *)
Definition cm (a b c_ d : C) : C := Cadd (Cmul a d) (Copp (Cmul b c_)).
Definition minor2 (A : matrix C) (i j : nat) : C :=
  cm (entry A i i) (entry A i j) (entry A j i) (entry A j j).
Definition nrm2 (z : C) : R := fst z * fst z + snd z * snd z.

(** The pairs of columns of a 4 x 4 matrix, and the sum over them of the
    squared moduli of the minors of rows [i] and [j]. *)
Definition index_pairs : list (nat * nat) :=
  [(0, 1); (0, 2); (0, 3); (1, 2); (1, 3); (2, 3)]%nat.
Definition minors_sq (A : matrix C) (i j : nat) : R :=
  fold_right Rplus 0
    (map (fun kl => nrm2 (cm (entry A i (fst kl)) (entry A i (snd kl))
                             (entry A j (fst kl)) (entry A j (snd kl))))
         index_pairs).

End FidelityVocabulary.

(* ------------------------------------------------------------------ *)
(** * Tactics                                                           *)
(* ------------------------------------------------------------------ *)

(** Evaluate the list structure of a matrix expression, leaving the
    real-number operations alone. *)
Ltac eval_matrix :=
  cbv -[Rplus Rmult Ropp Rminus Rinv Rdiv IZR R_sqrt.sqrt cos sin PI].

(** Split an equation between matrices into equations between entries. *)
Ltac entrywise :=
  repeat match goal with
         | |- (_ :: _) = (_ :: _) => f_equal
         | |- (_, _) = (_, _) => f_equal
         end.

(** The same for a hypothesis. *)
Ltac split_entries H :=
  repeat match type of H with
         | _ :: _ = _ :: _ =>
             let H1 := fresh "E" in injection H as H1 H; try split_entries H1
         | (_, _) = (_, _) =>
             let H1 := fresh "E" in let H2 := fresh "E" in injection H as H1 H2
         | [] = [] => clear H
         end.

(** Name the sixteen entries of a 4 x 4 matrix. *)
Ltac name_entries H :=
  destruct H
    as ([a00 b00] & [a01 b01] & [a02 b02] & [a03 b03] & [a10 b10] & [a11 b11] & [a12 b12]
        & [a13 b13] & [a20 b20] & [a21 b21] & [a22 b22] & [a23 b23] & [a30 b30] & [a31 b31]
        & [a32 b32] & [a33 b33] & ->).

(** Case analysis on a pair of [index_pairs]. *)
Ltac each_pair Hin :=
  unfold index_pairs in Hin;
  repeat (destruct Hin as [Heq | Hin]; [injection Heq as <- <-|]);
  [| | | | | |destruct Hin].

(* ------------------------------------------------------------------ *)
(** * The store: in-place updates of one cell                           *)
(* ------------------------------------------------------------------ *)

Section StoreLemmas.
Context {num : Type}.
Implicit Types (h : heap num) (ps : list num).

Lemma insert_cell_same h l ps i x :
  h !! l = Some ps -> ps !! i = Some x -> <[l := <[i := x]> ps]> h = h.
Proof.
  intros Hl Hi. rewrite (list_insert_id ps i x Hi). now apply insert_id.
Qed.

Lemma getitem_cell h l ps i v :
  (i < length ps)%nat ->
  getitem l i (<[l := <[i := v]> ps]> h) = (Ret v, <[l := <[i := v]> ps]> h).
Proof.
  intros Hi. unfold getitem.
  rewrite lookup_total_insert_eq, list_lookup_insert_eq by assumption. reflexivity.
Qed.

Lemma setitem_cell h l ps i v v' :
  (i < length ps)%nat ->
  setitem l i v' (<[l := <[i := v]> ps]> h) = (Ret tt, <[l := <[i := v']> ps]> h).
Proof.
  intros Hi. unfold setitem.
  rewrite lookup_total_insert_eq, list_lookup_insert_eq by assumption.
  rewrite insert_insert_eq, list_insert_insert_eq. reflexivity.
Qed.

End StoreLemmas.

(* ------------------------------------------------------------------ *)
(** * The gradient routine, on any arithmetic                           *)
(* ------------------------------------------------------------------ *)

Section GradLemmas.
Context {num : Type} `{Numeric num}.
Variable execute : list (op num) -> list pauli -> num.
Implicit Types (h : heap num) (ps g : list num).
Local Open Scope num_scope.

Lemma iadd_cell h l ps i v d :
  (i < length ps)%nat ->
  ParameterShift.iadd l i d (<[l := <[i := v]> ps]> h)
  = (Ret tt, <[l := <[i := v + d]> ps]> h).
Proof.
  intros Hi. unfold ParameterShift.iadd, mbind, M_bind, bind.
  rewrite getitem_cell by assumption. now apply setitem_cell.
Qed.

Lemma isub_cell h l ps i v d :
  (i < length ps)%nat ->
  ParameterShift.isub l i d (<[l := <[i := v]> ps]> h)
  = (Ret tt, <[l := <[i := v - d]> ps]> h).
Proof.
  intros Hi. unfold ParameterShift.isub, mbind, M_bind, bind.
  rewrite getitem_cell by assumption. now apply setitem_cell.
Qed.

Lemma call_cell h l ps i v :
  ParameterShift.call_circuit execute l (<[l := <[i := v]> ps]> h)
  = (ParameterShift.circuit execute (<[i := v]> ps), <[l := <[i := v]> ps]> h).
Proof.
  unfold ParameterShift.call_circuit. now rewrite lookup_total_insert_eq.
Qed.

Lemma circuit_ret ps :
  (3 <= length ps)%nat ->
  ParameterShift.circuit execute ps = Ret (circuit_value execute ps).
Proof.
  intros Hlen. destruct ps as [|a [|b [|c ps]]]; simpl in Hlen; try lia. reflexivity.
Qed.

Lemma circuit_raise ps :
  (length ps < 3)%nat -> ParameterShift.circuit execute ps = Raise IndexError.
Proof.
  intros Hlen. destruct ps as [|a [|b [|c ps]]]; simpl in Hlen; try lia; reflexivity.
Qed.

(** One iteration, when the arithmetic cancels: the entry of the gradient
    is the four-term combination, and the store is as it was. *)
Lemma loop_body_exact shifts coeffs l i g h ps :
  cancelling ->
  h !! l = Some ps -> (3 <= length ps)%nat -> (i < length ps)%nat -> (i < length g)%nat ->
  ParameterShift.loop_body execute shifts coeffs l i g h
  = (Ret (<[i := shift_rule execute shifts coeffs ps i]> g), h).
Proof.
  intros Hc Hl Hlen Hi Hg.
  destruct (lookup_lt_is_Some_2 ps i Hi) as [x Hx].
  assert (Hlen' : forall v, (3 <= length (<[i := v]> ps))%nat)
    by (intros v; now rewrite length_insert).
  rewrite <- (insert_cell_same h l ps i x Hl Hx) at 1.
  unfold ParameterShift.loop_body, mbind, M_bind, bind, mret, M_ret, ret.
  rewrite iadd_cell, call_cell, circuit_ret by auto.
  rewrite isub_cell, call_cell, circuit_ret by auto.
  rewrite iadd_cell by auto. rewrite Hc.
  rewrite iadd_cell, call_cell, circuit_ret by auto.
  rewrite isub_cell, call_cell, circuit_ret by auto.
  rewrite iadd_cell by auto. rewrite Hc.
  rewrite (insert_cell_same h l ps i x Hl Hx).
  f_equal. f_equal.
  rewrite !list_lookup_total_insert_eq by (rewrite ?length_insert; assumption).
  rewrite !list_insert_insert_eq.
  unfold shift_rule. rewrite (list_lookup_total_correct ps i x Hx). reflexivity.
Qed.

Lemma fill_lookup (V : nat -> num) m : forall k g j,
  (k + m <= length g)%nat ->
  fold_left (fun g i => <[i := V i]> g) (seq k m) g !! j
  = if decide (k <= j < k + m)%nat then Some (V j) else g !! j.
Proof.
  induction m as [|m IH]; intros k g j Hlen; simpl.
  - destruct (decide _) as [Hd|Hd]; [lia | reflexivity].
  - rewrite IH by (rewrite length_insert; lia).
    destruct (decide (S k <= j < S k + m)%nat) as [Hd|Hd].
    + rewrite decide_True by lia. reflexivity.
    + destruct (decide (j = k)) as [->|Hne].
      * rewrite decide_True by lia. apply list_lookup_insert_eq. lia.
      * rewrite decide_False by lia. now apply list_lookup_insert_ne.
Qed.

Lemma fill_all (V : nat -> num) g :
  fold_left (fun g i => <[i := V i]> g) (seq 0 (length g)) g = map V (seq 0 (length g)).
Proof.
  apply list_eq; intros j. rewrite fill_lookup by lia.
  destruct (decide (0 <= j < 0 + length g)%nat) as [Hd|Hd].
  - rewrite list_lookup_fmap, lookup_seq_lt by lia. reflexivity.
  - rewrite list_lookup_fmap, lookup_seq_ge by lia.
    now rewrite lookup_ge_None_2 by lia.
Qed.

Lemma loop_exact shifts coeffs l h ps m :
  cancelling -> h !! l = Some ps -> (3 <= length ps)%nat ->
  forall k g, (k + m <= length ps)%nat -> length g = length ps ->
  for_each (seq k m) (ParameterShift.loop_body execute shifts coeffs l) g h
  = (Ret (fold_left (fun g i => <[i := shift_rule execute shifts coeffs ps i]> g)
                    (seq k m) g), h).
Proof.
  intros Hc Hl Hlen. induction m as [|m IH]; intros k g Hk Hg; simpl.
  - reflexivity.
  - unfold bind. rewrite (loop_body_exact shifts coeffs l k g h ps) by (auto; lia).
    apply IH; [lia | now rewrite length_insert].
Qed.

Lemma my_parameter_shift_grad_exact l h ps :
  cancelling -> h !! l = Some ps -> (3 <= length ps)%nat ->
  ParameterShift.my_parameter_shift_grad execute l h
  = (Ret (map (fun i => around 5 (shift_rule execute (fst ParameterShift.shifts_and_coeffs)
                                     (snd ParameterShift.shifts_and_coeffs) ps i))
              (seq 0 (length ps))), h).
Proof.
  intros Hc Hl Hlen.
  unfold ParameterShift.my_parameter_shift_grad, mbind, M_bind, bind, contents, len,
    mret, M_ret, ret.
  destruct ParameterShift.shifts_and_coeffs as [shifts coeffs] eqn:Hsc. simpl fst; simpl snd.
  cbv beta iota. rewrite !(lookup_total_correct h l ps Hl).
  rewrite (loop_exact shifts coeffs l h ps (length ps) Hc Hl Hlen)
    by (rewrite ?length_replicate; lia).
  f_equal. f_equal.
  rewrite <- (length_replicate (length ps) (of_Z 0)) at 1.
  rewrite fill_all, length_replicate. now rewrite map_map.
Qed.

(** ** The frame: a cancelling arithmetic gives the list back *)

Lemma loop_body_frame shifts coeffs l i g h :
  cancelling ->
  returns_with (ParameterShift.loop_body execute shifts coeffs l i g) h
               (fun _ h' => h' = h).
Proof.
  intros Hc. unfold returns_with.
  destruct (h !! l) as [ps|] eqn:Hl; cycle 1.
  { unfold ParameterShift.loop_body, ParameterShift.iadd, mbind, M_bind, bind, getitem.
    assert (Hnil : h !!! l = []) by (rewrite lookup_total_alt, Hl; reflexivity).
    now rewrite Hnil, lookup_nil. }
  destruct (ps !! i) as [x|] eqn:Hx; cycle 1.
  { unfold ParameterShift.loop_body, ParameterShift.iadd, mbind, M_bind, bind, getitem.
    now rewrite (lookup_total_correct h l ps Hl), Hx. }
  assert (Hi : (i < length ps)%nat) by (apply lookup_lt_is_Some; eauto).
  assert (Hstart : ParameterShift.loop_body execute shifts coeffs l i g h
                 = ParameterShift.loop_body execute shifts coeffs l i g
                     (<[l := <[i := x]> ps]> h))
    by (now rewrite insert_cell_same).
  rewrite Hstart. clear Hstart.
  unfold ParameterShift.loop_body, mbind, M_bind, bind, mret, M_ret, ret.
  rewrite iadd_cell, call_cell by auto.
  destruct (ParameterShift.circuit _ _); [|exact I].
  rewrite isub_cell, call_cell by auto.
  destruct (ParameterShift.circuit _ _); [|exact I].
  rewrite iadd_cell by auto. rewrite Hc.
  rewrite iadd_cell, call_cell by auto.
  destruct (ParameterShift.circuit _ _); [|exact I].
  rewrite isub_cell, call_cell by auto.
  destruct (ParameterShift.circuit _ _); [|exact I].
  rewrite iadd_cell by auto. rewrite Hc.
  now apply insert_cell_same.
Qed.

Lemma for_each_frame {A} (body : nat -> A -> M num A) h is_ :
  (forall i a, returns_with (body i a) h (fun _ h' => h' = h)) ->
  forall a, returns_with (for_each is_ body a) h (fun _ h' => h' = h).
Proof.
  intros Hbody. induction is_ as [|i is_ IH]; intros a; unfold returns_with; simpl.
  - reflexivity.
  - unfold bind. specialize (Hbody i a). unfold returns_with in Hbody.
    destruct (body i a h) as [[a'|e] h']; [|exact I]. subst h'. apply IH.
Qed.

Lemma my_parameter_shift_grad_frame l h :
  cancelling ->
  returns_with (ParameterShift.my_parameter_shift_grad execute l) h (fun _ h' => h' = h).
Proof.
  intros Hc. unfold returns_with, ParameterShift.my_parameter_shift_grad.
  unfold mbind, M_bind, bind, contents, len, mret, M_ret, ret.
  destruct ParameterShift.shifts_and_coeffs as [shifts coeffs]. cbv beta iota.
  pose proof (for_each_frame (ParameterShift.loop_body execute shifts coeffs l) h
                (seq 0 (length (h !!! l)))
                (fun i g => loop_body_frame shifts coeffs l i g h Hc)
                (replicate (length (h !!! l)) (of_Z 0))) as Hf.
  unfold returns_with in Hf.
  destruct (for_each _ _ _ h) as [[g|e] h']; [assumption | exact I].
Qed.

End GradLemmas.

Lemma R_cancelling : cancelling (num := R).
Proof. intros x s. simpl. ring. Qed.

(* ------------------------------------------------------------------ *)
(** * The gradient routine touches one list only                        *)
(* ------------------------------------------------------------------ *)

Section Locality.
Context {num : Type} `{Numeric num}.
Variable execute : list (op num) -> list pauli -> num.
Variables l l' : loc.
Implicit Types (h : heap num).

Lemma related_ret {A} (a : A) : @related num l l' A (ret a) (ret a).
Proof. intros h h' Hs. split; [reflexivity | exact Hs]. Qed.

Lemma related_bind {A B} (c c' : M num A) (f f' : A -> M num B) :
  @related num l l' _ c c' -> (forall a, @related num l l' _ (f a) (f' a)) ->
  @related num l l' _ (bind c f) (bind c' f').
Proof.
  intros Hc Hf h h' Hs. unfold bind. destruct (Hc h h' Hs) as [Hr Hs'].
  destruct (c h) as [[a|e] h1], (c' h') as [[a'|e'] h1']; simpl in *; try discriminate.
  - injection Hr as ->. now apply Hf.
  - injection Hr as ->. split; [reflexivity | exact Hs'].
Qed.

Lemma related_getitem i : @related num l l' _ (getitem l i) (getitem l' i).
Proof.
  intros h h' Hs. unfold getitem, sim in *. rewrite Hs.
  destruct ((h' !!! l') !! i); simpl; split; auto.
Qed.

Lemma related_setitem i v : @related num l l' _ (setitem l i v) (setitem l' i v).
Proof.
  intros h h' Hs. unfold setitem, sim in *. rewrite Hs.
  destruct ((h' !!! l') !! i); simpl; split; auto.
  now rewrite !lookup_total_insert_eq.
Qed.

Lemma related_call :
  @related num l l' _ (ParameterShift.call_circuit execute l)
               (ParameterShift.call_circuit execute l').
Proof.
  intros h h' Hs. unfold ParameterShift.call_circuit, sim in *. rewrite Hs. split; auto.
Qed.

Lemma related_iadd i d :
  @related num l l' _ (ParameterShift.iadd l i d) (ParameterShift.iadd l' i d).
Proof.
  apply related_bind; [apply related_getitem | intros a; apply related_setitem].
Qed.

Lemma related_isub i d :
  @related num l l' _ (ParameterShift.isub l i d) (ParameterShift.isub l' i d).
Proof.
  apply related_bind; [apply related_getitem | intros a; apply related_setitem].
Qed.

Lemma related_loop_body shifts coeffs i g :
  @related num l l' _ (ParameterShift.loop_body execute shifts coeffs l i g)
               (ParameterShift.loop_body execute shifts coeffs l' i g).
Proof.
  unfold ParameterShift.loop_body.
  repeat first
    [ apply related_bind;
      [first [apply related_iadd | apply related_isub | apply related_call] | intros ?]
    | apply related_ret ].
Qed.

Lemma related_for_each {A} (body body' : nat -> A -> M num A) is_ :
  (forall i a, @related num l l' _ (body i a) (body' i a)) ->
  forall a, @related num l l' _ (for_each is_ body a) (for_each is_ body' a).
Proof.
  intros Hb. induction is_ as [|i is_ IH]; intros a; simpl.
  - apply related_ret.
  - apply related_bind; [apply Hb | apply IH].
Qed.

Lemma related_grad :
  @related num l l' _ (ParameterShift.my_parameter_shift_grad execute l)
               (ParameterShift.my_parameter_shift_grad execute l').
Proof.
  unfold ParameterShift.my_parameter_shift_grad.
  destruct ParameterShift.shifts_and_coeffs as [shifts coeffs].
  intros h h' Hs. unfold mbind, M_bind, bind, contents, len, mret, M_ret, ret.
  cbv beta iota. unfold sim in Hs. rewrite Hs.
  destruct (related_for_each _ _ (seq 0 (length (h' !!! l')))
              (related_loop_body shifts coeffs)
              (replicate (length (h' !!! l')) (of_Z 0)) h h' Hs) as [Hr Hs'].
  destruct (for_each _ _ _ h) as [[g|e] h1], (for_each _ _ _ h') as [[g'|e'] h1'];
    simpl in *; try discriminate; injection Hr as ->; split; auto.
Qed.

Lemma confined_ret {A} (a : A) : @confined num l A (ret a).
Proof. intros h l0 _. reflexivity. Qed.

Lemma confined_bind {A B} (c : M num A) (f : A -> M num B) :
  @confined num l _ c -> (forall a, @confined num l _ (f a)) -> @confined num l _ (bind c f).
Proof.
  intros Hc Hf h l0 Hne. unfold bind. specialize (Hc h l0 Hne).
  destruct (c h) as [[a|e] h1]; simpl in *; [|exact Hc].
  rewrite <- Hc. now apply Hf.
Qed.

Lemma confined_getitem i : @confined num l _ (getitem l i).
Proof. intros h l0 _. unfold getitem. now destruct ((h !!! l) !! i). Qed.

Lemma confined_setitem i v : @confined num l _ (setitem l i v).
Proof.
  intros h l0 Hne. unfold setitem. destruct ((h !!! l) !! i); simpl; auto.
  now apply lookup_insert_ne.
Qed.

Lemma confined_loop_body shifts coeffs i g :
  @confined num l _ (ParameterShift.loop_body execute shifts coeffs l i g).
Proof.
  unfold ParameterShift.loop_body, ParameterShift.iadd, ParameterShift.isub.
  repeat first
    [ apply confined_bind; [| intros ?]
    | apply confined_getitem | apply confined_setitem | apply confined_ret
    | (intros h l0 _; reflexivity) ].
Qed.

Lemma confined_for_each {A} (body : nat -> A -> M num A) is_ :
  (forall i a, @confined num l _ (body i a)) -> forall a, @confined num l _ (for_each is_ body a).
Proof.
  intros Hb. induction is_ as [|i is_ IH]; intros a; simpl.
  - apply confined_ret.
  - apply confined_bind; [apply Hb | apply IH].
Qed.

Lemma confined_grad : @confined num l _ (ParameterShift.my_parameter_shift_grad execute l).
Proof.
  unfold ParameterShift.my_parameter_shift_grad.
  destruct ParameterShift.shifts_and_coeffs as [shifts coeffs].
  apply confined_bind; [intros h l0 _; reflexivity | intros ps].
  apply confined_bind; [intros h l0 _; reflexivity | intros n].
  apply confined_bind; [apply confined_for_each, confined_loop_body | intros g].
  apply confined_ret.
Qed.

End Locality.

Section RunLocal.
Context {num : Type} `{Numeric num}.
Variable execute : list (op num) -> list pauli -> num.
Variable json_loads : string -> result (list num).
Variable str : list num -> string.

Lemma run_output_local s (h1 h2 : heap num) :
  fst (ParameterShift.run execute json_loads str s h1)
  = fst (ParameterShift.run execute json_loads str s h2).
Proof.
  unfold ParameterShift.run, mbind, M_bind, bind, lift, alloc, mret, M_ret, ret.
  destruct (json_loads s) as [ps|e]; [|reflexivity].
  set (l1 := fresh (dom h1)). set (l2 := fresh (dom h2)).
  destruct (related_grad execute l1 l2 (<[l1 := ps]> h1) (<[l2 := ps]> h2)) as [Hr _].
  { unfold sim. now rewrite !lookup_total_insert_eq. }
  destruct (ParameterShift.my_parameter_shift_grad execute l1 _) as [[g|e] h1'],
           (ParameterShift.my_parameter_shift_grad execute l2 _) as [[g'|e'] h2'];
    simpl in *; try discriminate; now injection Hr as ->.
Qed.

Lemma run_frame s (h : heap num) l0 v :
  h !! l0 = Some v ->
  snd (ParameterShift.run execute json_loads str s h) !! l0 = Some v.
Proof.
  intros Hl0.
  unfold ParameterShift.run, mbind, M_bind, bind, lift, alloc, mret, M_ret, ret.
  destruct (json_loads s) as [ps|e]; [|exact Hl0].
  set (l := fresh (dom h)).
  assert (Hne : l0 <> l).
  { intros ->. pose proof (is_fresh (dom h)) as Hf. apply Hf.
    apply elem_of_dom. eauto. }
  pose proof (confined_grad execute l (<[l := ps]> h) l0 Hne) as Hc.
  rewrite lookup_insert_ne in Hc by auto.
  destruct (ParameterShift.my_parameter_shift_grad execute l _) as [[g|e] h']; simpl in *;
    now rewrite Hc.
Qed.

End RunLocal.

(* ------------------------------------------------------------------ *)
(** * What the checkers test                                            *)
(* ------------------------------------------------------------------ *)

Section CheckLemmas.

(** The three numeric notebooks share one shape of [check]. *)
Lemma allclose_check_accepts
    (check : (string -> result (list float)) -> string -> string -> result pyval)
    rtol msg :
  (forall jl s e, check jl s e =
     (sol ← jl s; ex ← jl e; ok ← NumPy.allclose rtol NumPy.default_atol sol ex;
      assert_ ok msg;; Ret PyNone)) ->
  forall jl s e,
    is_ret (check jl s e) = true <->
    exists sol ex, jl s = Ret sol /\ jl e = Ret ex
                   /\ NumPy.allclose rtol NumPy.default_atol sol ex = Ret true.
Proof.
  intros Hdef jl s e. rewrite Hdef. unfold mbind, result_bind.
  split.
  - destruct (jl s) as [sol|]; [|discriminate].
    destruct (jl e) as [ex|]; [|discriminate].
    destruct (NumPy.allclose _ _ sol ex) as [[|]|] eqn:Hok; try discriminate.
    intros _. eauto.
  - intros (sol & ex & -> & -> & ->). reflexivity.
Qed.

Lemma allclose_check_none
    (check : (string -> result (list float)) -> string -> string -> result pyval)
    rtol msg :
  (forall jl s e, check jl s e =
     (sol ← jl s; ex ← jl e; ok ← NumPy.allclose rtol NumPy.default_atol sol ex;
      assert_ ok msg;; Ret PyNone)) ->
  forall jl s e v, check jl s e = Ret v -> v = PyNone.
Proof.
  intros Hdef jl s e v. rewrite Hdef. unfold mbind, result_bind.
  destruct (jl s) as [sol|]; [|discriminate].
  destruct (jl e) as [ex|]; [|discriminate].
  destruct (NumPy.allclose _ _ sol ex) as [[|]|]; try discriminate.
  simpl. congruence.
Qed.

Lemma ht_check_accepts jl s e :
  is_ret (UniversalityHT.check jl s e) = true <->
  exists out, jl s = Ret out
    /\ NumPy.rectangular (matrix_field out) = true
    /\ NumPy.allclose2 NumPy.default_rtol NumPy.default_atol
         (matrix_field out) UniversalityHT.SWAP = Ret true
    /\ distinct_count (gates_field out) = 3%nat
    /\ contains (gates_field out) "Hadamard" = true
    /\ contains (gates_field out) "CNOT" = true
    /\ contains (gates_field out) "T" = true.
Proof.
  unfold UniversalityHT.check, mbind, result_bind, NumPy.array2.
  split.
  - destruct (jl s) as [out|]; [|discriminate].
    destruct (NumPy.rectangular (matrix_field out)) eqn:Hrect; [|discriminate].
    destruct (NumPy.allclose2 _ _ _ _) as [[|]|] eqn:Hok; try discriminate.
    simpl assert_ at 1. cbv iota.
    destruct (Nat.eqb _ 3) eqn:Hn; [|discriminate].
    destruct (contains _ "Hadamard") eqn:Hh; [|discriminate].
    destruct (contains _ "CNOT") eqn:Hc; [|discriminate].
    destruct (contains _ "T") eqn:Ht; [|discriminate].
    intros _. exists out. apply Nat.eqb_eq in Hn. auto 10.
  - intros (out & -> & -> & -> & Hn & -> & -> & ->).
    apply Nat.eqb_eq in Hn. rewrite Hn. reflexivity.
Qed.

Lemma u3_check_accepts jl s e :
  is_ret (UniversalityU3.check jl s e) = true <->
  exists out, jl s = Ret out
    /\ NumPy.rectangular (matrix_field out) = true
    /\ NumPy.allclose2 NumPy.default_rtol NumPy.default_atol
         (matrix_field out) UniversalityU3.solution = Ret true
    /\ distinct_count (gates_field out) = 2%nat
    /\ contains (gates_field out) "U3" = true
    /\ contains (gates_field out) "CNOT" = true.
Proof.
  unfold UniversalityU3.check, mbind, result_bind, NumPy.array2.
  split.
  - destruct (jl s) as [out|]; [|discriminate].
    destruct (NumPy.rectangular (matrix_field out)) eqn:Hrect; [|discriminate].
    destruct (NumPy.allclose2 _ _ _ _) as [[|]|] eqn:Hok; try discriminate.
    simpl assert_ at 1. cbv iota.
    destruct (Nat.eqb _ 2) eqn:Hn; [|discriminate].
    destruct (contains _ "U3") eqn:Hh; [|discriminate].
    destruct (contains _ "CNOT") eqn:Hc; [|discriminate].
    intros _. exists out. apply Nat.eqb_eq in Hn. auto 10.
  - intros (out & -> & -> & -> & Hn & -> & ->).
    apply Nat.eqb_eq in Hn. rewrite Hn. reflexivity.
Qed.

Lemma ht_check_none jl s e v : UniversalityHT.check jl s e = Ret v -> v = PyNone.
Proof.
  unfold UniversalityHT.check, mbind, result_bind.
  destruct (jl s) as [out|]; [|discriminate].
  destruct (NumPy.array2 _) as [m|]; [|discriminate].
  destruct (NumPy.allclose2 _ _ _ _) as [[|]|]; try discriminate.
  simpl assert_ at 1. cbv iota.
  destruct (assert_ _ _); [congruence | discriminate].
Qed.

Lemma u3_check_none jl s e v : UniversalityU3.check jl s e = Ret v -> v = PyNone.
Proof.
  unfold UniversalityU3.check, mbind, result_bind.
  destruct (jl s) as [out|]; [|discriminate].
  destruct (NumPy.array2 _) as [m|]; [|discriminate].
  destruct (NumPy.allclose2 _ _ _ _) as [[|]|]; try discriminate.
  simpl assert_ at 1. cbv iota.
  destruct (assert_ _ _); [congruence | discriminate].
Qed.

(** What [np.allclose] tests: every broadcast pair is close. *)
Lemma allclose_true rtol atol a b :
  NumPy.allclose rtol atol a b = Ret true <->
  exists ps, NumPy.broadcast a b = Ret ps
             /\ Forall (fun p => NumPy.isclose rtol atol (fst p) (snd p) = true) ps.
Proof.
  unfold NumPy.allclose, mbind, result_bind. split.
  - destruct (NumPy.broadcast a b) as [ps|]; [|discriminate].
    intros [= Hall]. exists ps. split; [reflexivity|].
    apply Forall_forall. intros p Hp. rewrite forallb_forall in Hall.
    apply Hall. now apply list_elem_of_In.
  - intros (ps & -> & Hall). f_equal. apply forallb_forall. intros p Hp.
    rewrite Forall_forall in Hall. apply Hall. now apply list_elem_of_In.
Qed.

(** When its arguments parse and the arrays have compatible shapes,
    [check] returns [None] or raises its AssertionError, nothing else. *)
Lemma allclose_check_outcome
    (check : (string -> result (list float)) -> string -> string -> result pyval)
    rtol msg :
  (forall jl s e, check jl s e =
     (sol ← jl s; ex ← jl e; ok ← NumPy.allclose rtol NumPy.default_atol sol ex;
      assert_ ok msg;; Ret PyNone)) ->
  forall jl s e sol ex b,
    jl s = Ret sol -> jl e = Ret ex ->
    NumPy.allclose rtol NumPy.default_atol sol ex = Ret b ->
    check jl s e = if b then Ret PyNone else Raise (AssertionError msg).
Proof.
  intros Hdef jl s e sol ex b Hs He Hb. rewrite Hdef. unfold mbind, result_bind.
  rewrite Hs, He, Hb. now destruct b.
Qed.







End CheckLemmas.

(* ------------------------------------------------------------------ *)
(** * The driver loop                                                   *)
(* ------------------------------------------------------------------ *)

Section DriverLemmas.
Import Driver.
Context {W : Type}.
Variable run : string -> W -> result string * W.
Variable check : string -> string -> result pyval.

Lemma test_case_no_wrong_answer i input expected w :
  (forall o e v, check o e = Ret v -> truthy v = false) ->
  forall o e,
    ~ In (Print (wrong_answer o e)) (trace_of (test_case run check i input expected w)).
Proof.
  intros Hnone o e. unfold test_case, trace_of.
  destruct (run input w) as [[output|exc] w'].
  - destruct (check output expected) as [v|exc] eqn:Hchk.
    + rewrite (Hnone _ _ _ Hchk). simpl.
      intros [H|[H|[H|[H|[]]]]]; discriminate.
    + simpl. intros [H|[H|[H|[]]]]; discriminate.
  - simpl. intros [H|[H|[H|[]]]]; discriminate.
Qed.

Lemma loop_no_wrong_answer tests :
  (forall o e v, check o e = Ret v -> truthy v = false) ->
  forall i w o e, ~ In (Print (wrong_answer o e)) (trace_of (loop run check i tests w)).
Proof.
  intros Hnone. induction tests as [|[input expected] rest IH]; intros i w o e; simpl.
  - intros [].
  - pose proof (test_case_no_wrong_answer i input expected w Hnone o e) as Ht.
    destruct (test_case run check i input expected w) as [[t [exc|]] w']; [exact Ht|].
    specialize (IH (S i) w' o e).
    destruct (loop run check (S i) rest w') as [[t' r] w'']. unfold trace_of in *; simpl in *.
    rewrite in_app_iff. tauto.
Qed.



End DriverLemmas.

(* ------------------------------------------------------------------ *)
(** * Matrices: ring morphisms act entry by entry                       *)
(* ------------------------------------------------------------------ *)

Section MatrixFacts.
Context {S : Type} `{Scalar S}.

Lemma mk_matrix_ext n m (f g : nat -> nat -> S) :
  (forall i j, f i j = g i j) -> mk_matrix n m f = mk_matrix n m g.
Proof.
  intros Hfg. unfold mk_matrix. apply map_ext. intros i. apply map_ext. intros j. apply Hfg.
Qed.

End MatrixFacts.

Section Morphism.
Context {S S' : Type} `{Scalar S} `{Scalar S'}.
Variable phi : S -> S'.
Hypothesis phi_0 : phi s0 = s0.
Hypothesis phi_1 : phi s1 = s1.
Hypothesis phi_add : forall x y, phi (sadd x y) = sadd (phi x) (phi y).
Hypothesis phi_mul : forall x y, phi (smul x y) = smul (phi x) (phi y).

Lemma entry_mmap A i j : entry (mmap phi A) i j = phi (entry A i j).
Proof.
  unfold entry, mmap.
  change (@nil S') with (map phi []). rewrite map_nth.
  rewrite <- phi_0. apply map_nth.
Qed.

Lemma rows_mmap A : rows (mmap phi A) = rows A.
Proof. unfold rows, mmap. apply length_map. Qed.

Lemma cols_mmap A : cols (mmap phi A) = cols A.
Proof. unfold cols, mmap. destruct A; simpl; [reflexivity | apply length_map]. Qed.

Lemma mmap_mk_matrix n m f :
  mmap phi (mk_matrix n m f) = mk_matrix n m (fun i j => phi (f i j)).
Proof.
  unfold mmap, mk_matrix. rewrite map_map. apply map_ext. intros i. now rewrite map_map.
Qed.

Lemma phi_ssum l : phi (ssum l) = ssum (map phi l).
Proof.
  induction l as [|x l IH]; simpl; [exact phi_0 | now rewrite phi_add, IH].
Qed.

Lemma mmap_mmul A B : mmap phi (mmul A B) = mmul (mmap phi A) (mmap phi B).
Proof.
  unfold mmul. rewrite mmap_mk_matrix, rows_mmap, !cols_mmap.
  apply mk_matrix_ext. intros i j. rewrite phi_ssum, map_map.
  f_equal. apply map_ext. intros k. now rewrite phi_mul, !entry_mmap.
Qed.

Lemma mmap_expand n ws G : mmap phi (expand n ws G) = expand n ws (mmap phi G).
Proof.
  unfold expand. rewrite mmap_mk_matrix. apply mk_matrix_ext. intros r0 c0.
  destruct (same_rest n ws r0 c0); [now rewrite entry_mmap | exact phi_0].
Qed.

Lemma mmap_identity n : mmap phi (identity n) = identity n.
Proof.
  unfold identity. rewrite mmap_mk_matrix. apply mk_matrix_ext. intros i j.
  now destruct (Nat.eqb i j).
Qed.

Lemma mmap_chain n gs M0 :
  mmap phi (chain n gs M0)
  = chain n (map (fun g => (fst g, mmap phi (snd g))) gs) (mmap phi M0).
Proof.
  unfold chain. revert M0. induction gs as [|g gs IH]; intros M0; simpl.
  - reflexivity.
  - rewrite IH. now rewrite mmap_mmul, mmap_expand.
Qed.

End Morphism.

(* ------------------------------------------------------------------ *)
(** * The exact field stands for complex numbers                        *)
(* ------------------------------------------------------------------ *)

Section RealFacts.
Local Open Scope R_scope.

Lemma sqrt2_sq : R_sqrt.sqrt 2 * R_sqrt.sqrt 2 = 2.
Proof. apply sqrt_sqrt. lra. Qed.

Lemma sqrt2_pos : 0 < R_sqrt.sqrt 2.
Proof. apply sqrt_lt_R0. lra. Qed.

Lemma inv_sqrt2_half : / R_sqrt.sqrt 2 = R_sqrt.sqrt 2 / 2.
Proof.
  pose proof sqrt2_sq. pose proof sqrt2_pos.
  apply Rmult_eq_reg_l with (R_sqrt.sqrt 2); [|lra].
  rewrite Rinv_r by lra. lra.
Qed.

Lemma inv_sqrt2_sq : / R_sqrt.sqrt 2 * / R_sqrt.sqrt 2 = 1 / 2.
Proof.
  pose proof sqrt2_sq as Hs. pose proof sqrt2_pos.
  rewrite <- Rinv_mult. rewrite Hs. lra.
Qed.

Lemma cos2_sin2 x : cos x * cos x + sin x * sin x = 1.
Proof. pose proof (sin2_cos2 x) as Hx. unfold Rsqr in Hx. lra. Qed.

Lemma Q2R_Qred q : Q2R (Qred q) = Q2R q.
Proof. apply Qeq_eqR, Qred_correct. Qed.

End RealFacts.

Ltac q2r :=
  rewrite ?Q2R_Qred, ?Q2R_plus, ?Q2R_minus, ?Q2R_mult, ?Q2R_opp.

Section Denote.
Import Exact.
Local Open Scope R_scope.

Lemma denote_0 : denote s0 = s0.
Proof. unfold denote; simpl. unfold RtoC, Q2R; simpl. f_equal; lra. Qed.

Lemma denote_1 : denote s1 = s1.
Proof. unfold denote; simpl. unfold RtoC, Q2R; simpl. f_equal; lra. Qed.

Lemma denote_add x y : denote (sadd x y) = sadd (denote x) (denote y).
Proof.
  destruct x, y. unfold denote; simpl. unfold Cadd; simpl.
  repeat q2r. f_equal; ring.
Qed.

Lemma denote_mul x y : denote (smul x y) = smul (denote x) (denote y).
Proof.
  destruct x as [a b c d], y as [a' b' c' d']. unfold denote; simpl. unfold Cmul; simpl.
  repeat q2r. replace (Q2R 2) with 2 by (unfold Q2R; simpl; lra).
  pose proof sqrt2_sq as Hs.
  f_equal.
  - transitivity (Q2R a * Q2R a' + Q2R b * Q2R b' * (R_sqrt.sqrt 2 * R_sqrt.sqrt 2)
                  - Q2R c * Q2R c' - Q2R d * Q2R d' * (R_sqrt.sqrt 2 * R_sqrt.sqrt 2)
                  + (Q2R a * Q2R b' + Q2R b * Q2R a' - Q2R c * Q2R d' - Q2R d * Q2R c')
                    * R_sqrt.sqrt 2); [rewrite Hs|]; ring.
  - transitivity (Q2R a * Q2R c' + Q2R b * Q2R d' * (R_sqrt.sqrt 2 * R_sqrt.sqrt 2)
                  + Q2R c * Q2R a' + Q2R d * Q2R b' * (R_sqrt.sqrt 2 * R_sqrt.sqrt 2)
                  + (Q2R a * Q2R d' + Q2R b * Q2R c' + Q2R c * Q2R b' + Q2R d * Q2R a')
                    * R_sqrt.sqrt 2); [rewrite Hs|]; ring.
Qed.

Lemma chain_exact n gs M0 :
  chain n (exact_gates gs) (mmap denote M0) = mmap denote (chain n gs M0).
Proof.
  symmetry. apply mmap_chain; auto using denote_0, denote_add, denote_mul.
Qed.

Lemma identity_exact n : identity (S := C) n = mmap denote (identity n).
Proof. symmetry. apply mmap_identity; auto using denote_0, denote_1. Qed.

(** The gates of the H/T/CNOT set are exact. *)
Lemma Hadamard_exact w : Sim.gate_matrix (Hadamard w) = mmap denote Hadamard_K.
Proof.
  unfold Sim.gate_matrix, Hadamard_K, mmap, denote, Sim.c, RtoC; simpl.
  unfold Q2R; simpl. rewrite inv_sqrt2_half.
  repeat (f_equal; try lra).
Qed.

Lemma T_exact w : Sim.gate_matrix (T w) = mmap denote T_K.
Proof.
  unfold Sim.gate_matrix, T_K, mmap, denote, Sim.c, RtoC, Cexp; simpl.
  unfold Q2R; simpl. rewrite cos_PI4, sin_PI4.
  unfold Rdiv. rewrite inv_sqrt2_half.
  repeat (f_equal; try lra).
Qed.

Lemma CNOT_exact a b : Sim.gate_matrix (CNOT a b) = mmap denote CNOT_K.
Proof.
  unfold Sim.gate_matrix, CNOT_K, mmap, denote, Sim.c, RtoC; simpl.
  unfold Q2R; simpl.
  repeat (f_equal; try lra).
Qed.

Lemma gates_of_exact ops :
  forallb in_HT ops = true -> Sim.gates_of ops = exact_gates (gates_K ops).
Proof.
  induction ops as [|o ops IH]; cbn [forallb]; [reflexivity|].
  intros Hall. apply andb_prop in Hall as [Ho Hall].
  unfold Sim.gates_of, exact_gates, gates_K in *. cbn [map fst snd].
  rewrite IH by assumption. f_equal.
  destruct o; try discriminate; cbn [wires gate_K]; f_equal;
    [apply Hadamard_exact | apply T_exact | apply CNOT_exact].
Qed.

(** The three U3 gates of the second notebook are the identity, Pauli Z
    and the Hadamard gate. *)
Lemma U3_identity w :
  Sim.gate_matrix (U3 (of_Z 0) (of_Z 0) (of_Z 0) w) = mmap denote (identity 2).
Proof.
  unfold Sim.gate_matrix, mmap, denote, Sim.c, RtoC, Cexp, Cmul, Copp; simpl.
  unfold Q2R; simpl.
  replace (0 / 2) with 0 by lra. replace (0 + 0) with 0 by lra.
  rewrite cos_0, sin_0.
  repeat (f_equal; try lra).
Qed.

Lemma U3_Z w :
  Sim.gate_matrix (U3 (of_Z 0) (pi / of_Z 2)%num (pi / of_Z 2)%num w) = mmap denote Z_K.
Proof.
  unfold Sim.gate_matrix, Z_K, mmap, denote, Sim.c, RtoC, Cexp, Cmul, Copp; simpl.
  unfold Q2R; simpl.
  replace (0 / 2) with 0 by lra. replace (PI / 2 + PI / 2) with PI by lra.
  rewrite cos_0, sin_0, cos_PI, sin_PI.
  repeat (f_equal; try lra).
Qed.

Lemma U3_Hadamard w :
  Sim.gate_matrix (U3 (pi / of_Z 2)%num (of_Z 0) pi w) = mmap denote Hadamard_K.
Proof.
  unfold Sim.gate_matrix, Hadamard_K, mmap, denote, Sim.c, RtoC, Cexp, Cmul, Copp; simpl.
  unfold Q2R; simpl.
  replace (PI / 2 / 2) with (PI / 4) by lra. replace (0 + PI) with PI by lra.
  rewrite cos_0, sin_0, cos_PI, sin_PI, cos_PI4, sin_PI4.
  unfold Rdiv. rewrite inv_sqrt2_half.
  repeat (f_equal; try lra).
Qed.

Lemma u3_gates_exact :
  Sim.gates_of UniversalityU3.circuit = exact_gates u3_circuit_K.
Proof.
  unfold Sim.gates_of, UniversalityU3.circuit, exact_gates, u3_circuit_K.
  cbn [map fst snd wires].
  rewrite !U3_identity, !U3_Z, !U3_Hadamard, CNOT_exact. reflexivity.
Qed.

Lemma ht_circuit_matrix : Ideal.matrix_real 2 UniversalityHT.circuit = SWAP_R.
Proof.
  unfold Ideal.matrix_real, Sim.matrix_of. rewrite gates_of_exact by reflexivity.
  rewrite identity_exact, chain_exact.
  set (M := chain 2 _ _). vm_compute in M. subst M.
  unfold mmap, denote, Re, SWAP_R, Q2R; simpl.
  repeat (f_equal; try lra).
Qed.

Lemma u3_circuit_matrix : Ideal.matrix_real 3 UniversalityU3.circuit = solution_R.
Proof.
  unfold Ideal.matrix_real, Sim.matrix_of. rewrite u3_gates_exact.
  rewrite identity_exact, chain_exact.
  set (M := chain 3 _ _). vm_compute in M. subst M.
  unfold mmap, denote, Re, solution_R, Q2R; simpl.
  unfold Rdiv. rewrite inv_sqrt2_half.
  repeat (f_equal; try lra).
Qed.

Lemma Rclose_refl rtol atol x : 0 <= rtol -> 0 <= atol -> NumPy.Rclose rtol atol x x.
Proof.
  intros Hr Ha. unfold NumPy.Rclose. replace (x - x) with 0 by ring.
  rewrite Rabs_R0. pose proof (Rabs_pos x). nra.
Qed.

Lemma Rallclose2_refl rtol atol A :
  0 <= rtol -> 0 <= atol -> NumPy.Rallclose2 rtol atol A A.
Proof.
  intros Hr Ha. unfold NumPy.Rallclose2.
  induction A as [|row A IH]; constructor; [|exact IH].
  induction row as [|x row IHr]; constructor; [now apply Rclose_refl | exact IHr].
Qed.

End Denote.

(* ------------------------------------------------------------------ *)
(** * The bit-flip circuit on the mixed-state device                    *)
(* ------------------------------------------------------------------ *)

Section BitflipStages.
Local Open Scope R_scope.

Lemma stage_zero : mmul (ket0 2) (adjoint (ket0 2)) = rho0.
Proof. eval_matrix. entrywise; ring. Qed.

Lemma stage_hadamard : Sim.apply_channel 2 rho0 (Gate (Hadamard 0)) = rho1.
Proof.
  eval_matrix.
  pose proof inv_sqrt2_sq as Ha. set (a := / R_sqrt.sqrt 2) in *. clearbody a.
  entrywise; try ring; nra.
Qed.

Lemma stage_cnot : Sim.apply_channel 2 rho1 (Gate (CNOT 0 1)) = bell.
Proof. eval_matrix. entrywise; ring. Qed.

Lemma stage_bitflip0 p : 0 <= p <= 1 -> Sim.apply_channel 2 bell (BitFlip p 0) = rho3 p.
Proof.
  intros Hp.
  assert (Ha : R_sqrt.sqrt p * R_sqrt.sqrt p = p) by (apply sqrt_sqrt; lra).
  assert (Hb : R_sqrt.sqrt (1 - p) * R_sqrt.sqrt (1 - p) = 1 - p) by (apply sqrt_sqrt; lra).
  eval_matrix.
  set (a := R_sqrt.sqrt p) in *. set (b := R_sqrt.sqrt (1 - p)) in *. clearbody a b.
  entrywise; try ring; nra.
Qed.

Lemma stage_bitflip1 p : 0 <= p <= 1 -> Sim.apply_channel 2 (rho3 p) (BitFlip p 1) = rho4 p.
Proof.
  intros Hp.
  assert (Ha : R_sqrt.sqrt p * R_sqrt.sqrt p = p) by (apply sqrt_sqrt; lra).
  assert (Hb : R_sqrt.sqrt (1 - p) * R_sqrt.sqrt (1 - p) = 1 - p) by (apply sqrt_sqrt; lra).
  eval_matrix.
  set (a := R_sqrt.sqrt p) in *. set (b := R_sqrt.sqrt (1 - p)) in *. clearbody a b.
  entrywise; try ring; nra.
Qed.

(** The error-less circuit prepares the Bell state. *)
Lemma circuit_is_bell :
  BitflipFidelity.circuit (matrix C) Ideal.mixed_state = bell.
Proof.
  unfold BitflipFidelity.circuit, Ideal.mixed_state, Sim.density_matrix.
  cbn [fold_left]. now rewrite stage_zero, stage_hadamard, stage_cnot.
Qed.

Lemma bitflip_circuit_state p :
  0 <= p <= 1 -> BitflipFidelity.bitflip_circuit (matrix C) Ideal.mixed_state p = rho4 p.
Proof.
  intros Hp.
  unfold BitflipFidelity.bitflip_circuit, Ideal.mixed_state, Sim.density_matrix.
  cbn [fold_left].
  now rewrite stage_zero, stage_hadamard, stage_cnot, stage_bitflip0, stage_bitflip1.
Qed.

(** ** The fidelity with the Bell state

    [uhlmann (rho4 p) bell] holds of one number only.  Whatever square
    root [S] of [rho4 p] is taken, [S bell S] has rank one (its 2 x 2
    minors vanish) and trace [Tr (bell (S S))]; a Hermitian [T] with
    [T T = S bell S] then has vanishing principal 2 x 2 minors, because the
    minors of [T T] are sums of squared moduli of minors of [T], so that
    [(Tr T)^2 = Tr (T T)]. *)

Lemma square4_inv (A : matrix C) :
  Sim.square_matrix 4 A ->
  exists a00 a01 a02 a03 a10 a11 a12 a13 a20 a21 a22 a23 a30 a31 a32 a33,
    A = [[a00; a01; a02; a03]; [a10; a11; a12; a13];
         [a20; a21; a22; a23]; [a30; a31; a32; a33]].
Proof.
  intros [Hlen Hrows].
  destruct A as [|r0 [|r1 [|r2 [|r3 [|r4 A]]]]]; try discriminate Hlen.
  inversion Hrows as [|? ? H0 Hrows1]; subst.
  inversion Hrows1 as [|? ? H1 Hrows2]; subst.
  inversion Hrows2 as [|? ? H2 Hrows3]; subst.
  inversion Hrows3 as [|? ? H3 _]; subst.
  destruct r0 as [|? [|? [|? [|? [|? ?]]]]]; try discriminate H0.
  destruct r1 as [|? [|? [|? [|? [|? ?]]]]]; try discriminate H1.
  destruct r2 as [|? [|? [|? [|? [|? ?]]]]]; try discriminate H2.
  destruct r3 as [|? [|? [|? [|? [|? ?]]]]]; try discriminate H3.
  repeat eexists.
Qed.

Lemma hermitian4_inv (T : matrix C) :
  Sim.square_matrix 4 T -> Sim.hermitian T ->
  exists d0 d1 d2 d3 x01 y01 x02 y02 x03 y03 x12 y12 x13 y13 x23 y23,
    T = herm4 d0 d1 d2 d3 x01 y01 x02 y02 x03 y03 x12 y12 x13 y13 x23 y23.
Proof.
  intros Hsq Hh. name_entries (square4_inv T Hsq).
  exists a00, a11, a22, a33, a01, b01, a02, b02, a03, b03, a12, b12, a13, b13, a23, b23.
  unfold Sim.hermitian in Hh. revert Hh. eval_matrix. intros Hh. split_entries Hh.
  unfold herm4. entrywise; lra.
Qed.

(** The trace of [S bell S] is that of [bell (S S)]. *)
Lemma trace_S_bell_S p (S : matrix C) :
  Sim.square_matrix 4 S -> mmul S S = rho4 p ->
  Re (trace (mmul S (mmul bell S))) = 1 - 2 * p + 2 * p ^ 2.
Proof.
  intros Hsq HSS. name_entries (square4_inv S Hsq).
  revert HSS. eval_matrix. intros HSS. split_entries HSS. lra.
Qed.

Lemma rank_one_minors (S : matrix C) i j :
  Sim.square_matrix 4 S -> In (i, j) index_pairs ->
  minor2 (mmul S (mmul bell S)) i j = (0, 0).
Proof.
  intros Hsq Hin. name_entries (square4_inv S Hsq).
  each_pair Hin; eval_matrix; f_equal; field.
Qed.

Lemma nrm2_nonneg z : 0 <= nrm2 z.
Proof. unfold nrm2. nra. Qed.

Lemma nrm2_zero z : nrm2 z = 0 -> fst z = 0.
Proof. unfold nrm2. nra. Qed.

(** Cauchy-Binet, for a Hermitian matrix: a principal minor of [T T] is
    the sum of the squared moduli of the minors of [T] on the same rows. *)
Lemma cauchy_binet d0 d1 d2 d3 x01 y01 x02 y02 x03 y03 x12 y12 x13 y13 x23 y23 i j :
  let T := herm4 d0 d1 d2 d3 x01 y01 x02 y02 x03 y03 x12 y12 x13 y13 x23 y23 in
  In (i, j) index_pairs -> Re (minor2 (mmul T T) i j) = minors_sq T i j.
Proof.
  intros T Hin. unfold T. each_pair Hin; eval_matrix; ring.
Qed.

(** [(Tr T)^2 - Tr (T T)] is twice the sum of the principal 2 x 2 minors. *)
Lemma trace_square d0 d1 d2 d3 x01 y01 x02 y02 x03 y03 x12 y12 x13 y13 x23 y23 :
  let T := herm4 d0 d1 d2 d3 x01 y01 x02 y02 x03 y03 x12 y12 x13 y13 x23 y23 in
  Re (trace T) ^ 2 - Re (trace (mmul T T))
  = 2 * fold_right Rplus 0
          (map (fun ij => Re (minor2 T (fst ij) (snd ij))) index_pairs).
Proof. eval_matrix. ring. Qed.

Lemma minor_term (T : matrix C) i j :
  In (i, j) index_pairs -> minors_sq T i j = 0 -> Re (minor2 T i j) = 0.
Proof.
  intros Hin Hz. unfold minors_sq, index_pairs in Hz. cbn [map fold_right fst snd] in Hz.
  repeat match type of Hz with
         | context [nrm2 ?z] =>
             pose proof (nrm2_nonneg z); let n := fresh "n" in
             remember (nrm2 z) as n eqn:Heqn; apply eq_sym in Heqn; revert Heqn
         end.
  intros. unfold minor2, Re.
  each_pair Hin; apply nrm2_zero; lra.
Qed.

(** A Hermitian square root of [S bell S]: its trace, squared, is the
    trace of [S bell S]. *)
Lemma root_of_rank_one (S T : matrix C) :
  Sim.square_matrix 4 S -> Sim.square_matrix 4 T -> Sim.hermitian T ->
  mmul T T = mmul S (mmul bell S) ->
  Re (trace T) ^ 2 = Re (trace (mmul S (mmul bell S))).
Proof.
  intros HS HT Hh HTT.
  destruct (hermitian4_inv T HT Hh)
    as (d0 & d1 & d2 & d3 & x01 & y01 & x02 & y02 & x03 & y03 & x12 & y12 & x13 & y13
        & x23 & y23 & ->).
  pose proof (trace_square d0 d1 d2 d3 x01 y01 x02 y02 x03 y03 x12 y12 x13 y13 x23 y23) as Htr.
  pose proof (cauchy_binet d0 d1 d2 d3 x01 y01 x02 y02 x03 y03 x12 y12 x13 y13 x23 y23) as Hcb.
  cbv zeta in Htr, Hcb.
  set (T := herm4 _ _ _ _ _ _ _ _ _ _ _ _ _ _ _ _) in *.
  assert (Hq : forall i j, In (i, j) index_pairs -> Re (minor2 T i j) = 0).
  { intros i j Hin. apply minor_term; [assumption|].
    rewrite <- Hcb by assumption.
    rewrite HTT, rank_one_minors by assumption. reflexivity. }
  unfold index_pairs in Htr. cbn [map fold_right fst snd] in Htr.
  rewrite !Hq in Htr by (unfold index_pairs; simpl; auto 10).
  rewrite <- HTT. lra.
Qed.

(** The fidelity of [rho4 p] and the Bell state can only be
    [1 - 2p + 2p^2]. *)
Lemma uhlmann_bell_unique p F : Sim.uhlmann (rho4 p) bell F -> F = 1 - 2 * p + 2 * p ^ 2.
Proof.
  intros (S & T & (HsqS & _ & _ & HSS) & (HsqT & HhT & _ & HTT) & ->).
  change (rows (rho4 p)) with 4%nat in HsqS.
  assert (Hrows : rows (mmul S (mmul bell S)) = 4%nat).
  { destruct HsqS as [Hlen _]. unfold mmul, rows, mk_matrix.
    rewrite length_map, length_seq. exact Hlen. }
  rewrite Hrows in HsqT.
  rewrite (root_of_rank_one S T HsqS HsqT HhT HTT).
  now apply trace_S_bell_S.
Qed.

(** The square roots exist: those of the mixtures of the two Bell
    projectors are mixtures again. *)
Lemma bell_mix_square u v : Sim.square_matrix 4 (bell_mix u v).
Proof. split; [reflexivity|]. repeat constructor. Qed.

Lemma bell_mix_hermitian u v : Sim.hermitian (bell_mix u v).
Proof. unfold Sim.hermitian. eval_matrix. entrywise; lra. Qed.

Lemma bell_mix_positive u v :
  0 <= u -> 0 <= v -> Sim.positive_semidefinite (bell_mix u v).
Proof.
  intros Hu Hv w Hw. change (rows (bell_mix u v)) with 4%nat in Hw.
  destruct w as [|[x0 y0] [|[x1 y1] [|[x2 y2] [|[x3 y3] [|? ?]]]]]; try discriminate Hw.
  cbv -[Rle Rplus Rmult Ropp Rminus Rinv Rdiv IZR R_sqrt.sqrt].
  match goal with
  | |- 0 <= ?e =>
      replace e with (u * ((x0 + x3) * (x0 + x3) + (y0 + y3) * (y0 + y3))
                      + v * ((x1 + x2) * (x1 + x2) + (y1 + y2) * (y1 + y2))) by ring
  end.
  pose proof (Rle_0_sqr (x0 + x3)). pose proof (Rle_0_sqr (y0 + y3)).
  pose proof (Rle_0_sqr (x1 + x2)). pose proof (Rle_0_sqr (y1 + y2)).
  unfold Rsqr in *. nra.
Qed.

Lemma bell_mix_mmul u v :
  mmul (bell_mix u v) (bell_mix u v) = bell_mix (2 * (u * u)) (2 * (v * v)).
Proof. eval_matrix. entrywise; ring. Qed.

Lemma bell_mix_sandwich u v :
  mmul (bell_mix u v) (mmul bell (bell_mix u v)) = bell_mix (2 * (u * u)) 0.
Proof. eval_matrix. entrywise; field. Qed.

Lemma bell_mix_trace u v : Re (trace (bell_mix u v)) = 2 * u + 2 * v.
Proof. eval_matrix. ring. Qed.

Lemma sqrt_bell_mix a b :
  0 <= a -> 0 <= b ->
  Sim.sqrt_matrix (bell_mix a b) (bell_mix (R_sqrt.sqrt (a / 2)) (R_sqrt.sqrt (b / 2))).
Proof.
  intros Ha Hb. split; [apply bell_mix_square|].
  split; [apply bell_mix_hermitian|].
  split; [apply bell_mix_positive; apply sqrt_pos|].
  rewrite bell_mix_mmul, !sqrt_sqrt by lra. f_equal; field.
Qed.

Lemma uhlmann_bell_exists p :
  0 <= p <= 1 -> Sim.uhlmann (rho4 p) bell (1 - 2 * p + 2 * p ^ 2).
Proof.
  intros Hp.
  change (rho4 p) with (bell_mix (((1 - p) * (1 - p) + p * p) / 2) (p * (1 - p))).
  set (a := ((1 - p) * (1 - p) + p * p) / 2). set (b := p * (1 - p)).
  assert (Ha : 0 <= a) by (unfold a; nra).
  assert (Hb : 0 <= b) by (unfold b; nra).
  exists (bell_mix (R_sqrt.sqrt (a / 2)) (R_sqrt.sqrt (b / 2))),
         (bell_mix (R_sqrt.sqrt (a / 2)) 0).
  split; [now apply sqrt_bell_mix|]. split.
  - rewrite bell_mix_sandwich, sqrt_sqrt by lra.
    replace (2 * (a / 2)) with a by field.
    replace (bell_mix (R_sqrt.sqrt (a / 2)) 0)
      with (bell_mix (R_sqrt.sqrt (a / 2)) (R_sqrt.sqrt (0 / 2))).
    + apply sqrt_bell_mix; lra.
    + replace (0 / 2) with 0 by field. now rewrite sqrt_0.
  - rewrite bell_mix_trace.
    replace ((2 * R_sqrt.sqrt (a / 2) + 2 * 0) ^ 2)
      with (4 * (R_sqrt.sqrt (a / 2) * R_sqrt.sqrt (a / 2))) by ring.
    rewrite sqrt_sqrt by lra. unfold a. field.
Qed.

Lemma fidelity_rho4 p :
  0 <= p <= 1 -> Sim.fidelity (rho4 p) bell = 1 - 2 * p + 2 * p ^ 2.
Proof.
  intros Hp. apply uhlmann_bell_unique. unfold Sim.fidelity.
  apply epsilon_spec. eexists. now apply uhlmann_bell_exists.
Qed.

Lemma fidelity_closed_form p :
  0 <= p <= 1 ->
  Sim.fidelity (BitflipFidelity.bitflip_circuit (matrix C) Ideal.mixed_state p)
               (BitflipFidelity.circuit (matrix C) Ideal.mixed_state)
  = 1 - 2 * p + 2 * p ^ 2.
Proof.
  intros Hp. rewrite bitflip_circuit_state, circuit_is_bell by assumption.
  now apply fidelity_rho4.
Qed.

End BitflipStages.

(* ------------------------------------------------------------------ *)
(** * The parameter-shift circuit on the pure-state device              *)
(* ------------------------------------------------------------------ *)

Section ShiftStages.
Local Open Scope R_scope.

Lemma stage_H0 :
  mmul (expand 3 [0%nat] (Sim.gate_matrix (Hadamard 0))) (ket0 3)
  = psi1 (/ R_sqrt.sqrt 2).
Proof. eval_matrix. entrywise; ring. Qed.

Lemma stage_H1 :
  mmul (expand 3 [1%nat] (Sim.gate_matrix (Hadamard 1))) (psi1 (/ R_sqrt.sqrt 2))
  = psi2 (/ R_sqrt.sqrt 2).
Proof. eval_matrix. entrywise; ring. Qed.

Lemma stage_H2 :
  mmul (expand 3 [2%nat] (Sim.gate_matrix (Hadamard 2))) (psi2 (/ R_sqrt.sqrt 2))
  = psi3 (/ R_sqrt.sqrt 2).
Proof. eval_matrix. entrywise; ring. Qed.

Lemma stage_CRX a t :
  mmul (expand 3 [1%nat; 2%nat] (Sim.gate_matrix (CRX t 1 2))) (psi3 a)
  = psi4 a (cos (t / 2)) (sin (t / 2)).
Proof. eval_matrix. entrywise; ring. Qed.

Lemma stage_CRY a c0 s0 t :
  mmul (expand 3 [0%nat; 1%nat] (Sim.gate_matrix (CRY t 0 1))) (psi4 a c0 s0)
  = psi5 a c0 s0 (cos (t / 2)) (sin (t / 2)).
Proof. eval_matrix. entrywise; ring. Qed.

Lemma stage_CRZ a c0 s0 c1 s1 t :
  mmul (expand 3 [2%nat; 0%nat] (Sim.gate_matrix (CRZ t 2 0))) (psi5 a c0 s0 c1 s1)
  = psi6 a c0 s0 c1 s1 (cos (t / 2)) (sin (t / 2)).
Proof.
  unfold Sim.gate_matrix. replace (- t / 2) with (- (t / 2)) by lra.
  unfold Cexp. rewrite cos_neg, sin_neg.
  eval_matrix. entrywise; ring.
Qed.

Lemma expval_psi6 a c0 s0 c1 s1 c2 s2 :
  a * a = 1 / 2 -> c0 * c0 + s0 * s0 = 1 -> c1 * c1 + s1 * s1 = 1 -> c2 * c2 + s2 * s2 = 1 ->
  Sim.expval 3 [PauliZ 0; PauliZ 1; PauliX 2] (psi6 a c0 s0 c1 s1 c2 s2)
  = c2 - 2 * s1 * c1 * c0 / 2.
Proof.
  intros Ha H0 H1 H2. eval_matrix. ring_simplify.
  assert (Ha6 : a ^ 6 = 1 / 8)
    by (replace (a ^ 6) with ((a * a) * (a * a) * (a * a)) by ring; rewrite Ha; lra).
  assert (Hs0 : s0 ^ 2 = 1 - c0 ^ 2) by (rewrite <- H0; ring).
  assert (Hs1 : s1 ^ 2 = 1 - c1 ^ 2) by (rewrite <- H1; ring).
  assert (Hs2 : s2 ^ 2 = 1 - c2 ^ 2) by (rewrite <- H2; ring).
  rewrite ?Ha6, ?Hs0, ?Hs1, ?Hs2. field.
Qed.

(** The expectation value the device returns, in closed form. *)
Lemma ideal_circuit_closed t0 t1 t2 :
  circuit_value Ideal.qubit_expval [t0; t1; t2] = f_closed t0 t1 t2.
Proof.
  unfold circuit_value, Ideal.qubit_expval, Sim.state_vector, Sim.gates_of, chain.
  cbn [map seq app fold_left fst snd wires lookup_total list_lookup_total].
  rewrite stage_H0, stage_H1, stage_H2, stage_CRX, stage_CRY, stage_CRZ.
  rewrite expval_psi6 by (auto using inv_sqrt2_sq, cos2_sin2).
  unfold f_closed. replace t1 with (2 * (t1 / 2)) at 3 by lra. rewrite sin_2a. lra.
Qed.

(** ** The four-term rule on trigonometric sums *)

Lemma dlim_ext (f g : R -> R) x l :
  (forall v, f v = g v) -> derivable_pt_lim f x l -> derivable_pt_lim g x l.
Proof.
  intros Hfg Hf eps Heps. destruct (Hf eps Heps) as [delta Hd].
  exists delta. intros h Hh Hlt. rewrite <- !Hfg. now apply Hd.
Qed.

Lemma dlim_half x : derivable_pt_lim (fun v => v / 2) x (1 / 2).
Proof.
  apply (dlim_ext (mult_real_fct (1 / 2) id)).
  - intros v. unfold mult_real_fct, id. lra.
  - replace (1 / 2) with (1 / 2 * 1) at 2 by lra.
    apply derivable_pt_lim_scal, derivable_pt_lim_id.
Qed.

Lemma dlim_cos_half x :
  derivable_pt_lim (fun v => cos (v / 2)) x (- sin (x / 2) * (1 / 2)).
Proof.
  apply (derivable_pt_lim_comp (fun v => v / 2) cos);
    [apply dlim_half | apply derivable_pt_lim_cos].
Qed.

Lemma dlim_sin_half x :
  derivable_pt_lim (fun v => sin (v / 2)) x (cos (x / 2) * (1 / 2)).
Proof.
  apply (derivable_pt_lim_comp (fun v => v / 2) sin);
    [apply dlim_half | apply derivable_pt_lim_sin].
Qed.

Lemma trig_derivative A B C_ D E x :
  derivable_pt_lim (trig A B C_ D E) x (trig' A B C_ D E x).
Proof.
  apply (dlim_ext (fct_cte A + mult_real_fct B (fun v => cos (v / 2))
                   + mult_real_fct C_ (fun v => sin (v / 2))
                   + mult_real_fct D cos + mult_real_fct E sin)%F).
  - intros v. unfold trig, plus_fct, mult_real_fct, fct_cte. ring.
  - replace (trig' A B C_ D E x)
      with (0 + B * (- sin (x / 2) * (1 / 2)) + C_ * (cos (x / 2) * (1 / 2))
            + D * (- sin x) + E * cos x) by (unfold trig'; lra).
    repeat apply derivable_pt_lim_plus;
      [apply derivable_pt_lim_const | | | | ];
      apply derivable_pt_lim_scal;
      auto using dlim_cos_half, dlim_sin_half, derivable_pt_lim_cos, derivable_pt_lim_sin.
Qed.

Lemma four_term_trig A B C_ D E x :
  four_term (trig A B C_ D E) x = trig' A B C_ D E x.
Proof.
  unfold four_term, trig, trig'.
  replace ((x + PI / 2) / 2) with (x / 2 + PI / 4) by lra.
  replace ((x - PI / 2) / 2) with (x / 2 - PI / 4) by lra.
  replace ((x + 3 * PI / 2) / 2) with (x / 2 + 3 * (PI / 4)) by lra.
  replace ((x - 3 * PI / 2) / 2) with (x / 2 - 3 * (PI / 4)) by lra.
  replace (3 * PI / 2) with (3 * (PI / 2)) by lra.
  rewrite !cos_plus, !cos_minus, !sin_plus, !sin_minus.
  rewrite cos_PI4, sin_PI4, cos_3PI4, sin_3PI4, cos_PI2, sin_PI2, cos_3PI2, sin_3PI2.
  pose proof sqrt2_sq as Hs. pose proof sqrt2_pos as Hp.
  set (r2 := R_sqrt.sqrt 2) in *.
  set (c := cos (x / 2)). set (s := sin (x / 2)). set (cx := cos x). set (sx := sin x).
  field_simplify_eq; [|lra].
  replace (r2 ^ 2) with 2 by (rewrite <- Hs; ring). ring.
Qed.

Lemma four_term_ext (f g : R -> R) x :
  (forall v, f v = g v) -> four_term f x = four_term g x.
Proof. intros Hfg. unfold four_term. now rewrite !Hfg. Qed.

(** On a sum of the frequencies 0, 1/2 and 1 the rule is the derivative. *)
Lemma four_term_is_derivative (f : R -> R) A B C_ D E x :
  (forall v, f v = trig A B C_ D E v) -> derivable_pt_lim f x (four_term f x).
Proof.
  intros Hf. rewrite (four_term_ext f _ x Hf), four_term_trig.
  apply (dlim_ext (trig A B C_ D E)); [intros v; now rewrite Hf | apply trig_derivative].
Qed.

Lemma closed_as_trig_0 t1 t2 v :
  f_closed v t1 t2 = trig (cos (t2 / 2)) (- sin t1 / 2) 0 0 0 v.
Proof. unfold f_closed, trig. lra. Qed.

Lemma closed_as_trig_1 t0 t2 v :
  f_closed t0 v t2 = trig (cos (t2 / 2)) 0 0 0 (- cos (t0 / 2) / 2) v.
Proof. unfold f_closed, trig. lra. Qed.

Lemma closed_as_trig_2 t0 t1 v :
  f_closed t0 t1 v = trig (- sin t1 * cos (t0 / 2) / 2) 1 0 0 0 v.
Proof. unfold f_closed, trig. lra. Qed.

(** What the loop computes is the rule as it is usually written. *)
Lemma shift_rule_four_term ps i :
  shift_rule Ideal.qubit_expval (fst ParameterShift.shifts_and_coeffs)
             (snd ParameterShift.shifts_and_coeffs) ps i
  = four_term (fun v => circuit_value Ideal.qubit_expval (<[i := v]> ps)) (ps !!! i).
Proof.
  unfold shift_rule, four_term, ParameterShift.shifts_and_coeffs. simpl.
  set (F := fun v => circuit_value Ideal.qubit_expval (<[i := v]> ps)).
  change (circuit_value Ideal.qubit_expval (<[i := ?v]> ps)) with (F v).
  replace (ps !!! i + PI / 2 - 2 * (PI / 2)) with (ps !!! i - PI / 2) by lra.
  replace (ps !!! i + PI * 3 / 2 - 2 * (PI * 3 / 2)) with (ps !!! i - 3 * PI / 2) by lra.
  replace (PI * 3 / 2) with (3 * PI / 2) by lra.
  ring.
Qed.

End ShiftStages.

(* ------------------------------------------------------------------ *)
(** * Quadratic fits through three points                               *)
(* ------------------------------------------------------------------ *)

Section PolyfitLemmas.
Local Open Scope R_scope.

Lemma normal_det x1 x2 x3 :
  NumPy.det 3 (let V := NumPy.vander [x1; x2; x3] 3 in
               mmul (mk_matrix 3 3 (fun i j => entry V j i)) V)
  = vdm x1 x2 x3 * vdm x1 x2 x3.
Proof. eval_matrix. unfold vdm. ring. Qed.

Lemma vdm_nonzero x1 x2 x3 :
  x1 <> x2 -> x1 <> x3 -> x2 <> x3 -> vdm x1 x2 x3 * vdm x1 x2 x3 <> 0.
Proof.
  intros H12 H13 H23. unfold vdm.
  repeat apply Rmult_integral_contrapositive_currified; lra.
Qed.

(** With three distinct abscissas the least-squares quadratic is the
    interpolating one; its constant coefficient is its value at 0. *)
Lemma polyfit_three x1 x2 x3 y1 y2 y3 :
  x1 <> x2 -> x1 <> x3 -> x2 <> x3 ->
  exists a b,
    NumPy.polyfit [x1; x2; x3] [y1; y2; y3] 2 = Ret [a; b; lagrange x1 x2 x3 y1 y2 y3 0]
    /\ forall x, a * x ^ 2 + b * x + lagrange x1 x2 x3 y1 y2 y3 0
                 = lagrange x1 x2 x3 y1 y2 y3 x.
Proof.
  intros H12 H13 H23.
  pose proof (vdm_nonzero x1 x2 x3 H12 H13 H23) as Hv.
  rewrite <- normal_det in Hv.
  unfold NumPy.polyfit. cbn [length Nat.eqb negb seq map].
  set (d := NumPy.det 3 _) in *.
  exists (y1 / ((x1 - x2) * (x1 - x3)) + y2 / ((x2 - x1) * (x2 - x3))
          + y3 / ((x3 - x1) * (x3 - x2))),
         (- (y1 * (x2 + x3) / ((x1 - x2) * (x1 - x3))
             + y2 * (x1 + x3) / ((x2 - x1) * (x2 - x3))
             + y3 * (x1 + x2) / ((x3 - x1) * (x3 - x2)))).
  split.
  - repeat f_equal;
      (apply Rmult_eq_reg_r with d; [|exact Hv]);
      unfold Rdiv at 1; rewrite Rmult_assoc, Rinv_l, Rmult_1_r by exact Hv;
      subst d; eval_matrix; unfold lagrange; field; lra.
  - intros x. unfold lagrange. field. lra.
Qed.

Lemma lagrange_interpolates x1 x2 x3 y1 y2 y3 :
  x1 <> x2 -> x1 <> x3 -> x2 <> x3 ->
  lagrange x1 x2 x3 y1 y2 y3 x1 = y1
  /\ lagrange x1 x2 x3 y1 y2 y3 x2 = y2
  /\ lagrange x1 x2 x3 y1 y2 y3 x3 = y3.
Proof. intros H12 H13 H23. unfold lagrange. repeat split; field; lra. Qed.

Lemma quadratic_unique x1 x2 x3 y1 y2 y3 a b c :
  x1 <> x2 -> x1 <> x3 -> x2 <> x3 ->
  a * x1 ^ 2 + b * x1 + c = y1 ->
  a * x2 ^ 2 + b * x2 + c = y2 ->
  a * x3 ^ 2 + b * x3 + c = y3 ->
  c = lagrange x1 x2 x3 y1 y2 y3 0.
Proof.
  intros H12 H13 H23 <- <- <-. unfold lagrange. field. lra.
Qed.

End PolyfitLemmas.

(* ------------------------------------------------------------------ *)
(** * Rounding on the reals                                             *)
(* ------------------------------------------------------------------ *)

Section Rounding.
Local Open Scope R_scope.

Lemma rint_near x : Rabs (IZR (Real.rint x) - x) <= 1 / 2.
Proof.
  unfold Real.rint. destruct (base_Int_part x) as [Hlo Hhi].
  set (n := Int_part x) in *.
  destruct (Rlt_dec (x - IZR n) (1 / 2)) as [Hlt|Hge].
  - apply Rabs_le. lra.
  - destruct (Rlt_dec (1 / 2) (x - IZR n)) as [Hgt|Hle].
    + rewrite plus_IZR. apply Rabs_le. lra.
    + destruct (Z.even n); [|rewrite plus_IZR]; apply Rabs_le; lra.
Qed.

(** [around d x] is a multiple of 10^-d within half a unit of [x]. *)
Lemma around_near d x :
  (exists n : Z, Real.around d x = IZR n / 10 ^ d)
  /\ Rabs (Real.around d x - x) <= 1 / 2 / 10 ^ d.
Proof.
  assert (Hpos : 0 < 10 ^ d) by (apply pow_lt; lra).
  split; [eexists; reflexivity|].
  unfold Real.around.
  replace (IZR (Real.rint (x * 10 ^ d)) / 10 ^ d - x)
    with ((IZR (Real.rint (x * 10 ^ d)) - x * 10 ^ d) / 10 ^ d) by (field; lra).
  unfold Rdiv at 1. rewrite Rabs_mult, (Rabs_right (/ 10 ^ d)).
  - apply Rmult_le_compat_r; [|apply rint_near].
    apply Rlt_le, Rinv_0_lt_compat, Hpos.
  - apply Rle_ge, Rlt_le, Rinv_0_lt_compat, Hpos.
Qed.

End Rounding.

(* ------------------------------------------------------------------ *)
(** * The statements of the specification                               *)
(* ------------------------------------------------------------------ *)

(** C1, as stated, fails: in the H/T/CNOT notebook an output whose matrix
    is exactly the SWAP matrix, hence numerically close to the expected
    value, is rejected with an AssertionError because its tape has no T
    gate.  Numeric closeness is not the only condition checked. *)
Lemma numerically_close_yet_rejected :
  NumPy.allclose2 1e-5 1e-8 (matrix_field swap_without_T) UniversalityHT.SWAP = Ret true
  /\ UniversalityHT.check (fun _ => Ret swap_without_T) "user output" "No output"
     = Raise (AssertionError EmptyString).
Proof. split; vm_compute; reflexivity. Qed.

(** C1, amended: [check] returns without raising exactly when its
    arguments parse and [np.allclose] holds of them, with [rtol] 1e-4
    (parameter shift, bit flip), 1e-2 (ZNE) or the default 1e-5 (the two
    universality notebooks) and the default absolute tolerance 1e-8; the
    universality notebooks also require the set of gate names to be exactly
    {Hadamard, CNOT, T}, respectively {U3, CNOT}, and compare with a matrix
    fixed in [check], whatever [expected_output] is.  [np.allclose] holds
    when the arrays broadcast and every pair passes [np.isclose]. *)
Theorem check_accepts_iff :
  (forall jl s e,
      is_ret (ParameterShift.check jl s e) = true <->
      exists sol ex, jl s = Ret sol /\ jl e = Ret ex
                     /\ NumPy.allclose 1e-4 1e-8 sol ex = Ret true)
  /\ (forall jl s e,
      is_ret (BitflipFidelity.check jl s e) = true <->
      exists sol ex, jl s = Ret sol /\ jl e = Ret ex
                     /\ NumPy.allclose 1e-4 1e-8 sol ex = Ret true)
  /\ (forall jl s e,
      is_ret (ZNE.check jl s e) = true <->
      exists sol ex, jl s = Ret sol /\ jl e = Ret ex
                     /\ NumPy.allclose 1e-2 1e-8 sol ex = Ret true)
  /\ (forall jl s e,
      is_ret (UniversalityHT.check jl s e) = true <->
      exists out, jl s = Ret out
        /\ NumPy.rectangular (matrix_field out) = true
        /\ NumPy.allclose2 1e-5 1e-8 (matrix_field out) UniversalityHT.SWAP = Ret true
        /\ distinct_count (gates_field out) = 3%nat
        /\ contains (gates_field out) "Hadamard" = true
        /\ contains (gates_field out) "CNOT" = true
        /\ contains (gates_field out) "T" = true)
  /\ (forall jl s e,
      is_ret (UniversalityU3.check jl s e) = true <->
      exists out, jl s = Ret out
        /\ NumPy.rectangular (matrix_field out) = true
        /\ NumPy.allclose2 1e-5 1e-8 (matrix_field out) UniversalityU3.solution = Ret true
        /\ distinct_count (gates_field out) = 2%nat
        /\ contains (gates_field out) "U3" = true
        /\ contains (gates_field out) "CNOT" = true)
  /\ (forall rtol atol a b,
      NumPy.allclose rtol atol a b = Ret true <->
      exists ps, NumPy.broadcast a b = Ret ps
                 /\ Forall (fun p => NumPy.isclose rtol atol (fst p) (snd p) = true) ps).
Proof.
  repeat split.
  1,2: apply (allclose_check_accepts ParameterShift.check _ _ (fun _ _ _ => eq_refl)).
  1,2: apply (allclose_check_accepts BitflipFidelity.check _ _ (fun _ _ _ => eq_refl)).
  1,2: apply (allclose_check_accepts ZNE.check _ _ (fun _ _ _ => eq_refl)).
  1,2: apply ht_check_accepts.
  1,2: apply u3_check_accepts.
  1,2: apply allclose_true.
Qed.

(** C2, as stated, fails in the arithmetic the code runs in.  In binary64,
    on [0.0, 0.0, 1e17], the shifts pi/2 and 3pi/2 are below half the
    spacing of the floats at 1e17: the four values at which the circuit is
    evaluated for the third entry are 1e17, 1e17, 1e17 and 1e17 - 16, and
    the entry returned is, on every device, the combination of the values
    of the circuit at these.  (The points theta +- s1 and theta +- s2 of
    the rule are all 1e17 itself.) *)
Lemma shifts_absorbed_binary64 :
  evaluation_points (fst ParameterShift.shifts_and_coeffs) 1e17%float
  = [1e17; 1e17; 1e17; 99999999999999984]%float
  /\ map (fun s => (1e17 + s, 1e17 - s)%float) (fst ParameterShift.shifts_and_coeffs)
     = [(1e17, 1e17); (1e17, 1e17)]%float
  /\ forall execute : list (op float) -> list pauli -> float,
       let f x := circuit_value execute [0; 0; x]%float in
       let c1 := snd ParameterShift.shifts_and_coeffs !!! 0%nat in
       let c2 := snd ParameterShift.shifts_and_coeffs !!! 1%nat in
       exists g0 g1,
         fst (ParameterShift.my_parameter_shift_grad execute 1%positive
                (<[1%positive := [0; 0; 1e17]%float]> ∅))
         = Ret [g0; g1;
                around 5 ((f 1e17 - f 1e17) * c1
                          - (f 1e17 - f 99999999999999984) * c2)%float].
Proof.
  split; [vm_compute; reflexivity|]. split; [vm_compute; reflexivity|].
  intros execute. cbv zeta. eexists _, _. vm_compute. reflexivity.
Qed.

(** C2, amended: in exact arithmetic (the reals), with the ideal simulator
    as device, on every list of three real parameters the routine returns,
    rounded to 5 decimals, the partial derivatives of the circuit's
    expectation value: each entry is the four-term combination with shifts
    pi/2 and 3pi/2 and coefficients (sqrt 2 + 1)/(4 sqrt 2) and
    (sqrt 2 - 1)/(4 sqrt 2), and that combination is the derivative in the
    corresponding angle. *)
Theorem parameter_shift_gradient (t0 t1 t2 : R) (l : loc) (h : heap R) :
  let params := [t0; t1; t2] in
  exists g0 g1 g2 : R,
    partial_derivative params 0 g0
    /\ partial_derivative params 1 g1
    /\ partial_derivative params 2 g2
    /\ ParameterShift.my_parameter_shift_grad Ideal.qubit_expval l (<[l := params]> h)
       = (Ret [around 5 g0; around 5 g1; around 5 g2], <[l := params]> h).
Proof.
  intros params.
  assert (Hpd : forall i A B C_ D E,
             (i < 3)%nat ->
             (forall v, circuit_value Ideal.qubit_expval (<[i := v]> params)
                        = trig A B C_ D E v) ->
             partial_derivative params i
               (four_term (fun v => circuit_value Ideal.qubit_expval (<[i := v]> params))
                          (params !!! i))).
  { intros i A B C_ D E Hi Htrig.
    exists (fun v => circuit_value Ideal.qubit_expval (<[i := v]> params)).
    split; [|split; [|reflexivity]].
    - intros v. apply circuit_ret. now rewrite length_insert.
    - now apply (four_term_is_derivative _ A B C_ D E). }
  eexists _, _, _. split; [|split; [|split]]; cycle 3.
  - rewrite (my_parameter_shift_grad_exact Ideal.qubit_expval l _ params R_cancelling)
      by (rewrite ?lookup_insert_eq; simpl; auto).
    unfold params. cbn [length seq map]. rewrite !shift_rule_four_term. reflexivity.
  - eapply (Hpd 0%nat); [lia|]. intros v.
    change (<[0%nat := v]> params) with [v; t1; t2].
    rewrite ideal_circuit_closed. apply closed_as_trig_0.
  - eapply (Hpd 1%nat); [lia|]. intros v.
    change (<[1%nat := v]> params) with [t0; v; t2].
    rewrite ideal_circuit_closed. apply closed_as_trig_1.
  - eapply (Hpd 2%nat); [lia|]. intros v.
    change (<[2%nat := v]> params) with [t0; t1; v].
    rewrite ideal_circuit_closed. apply closed_as_trig_2.
Qed.




(** C4: the tape of [U()] holds the names Hadamard, T and CNOT only, each
    of them at least once (three distinct names); and the matrix of the
    circuit CNOT[0,1]; H x H; U; CNOT[1,0]; U; H x H has real part equal
    to the SWAP matrix, hence within any tolerance of it, and [check]
    accepts the output that [run] builds from it. *)
Theorem ht_universality :
  let names := map name (UniversalityHT.U (num := R)) in
  Forall (fun n => n = "Hadamard" \/ n = "T" \/ n = "CNOT")%string names
  /\ In "Hadamard"%string names /\ In "T"%string names /\ In "CNOT"%string names
  /\ distinct_count names = 3%nat
  /\ Ideal.matrix_real 2 UniversalityHT.circuit = SWAP_R
  /\ NumPy.Rallclose2 (1 / 10 ^ 5) (1 / 10 ^ 8)
       (Ideal.matrix_real 2 UniversalityHT.circuit) SWAP_R
  /\ forall s e,
       UniversalityHT.check
         (fun _ => Ret (Output UniversalityHT.SWAP (map name (UniversalityHT.U (num := float)))))
         s e = Ret PyNone.
Proof.
  cbv zeta. split; [|split; [|split; [|split; [|split; [|split; [|split]]]]]].
  - vm_compute. repeat (apply List.Forall_cons; [auto|]). apply List.Forall_nil.
  - vm_compute. auto.
  - vm_compute. auto 10.
  - vm_compute. auto.
  - vm_compute. reflexivity.
  - apply ht_circuit_matrix.
  - rewrite ht_circuit_matrix. apply Rallclose2_refl.
    + apply Rlt_le, Rdiv_lt_0_compat; [lra | apply pow_lt; lra].
    + apply Rlt_le, Rdiv_lt_0_compat; [lra | apply pow_lt; lra].
  - intros s e. vm_compute. reflexivity.
Qed.

(** C5: the tape of [circuit()] holds the names U3 and CNOT only, each at
    least once (two distinct names); and the matrix of the circuit on wires
    [0,1,2] has real part equal to 1/sqrt 2 times the 8 x 8 matrix of the
    statement, hence within any tolerance of it. *)
Theorem u3_universality :
  let names := map name (UniversalityU3.circuit (num := R)) in
  Forall (fun n => n = "U3" \/ n = "CNOT")%string names
  /\ In "U3"%string names /\ In "CNOT"%string names
  /\ distinct_count names = 2%nat
  /\ Ideal.matrix_real 3 UniversalityU3.circuit = solution_R
  /\ NumPy.Rallclose2 (1 / 10 ^ 5) (1 / 10 ^ 8)
       (Ideal.matrix_real 3 UniversalityU3.circuit) solution_R.
Proof.
  cbv zeta. split; [|split; [|split; [|split; [|split]]]].
  - cbn [map UniversalityU3.circuit name]. repeat (apply List.Forall_cons; [auto|]). apply List.Forall_nil.
  - cbn [map UniversalityU3.circuit name]. simpl. auto.
  - cbn [map UniversalityU3.circuit name]. simpl. auto 10.
  - cbn [map UniversalityU3.circuit name]. vm_compute. reflexivity.
  - apply u3_circuit_matrix.
  - rewrite u3_circuit_matrix. apply Rallclose2_refl.
    + apply Rlt_le, Rdiv_lt_0_compat; [lra | apply pow_lt; lra].
    + apply Rlt_le, Rdiv_lt_0_compat; [lra | apply pow_lt; lra].
Qed.

Section Extrapolation.
Variables hamiltonian device qnode : Type.
Variable molecular_hamiltonian : list string -> list R -> hamiltonian * nat.
Variable default_mixed : nat -> device.
Variable insert_depolarizing : R -> device -> device.
Variable QNode : (R -> list (ZNE.ansatz_op R) * hamiltonian) -> device -> qnode.
Variable fold_global : qnode -> R -> qnode.
Variable call : qnode -> R -> R.
Variable optimizer_step : R -> qnode -> R -> R.

Let ideal := ideal_qnode hamiltonian device qnode molecular_hamiltonian default_mixed QNode.
Let energy := mitigated_energy hamiltonian device qnode molecular_hamiltonian default_mixed
                insert_depolarizing QNode fold_global call optimizer_step.

(** The loop of [VQE] makes the 20 steps of [descend]. *)
Lemma VQE_descend (qn : qnode) :
  ZNE.VQE qnode call optimizer_step qn = vqe_energy qnode call optimizer_step qn.
Proof.
  assert (Hsteps : forall n param,
             Nat.iter n (fun param => optimizer_step (of_Z 4 / of_Z 10)%num qn param) param
             = descend qnode optimizer_step qn n param).
  { induction n as [|n IH]; intros param; [reflexivity|].
    cbn [descend]. rewrite <- IH. apply Nat.iter_succ_r. }
  unfold ZNE.VQE, vqe_energy. cbv zeta. now rewrite Hsteps.
Qed.

(** What [extrapolation] fits: the noise-free QNode, and the VQE energies
    of the noisy QNode folded by each scale factor. *)
Lemma extrapolation_fit (d : R) (scale_factors : list R) :
  ZNE.extrapolation hamiltonian device qnode molecular_hamiltonian default_mixed
    insert_depolarizing QNode fold_global call optimizer_step NumPy.polyfit
    d scale_factors
  = (coeffs ← NumPy.polyfit scale_factors (map (energy d) scale_factors) 2;
     zne_energy ← ZNE.last_item coeffs;
     Ret [around 6 (vqe_energy qnode call optimizer_step (ideal d)); zne_energy]).
Proof.
  unfold ZNE.extrapolation, ZNE.qnode_ansatzes, ZNE.hydrogen_hamiltonian.
  unfold energy, ideal, mitigated_energy, noisy_qnode, ideal_qnode, h2_cost, h2.
  destruct (molecular_hamiltonian _ _) as [H_ qubits]. cbn [fst snd].
  rewrite VQE_descend, map_map.
  erewrite (map_ext (fun x => ZNE.VQE qnode call optimizer_step _)); [reflexivity|].
  intros x. apply VQE_descend.
Qed.

(** C6: for every distance [d] and three distinct scale factors,
    [extrapolation] returns [[ideal_energy; zne_energy]], in that order.
    [ideal_energy] is, rounded to 6 decimals, the energy of the noise-free
    QNode of the H2 cost function at the parameter that 20 gradient-descent
    steps of size 0.4 from 0 reach.  [zne_energy] is the constant
    coefficient of the least-squares quadratic through the three points
    (scale factor, VQE energy of the noisy QNode folded by it), which is
    the value at 0 of the one quadratic through them.  The library calls
    are arbitrary functions; [np.polyfit] is the least-squares fit on the
    reals. *)
Theorem extrapolation_quadratic (d x1 x2 x3 : R) :
  (x1 <> x2)%R -> (x1 <> x3)%R -> (x2 <> x3)%R ->
  let ideal_energy := around 6 (vqe_energy qnode call optimizer_step (ideal d)) in
  let e1 := energy d x1 in
  let e2 := energy d x2 in
  let e3 := energy d x3 in
  let zne_energy := lagrange x1 x2 x3 e1 e2 e3 0 in
  ZNE.extrapolation hamiltonian device qnode molecular_hamiltonian default_mixed
    insert_depolarizing QNode fold_global call optimizer_step NumPy.polyfit
    d [x1; x2; x3]
  = Ret [ideal_energy; zne_energy]
  /\ (exists a b,
        NumPy.polyfit [x1; x2; x3] [e1; e2; e3] 2 = Ret [a; b; zne_energy]
        /\ a * x1 ^ 2 + b * x1 + zne_energy = e1
        /\ a * x2 ^ 2 + b * x2 + zne_energy = e2
        /\ a * x3 ^ 2 + b * x3 + zne_energy = e3)%R
  /\ (forall a b c,
        a * x1 ^ 2 + b * x1 + c = e1 ->
        a * x2 ^ 2 + b * x2 + c = e2 ->
        a * x3 ^ 2 + b * x3 + c = e3 -> c = zne_energy)%R.
Proof.
  intros H12 H13 H23 ideal_energy e1 e2 e3 zne_energy.
  destruct (polyfit_three x1 x2 x3 e1 e2 e3 H12 H13 H23) as (a & b & Hfit & Hval).
  destruct (lagrange_interpolates x1 x2 x3 e1 e2 e3 H12 H13 H23) as (L1 & L2 & L3).
  split; [|split].
  - rewrite extrapolation_fit. cbn [map]. fold e1 e2 e3. rewrite Hfit. reflexivity.
  - exists a, b. unfold zne_energy. rewrite Hfit, !Hval. auto.
  - intros a' b' c'. now apply quadratic_unique.
Qed.

End Extrapolation.

Lemma extrapolation_quadratic_witness :
  (1 <> 2 /\ 1 <> 3 /\ 2 <> 3)%R
  /\ ZNE.extrapolation unit R R (fun _ _ => (tt, 4%nat)) (fun _ => 0%R)
       (fun strength dev => (dev + strength)%R) (fun _ dev => dev)
       (fun q s => (q * (s * s))%R) (fun q p => (q + p)%R)
       (fun stepsize _ p => (p + stepsize)%R) NumPy.polyfit (6614 / 10000)%R [1; 2; 3]%R
     = Ret [around 6 8%R; 8%R].
Proof.
  assert (H12 : (1 <> 2)%R) by lra.
  assert (H13 : (1 <> 3)%R) by lra.
  assert (H23 : (2 <> 3)%R) by lra.
  split; [auto|].
  pose proof (proj1 (extrapolation_quadratic unit R R (fun _ _ => (tt, 4%nat))
                  (fun _ => 0%R) (fun strength dev => (dev + strength)%R) (fun _ dev => dev)
                  (fun q s => (q * (s * s))%R) (fun q p => (q + p)%R)
                  (fun stepsize _ p => (p + stepsize)%R)
                  (6614 / 10000)%R 1%R 2%R 3%R H12 H13 H23)) as Hx.
  cbv zeta in Hx. rewrite Hx.
  unfold mitigated_energy, vqe_energy, noisy_qnode, ideal_qnode, h2.
  cbn [descend fst snd of_Z div Real.numeric]. unfold lagrange.
  f_equal. f_equal; [f_equal; lra|]. f_equal. field.
Defined.

Section DriverClaims.
Import Driver.
Local Open Scope string_scope.

(** C7 describes what the notebooks document, and the loop does not do it:
    every [check] of the repository either raises or returns [None], so on
    any test cases and for any [run] the "Wrong Answer" line is never
    printed; a mismatch escapes the loop as an AssertionError instead.  On
    the test case ['[1.23, 0.6, 4.56]', '[0.0, 0.0, 0.0]'], with [run]
    returning the gradient of the notebook, the loop prints the banner
    only and ends with the AssertionError of [check]. *)
Theorem wrong_answer_never_printed :
  (forall (W : Type) (run : string -> W -> result string * W) check tests w o e,
      (exists jl, check = ParameterShift.check jl \/ check = BitflipFidelity.check jl
                  \/ check = ZNE.check jl)
      \/ (exists jl, check = UniversalityHT.check jl \/ check = UniversalityU3.check jl) ->
      ~ In (Print (wrong_answer o e)) (trace_of (driver run check tests w)))
  /\ driver (stateless (fun _ => Ret "[0.08144, -0.33706, -0.37944]"))
            (ParameterShift.check toy_loads)
            [("[1.23, 0.6, 4.56]", "[0.0, 0.0, 0.0]")] tt
     = ([Print "Running test case 0 with input '[1.23, 0.6, 4.56]'...";
         CallRun "[1.23, 0.6, 4.56]";
         CallCheck "[0.08144, -0.33706, -0.37944]" "[0.0, 0.0, 0.0]"],
        Some (AssertionError "Your gradient isn't quite right!"), tt).
Proof.
  split.
  - intros W run check tests w o e Hcheck. apply loop_no_wrong_answer.
    intros o' e' v Hv.
    assert (v = PyNone) as ->; [|reflexivity].
    destruct Hcheck as [[jl [-> | [-> | ->]]] | [jl [-> | ->]]].
    + apply (allclose_check_none ParameterShift.check _ _ (fun _ _ _ => eq_refl) jl o' e' v Hv).
    + apply (allclose_check_none BitflipFidelity.check _ _ (fun _ _ _ => eq_refl) jl o' e' v Hv).
    + apply (allclose_check_none ZNE.check _ _ (fun _ _ _ => eq_refl) jl o' e' v Hv).
    + apply (ht_check_none jl o' e' v Hv).
    + apply (u3_check_none jl o' e' v Hv).
  - vm_compute. reflexivity.
Qed.




End DriverClaims.

(** C10, as stated, fails in the arithmetic the code runs in: in binary64
    the three updates of an entry do not cancel, and after the call on
    [1.23, 0.6, 4.56] the list holds
    [1.2300000000000004, 0.5999999999999996, 4.5600000000000005]. *)
Lemma params_drift_binary64 :
  let h : heap float := <[1%positive := [1.23; 0.6; 4.56]%float]> ∅ in
  let h' := snd (ParameterShift.my_parameter_shift_grad (fun _ _ => 0%float) 1%positive h) in
  h' !! 1%positive
  = Some [1.2300000000000004; 0.59999999999999964; 4.5600000000000005]%float
  /\ PrimFloat.eqb 1.2300000000000004 1.23 = false
  /\ PrimFloat.eqb 0.59999999999999964 0.6 = false
  /\ PrimFloat.eqb 4.5600000000000005 4.56 = false.
Proof. cbv zeta. repeat split; vm_compute; reflexivity. Qed.

(** C10, amended: the shifts applied to an entry sum to zero as real
    numbers, so in exact arithmetic every iteration of the loop and the
    whole routine, when they return, leave the store as it was; on a list
    of three parameters the routine does return.  (In binary64 the entries
    come back only up to rounding.) *)
Theorem params_restored_exact (execute : list (op R) -> list pauli -> R) (l : loc)
    (h : heap R) :
  (forall shifts coeffs i g,
      returns_with (ParameterShift.loop_body execute shifts coeffs l i g) h
                   (fun _ h' => h' = h))
  /\ returns_with (ParameterShift.my_parameter_shift_grad execute l) h (fun _ h' => h' = h)
  /\ (forall t0 t1 t2,
      exists g, ParameterShift.my_parameter_shift_grad execute l (<[l := [t0; t1; t2]]> h)
                = (Ret g, <[l := [t0; t1; t2]]> h)).
Proof.
  split; [|split].
  - intros. apply loop_body_frame, R_cancelling.
  - apply my_parameter_shift_grad_frame, R_cancelling.
  - intros t0 t1 t2. eexists.
    apply (my_parameter_shift_grad_exact execute l _ [t0; t1; t2] R_cancelling).
    + apply lookup_insert_eq.
    + simpl. lia.
Qed.

(* ------------------------------------------------------------------ *)
(** * Further properties: the gradient routine                          *)
(* ------------------------------------------------------------------ *)

Section GradAny.
Context {num : Type} `{Numeric num}.
Variable execute : list (op num) -> list pauli -> num.
Implicit Types (h : heap num) (ps g : list num).
Local Open Scope num_scope.

(** One iteration in any arithmetic, on a list of at least three
    parameters: it returns, writes entry [i] of the gradient, and leaves
    in entry [i] of the list the result of the six updates. *)
Lemma loop_body_any shifts coeffs l i g h ps :
  h !! l = Some ps -> (3 <= length ps)%nat -> (i < length ps)%nat ->
  exists v,
    ParameterShift.loop_body execute shifts coeffs l i g h
    = (Ret (<[i := v]> g), <[l := <[i := round_trip shifts (ps !!! i)]> ps]> h).
Proof.
  intros Hl Hlen Hi.
  destruct (lookup_lt_is_Some_2 ps i Hi) as [x Hx].
  assert (Hlen' : forall v, (3 <= length (<[i := v]> ps))%nat)
    by (intros v; now rewrite length_insert).
  assert (Hstart : ParameterShift.loop_body execute shifts coeffs l i g h
                 = ParameterShift.loop_body execute shifts coeffs l i g
                     (<[l := <[i := x]> ps]> h))
    by (now rewrite insert_cell_same).
  rewrite Hstart. clear Hstart.
  unfold ParameterShift.loop_body, mbind, M_bind, bind, mret, M_ret, ret.
  rewrite iadd_cell, call_cell, circuit_ret by auto.
  rewrite isub_cell, call_cell, circuit_ret by auto.
  rewrite iadd_cell by auto.
  rewrite iadd_cell, call_cell, circuit_ret by auto.
  rewrite isub_cell, call_cell, circuit_ret by auto.
  rewrite iadd_cell by auto.
  rewrite !list_insert_insert_eq.
  rewrite (list_lookup_total_correct ps i x Hx).
  eexists. reflexivity.
Qed.

(** Updating every entry of a range in turn is a [map] on that range. *)
Lemma sweep_lookup (f : num -> num) m : forall k ps j,
  fold_left (fun ps i => <[i := f (ps !!! i)]> ps) (seq k m) ps !! j
  = if decide (k <= j < k + m)%nat then f <$> ps !! j else ps !! j.
Proof.
  induction m as [|m IH]; intros k ps j; simpl.
  - destruct (decide _) as [Hd|Hd]; [lia | reflexivity].
  - rewrite IH.
    destruct (decide (S k <= j < S k + m)%nat) as [Hd|Hd].
    + rewrite decide_True by lia. rewrite list_lookup_insert_ne by lia. reflexivity.
    + destruct (decide (j = k)) as [->|Hne].
      * rewrite decide_True by lia.
        destruct (ps !! k) as [x|] eqn:Hx.
        -- rewrite list_lookup_insert_eq by (apply lookup_lt_is_Some; eauto).
           now rewrite (list_lookup_total_correct ps k x Hx).
        -- rewrite lookup_ge_None_2; [reflexivity|].
           rewrite length_insert. now apply lookup_ge_None.
      * rewrite decide_False by lia. now apply list_lookup_insert_ne.
Qed.

Lemma sweep_all (f : num -> num) ps :
  fold_left (fun ps i => <[i := f (ps !!! i)]> ps) (seq 0 (length ps)) ps = map f ps.
Proof.
  apply list_eq; intros j. rewrite sweep_lookup, list_lookup_fmap.
  destruct (decide (0 <= j < 0 + length ps)%nat) as [Hd|Hd]; [reflexivity|].
  rewrite lookup_ge_None_2 by lia. reflexivity.
Qed.

Lemma loop_any shifts coeffs l m : forall k g h ps,
  h !! l = Some ps -> (3 <= length ps)%nat -> (k + m <= length ps)%nat ->
  exists g',
    for_each (seq k m) (ParameterShift.loop_body execute shifts coeffs l) g h
    = (Ret g', <[l := fold_left (fun ps i => <[i := round_trip shifts (ps !!! i)]> ps)
                               (seq k m) ps]> h)
    /\ length g' = length g.
Proof.
  induction m as [|m IH]; intros k g h ps Hl Hlen Hk; simpl.
  - exists g. split; [|reflexivity]. unfold ret. now rewrite insert_id.
  - unfold bind.
    destruct (loop_body_any shifts coeffs l k g h ps Hl Hlen) as [v ->]; [lia|].
    destruct (IH (S k) (<[k := v]> g) (<[l := <[k := round_trip shifts (ps !!! k)]> ps]> h)
                 (<[k := round_trip shifts (ps !!! k)]> ps)) as (g' & -> & Hg').
    + apply lookup_insert_eq.
    + now rewrite length_insert.
    + rewrite length_insert. lia.
    + exists g'. split; [|now rewrite Hg', length_insert].
      now rewrite insert_insert_eq.
Qed.

(** X1: in any arithmetic (binary64 included) and on any device, a call
    on a list of at least three parameters returns, never raises; the
    gradient has as many entries as the list; and the list is left with
    every entry replaced by the result of its six in-place updates
    [((((x + s1) - 2 s1) + s1) + s2 - 2 s2) + s2], whatever the device
    computes; the rest of the store is as it was. *)
Theorem gradient_any_arithmetic l h ps :
  h !! l = Some ps -> (3 <= length ps)%nat ->
  exists g,
    ParameterShift.my_parameter_shift_grad execute l h
    = (Ret g, <[l := map (round_trip (fst ParameterShift.shifts_and_coeffs)) ps]> h)
    /\ length g = length ps.
Proof.
  intros Hl Hlen.
  unfold ParameterShift.my_parameter_shift_grad, mbind, M_bind, bind, contents, len,
    mret, M_ret, ret.
  destruct ParameterShift.shifts_and_coeffs as [shifts coeffs] eqn:Hsc. simpl fst.
  cbv beta iota. rewrite !(lookup_total_correct h l ps Hl).
  destruct (loop_any shifts coeffs l (length ps) 0 (replicate (length ps) (of_Z 0)) h ps
              Hl Hlen) as (g & -> & Hg); [lia|].
  exists (map (around 5) g). rewrite sweep_all. split; [reflexivity|].
  now rewrite length_map, Hg, length_replicate.
Qed.

(** A list of one or two parameters: the first iteration shifts the first
    entry, and the circuit then raises. *)
Lemma gradient_short_raises l h x rest :
  h !! l = Some (x :: rest) -> (length (x :: rest) < 3)%nat ->
  ParameterShift.my_parameter_shift_grad execute l h
  = (Raise IndexError,
     <[l := (x + fst ParameterShift.shifts_and_coeffs !!! 0%nat) :: rest]> h).
Proof.
  intros Hl Hlen.
  unfold ParameterShift.my_parameter_shift_grad, mbind, M_bind, bind, contents, len,
    mret, M_ret, ret.
  destruct ParameterShift.shifts_and_coeffs as [shifts coeffs] eqn:Hsc. simpl fst.
  cbv beta iota. rewrite !(lookup_total_correct h l _ Hl).
  cbn [length seq for_each]. unfold bind.
  assert (Hstart : ParameterShift.loop_body execute shifts coeffs l 0
                     (replicate (S (length rest)) (of_Z 0)) h
                 = ParameterShift.loop_body execute shifts coeffs l 0
                     (replicate (S (length rest)) (of_Z 0))
                     (<[l := <[0%nat := x]> (x :: rest)]> h))
    by (rewrite insert_cell_same; auto).
  rewrite Hstart. clear Hstart.
  unfold ParameterShift.loop_body, mbind, M_bind, bind.
  rewrite iadd_cell, call_cell by (simpl; lia).
  rewrite circuit_raise by (rewrite length_insert; exact Hlen).
  reflexivity.
Qed.

(** X2: on the empty list the routine returns the empty gradient and
    touches nothing.  On a list of one or two parameters it raises
    IndexError (the circuit indexes three parameters), after the first
    entry has been shifted: the caller's list is left holding
    [x + pi/2] in place of [x]. *)
Theorem gradient_short_list l h ps :
  h !! l = Some ps -> (length ps < 3)%nat ->
  ParameterShift.my_parameter_shift_grad execute l h
  = match ps with
    | [] => (Ret [], h)
    | x :: rest =>
        (Raise IndexError,
         <[l := (x + fst ParameterShift.shifts_and_coeffs !!! 0%nat) :: rest]> h)
    end.
Proof.
  intros Hl Hlen. destruct ps as [|x rest].
  - unfold ParameterShift.my_parameter_shift_grad, mbind, M_bind, bind, contents, len,
      mret, M_ret, ret.
    destruct ParameterShift.shifts_and_coeffs as [shifts coeffs].
    cbv beta iota. rewrite !(lookup_total_correct h l [] Hl). reflexivity.
  - now apply gradient_short_raises.
Qed.

(** X28: in any arithmetic and on any device, one iteration of the loop
    on a list of at least three parameters writes into entry [i] of the
    gradient the combination [(f1 - f2) c1 - (f3 - f4) c2] of the values
    of the circuit with entry [i] of the list at the four evaluation
    points; these are obtained one from the other by the in-place updates
    [x + s1], [- 2 s1], [+ s1 + s2], [- 2 s2], and are [x + s1], [x - s1],
    [x + s2], [x - s2] only where the arithmetic is exact. *)
Theorem loop_body_points shifts coeffs l i g h ps :
  h !! l = Some ps -> (3 <= length ps)%nat -> (i < length ps)%nat -> (i < length g)%nat ->
  let pts := evaluation_points shifts (ps !!! i) in
  let f k := circuit_value execute (<[i := pts !!! k]> ps) in
  fst (ParameterShift.loop_body execute shifts coeffs l i g h)
  = Ret (<[i := (f 0%nat - f 1%nat) * coeffs !!! 0%nat
                - (f 2%nat - f 3%nat) * coeffs !!! 1%nat]> g).
Proof.
  intros Hl Hlen Hi Hg.
  destruct (lookup_lt_is_Some_2 ps i Hi) as [x Hx].
  assert (Hlen' : forall v, (3 <= length (<[i := v]> ps))%nat)
    by (intros v; now rewrite length_insert).
  assert (Hstart : ParameterShift.loop_body execute shifts coeffs l i g h
                 = ParameterShift.loop_body execute shifts coeffs l i g
                     (<[l := <[i := x]> ps]> h))
    by (now rewrite insert_cell_same).
  rewrite Hstart. clear Hstart.
  unfold ParameterShift.loop_body, mbind, M_bind, bind, mret, M_ret, ret.
  rewrite iadd_cell, call_cell, circuit_ret by auto.
  rewrite isub_cell, call_cell, circuit_ret by auto.
  rewrite iadd_cell by auto.
  rewrite iadd_cell, call_cell, circuit_ret by auto.
  rewrite isub_cell, call_cell, circuit_ret by auto.
  rewrite iadd_cell by auto.
  cbn [fst]. rewrite !list_insert_insert_eq.
  rewrite !list_lookup_total_insert_eq by (rewrite ?length_insert; assumption).
  rewrite (list_lookup_total_correct ps i x Hx).
  reflexivity.
Qed.
(** X4: the routine reads and writes the list it is given and nothing
    else.  Every other list of the store is unchanged, whether the call
    returns or raises; and the result, and what is left in the list,
    depend on the contents of the list only, not on where it lives nor on
    the rest of the store. *)
Theorem gradient_touches_only_its_list (l l' : loc) (h h' : heap num) :
  (forall l0, l0 <> l ->
     snd (ParameterShift.my_parameter_shift_grad execute l h) !! l0 = h !! l0)
  /\ (h !!! l = h' !!! l' ->
      fst (ParameterShift.my_parameter_shift_grad execute l h)
      = fst (ParameterShift.my_parameter_shift_grad execute l' h')
      /\ snd (ParameterShift.my_parameter_shift_grad execute l h) !!! l
         = snd (ParameterShift.my_parameter_shift_grad execute l' h') !!! l').
Proof.
  split.
  - intros l0 Hne. now apply confined_grad.
  - intros Hsim. apply (related_grad execute l l' h h' Hsim).
Qed.

End GradAny.

Lemma gradient_any_arithmetic_witness :
  exists g,
    ParameterShift.my_parameter_shift_grad (fun _ _ => 0%float) 1%positive
      (<[1%positive := [1.23; 0.6; 4.56]%float]> ∅)
    = (Ret g, <[1%positive := map (round_trip (fst ParameterShift.shifts_and_coeffs))
                                [1.23; 0.6; 4.56]%float]>
                (<[1%positive := [1.23; 0.6; 4.56]%float]> ∅))
    /\ length g = 3%nat.
Proof.
  apply (gradient_any_arithmetic (fun _ _ => 0%float) 1%positive
           (<[1%positive := [1.23; 0.6; 4.56]%float]> ∅) [1.23; 0.6; 4.56]%float).
  - apply lookup_insert_eq.
  - simpl. lia.
Defined.

Lemma loop_body_points_witness :
  fst (ParameterShift.loop_body
         (fun ops _ => match ops with
                       | [_; _; _; CRX p0 _ _; _; _] => p0
                       | _ => 0%float
                       end)
         [0.25; 0.75]%float [2; 4]%float 1%positive 0 [0; 0; 0]%float
         (<[1%positive := [1.5; 2.5; 3.5]%float]> ∅))
  = Ret [-5; 0; 0]%float.
Proof.
  assert (Hl : (<[1%positive := [1.5; 2.5; 3.5]%float]> ∅ : heap float) !! 1%positive
               = Some [1.5; 2.5; 3.5]%float) by apply lookup_insert_eq.
  assert (H3 : (3 <= length [1.5; 2.5; 3.5]%float)%nat) by (simpl; lia).
  assert (Hi : (0 < length [1.5; 2.5; 3.5]%float)%nat) by (simpl; lia).
  assert (Hg : (0 < length [0; 0; 0]%float)%nat) by (simpl; lia).
  pose proof (loop_body_points
                (fun ops _ => match ops with
                              | [_; _; _; CRX p0 _ _; _; _] => p0
                              | _ => 0%float
                              end)
                [0.25; 0.75]%float [2; 4]%float 1%positive 0 [0; 0; 0]%float
                (<[1%positive := [1.5; 2.5; 3.5]%float]> ∅) [1.5; 2.5; 3.5]%float
                Hl H3 Hi Hg) as Hp.
  cbv zeta in Hp. rewrite Hp. vm_compute. reflexivity.
Defined.

Lemma gradient_short_list_witness :
  ParameterShift.my_parameter_shift_grad (fun _ _ => 0%float) 1%positive
    (<[1%positive := [1.5; 2.5]%float]> ∅)
  = (Raise IndexError,
     <[1%positive := [(1.5%float + fst ParameterShift.shifts_and_coeffs !!! 0%nat)%num;
                      2.5%float]]>
       (<[1%positive := [1.5; 2.5]%float]> ∅)).
Proof.
  apply (gradient_short_list (fun _ _ => 0%float) 1%positive
           (<[1%positive := [1.5; 2.5]%float]> ∅) [1.5; 2.5]%float).
  - apply lookup_insert_eq.
  - simpl. lia.
Defined.

Section ShortRun.
Import Driver.
Context {num : Type} `{Numeric num}.
Variable execute : list (op num) -> list pauli -> num.
Variable json_loads : string -> result (list num).
Variable str : list num -> string.
Variable check : string -> string -> result pyval.
Local Open Scope string_scope.

(** X3: a test input that parses to a list of one or two parameters makes
    the loop print the banner and "Runtime Error. list index out of
    range", without calling [check], and go on to the next test case. *)
Theorem short_input_runtime_error i input expected (h : heap num) ps :
  json_loads input = Ret ps -> (0 < length ps < 3)%nat ->
  exists h',
    test_case (ParameterShift.run execute json_loads str) check i input expected h
    = ([Print (running i input); CallRun input;
        Print "Runtime Error. list index out of range"], None, h').
Proof.
  intros Hjl [Hpos Hlen].
  unfold test_case, ParameterShift.run, mbind, M_bind, bind, lift, alloc.
  rewrite Hjl.
  destruct ps as [|x rest]; [simpl in Hpos; lia|].
  rewrite (gradient_short_raises execute (fresh (dom h)) _ x rest)
    by (rewrite ?lookup_insert_eq; auto).
  eexists. reflexivity.
Qed.

End ShortRun.

Lemma short_input_runtime_error_witness :
  exists h',
    Driver.test_case
      (ParameterShift.run (fun _ _ => 0%float) (fun _ => Ret [1.5%float])
                          (fun _ => "[]"%string))
      (fun _ _ => Ret PyNone) 0 "[1.5]" "[0.0]" ∅
    = ([Driver.Print (Driver.running 0 "[1.5]"); Driver.CallRun "[1.5]"%string;
        Driver.Print "Runtime Error. list index out of range"%string], None, h').
Proof.
  apply (short_input_runtime_error (fun _ _ => 0%float) (fun _ => Ret [1.5%float])
           (fun _ => "[]"%string) (fun _ _ => Ret PyNone) 0%nat "[1.5]"%string
           "[0.0]"%string ∅ [1.5%float]).
  - reflexivity.
  - simpl. lia.
Defined.

Section RunOutcome.
Context {num : Type} `{Numeric num}.
Variable execute : list (op num) -> list pauli -> num.
Variable json_loads : string -> result (list num).
Variable str : list num -> string.

(** X26: what [run] of the parameter-shift notebook does on an input that
    [json.loads] rejects, or reads as a list of floats, in any arithmetic:
    if [json.loads] raises, [run] raises the same exception; if the input
    is a list of one or two floats, [run] raises IndexError; on a list of
    no float, or of three and more, [run] returns the string of a gradient
    with as many entries as the input.  (Inputs of other JSON types are
    not covered.) *)
Theorem run_outcome (s : string) (h : heap num) :
  (forall e, json_loads s = Raise e ->
     fst (ParameterShift.run execute json_loads str s h) = Raise e)
  /\ (forall ps, json_loads s = Ret ps ->
        if decide (0 < length ps < 3)%nat
        then fst (ParameterShift.run execute json_loads str s h) = Raise IndexError
        else exists g, fst (ParameterShift.run execute json_loads str s h) = Ret (str g)
                       /\ length g = length ps).
Proof.
  split.
  - intros e He. unfold ParameterShift.run, mbind, M_bind, bind, lift. now rewrite He.
  - intros ps Hps.
    unfold ParameterShift.run, mbind, M_bind, bind, lift, alloc, mret, M_ret, ret.
    rewrite Hps.
    set (l := fresh (dom h)).
    assert (Hl : <[l := ps]> h !! l = Some ps) by apply lookup_insert_eq.
    destruct (decide (0 < length ps < 3)%nat) as [Hshort|Hlong].
    + destruct ps as [|x rest]; [simpl in Hshort; lia|].
      rewrite (gradient_short_raises execute l _ x rest Hl) by lia. reflexivity.
    + destruct ps as [|x rest].
      * unfold ParameterShift.my_parameter_shift_grad, mbind, M_bind, bind, contents, len,
          mret, M_ret, ret.
        destruct ParameterShift.shifts_and_coeffs as [shifts coeffs].
        cbv beta iota. rewrite !(lookup_total_correct _ l [] Hl).
        exists []. split; reflexivity.
      * assert (Hlen : (3 <= length (x :: rest))%nat) by (simpl in *; lia).
        unfold ParameterShift.my_parameter_shift_grad, mbind, M_bind, bind, contents, len,
          mret, M_ret, ret.
        destruct ParameterShift.shifts_and_coeffs as [shifts coeffs].
        cbv beta iota. rewrite !(lookup_total_correct _ l _ Hl).
        destruct (loop_any execute shifts coeffs l (length (x :: rest)) 0
                    (replicate (length (x :: rest)) (of_Z 0)) _ (x :: rest) Hl Hlen)
          as (g & -> & Hg); [lia|].
        exists (map (around 5) g). split; [reflexivity|].
        now rewrite length_map, Hg, length_replicate.
Qed.

(** X27: in the parameter-shift notebook the routine updates its list in
    place, and [run] gives it a fresh list on every call.  So, for a
    device that is a function of the circuit and in any arithmetic,
    binary64 included: the output of [run] does not depend on the store it
    starts from; [run] leaves every list that was there untouched; and a
    second invocation on the same input, in the store that the first one
    left, gives the same output. *)
Theorem parameter_shift_run_isolated (s : string) :
  (forall h1 h2 : heap num,
      fst (ParameterShift.run execute json_loads str s h1)
      = fst (ParameterShift.run execute json_loads str s h2))
  /\ (forall (h : heap num) l0 v,
      h !! l0 = Some v ->
      snd (ParameterShift.run execute json_loads str s h) !! l0 = Some v)
  /\ (forall h : heap num,
      let first := ParameterShift.run execute json_loads str s h in
      fst (ParameterShift.run execute json_loads str s (snd first)) = fst first).
Proof.
  split; [|split].
  - intros. apply run_output_local.
  - intros. now apply run_frame.
  - intros. cbv zeta. apply run_output_local.
Qed.

End RunOutcome.

Section GradReal.
Local Open Scope R_scope.

Lemma around_zero d : Real.around d 0 = 0.
Proof.
  unfold Real.around, Real.rint. rewrite Rmult_0_l.
  assert (Hip : Int_part 0 = 0%Z).
  { symmetry. apply Int_part_spec. simpl. lra. }
  rewrite Hip. simpl IZR.
  destruct (Rlt_dec (0 - 0) (1 / 2)) as [_|Hn]; [|exfalso; apply Hn; lra].
  unfold Rdiv. apply Rmult_0_l.
Qed.

(** The circuit reads its first three parameters only. *)
Lemma circuit_value_insert_ge (execute : list (op R) -> list pauli -> R) ps i v :
  (3 <= i)%nat -> circuit_value execute (<[i := v]> ps) = circuit_value execute ps.
Proof.
  intros Hi. unfold circuit_value.
  rewrite !list_lookup_total_insert_ne by lia. reflexivity.
Qed.

(** X5: in exact arithmetic and on any device, the entries of the gradient
    for parameters beyond the third are exactly zero: the circuit reads
    three parameters, so the four evaluations of the rule agree. *)
Theorem extra_parameters_zero_gradient (execute : list (op R) -> list pauli -> R)
    (l : loc) (h : heap R) (ps : list R) (i : nat) :
  h !! l = Some ps -> (3 <= i < length ps)%nat ->
  exists g,
    ParameterShift.my_parameter_shift_grad execute l h = (Ret g, h)
    /\ length g = length ps
    /\ g !! i = Some 0.
Proof.
  intros Hl [Hi Hlen].
  rewrite (my_parameter_shift_grad_exact execute l h ps R_cancelling Hl) by lia.
  eexists. split; [reflexivity|]. split.
  - now rewrite length_map, length_seq.
  - rewrite list_lookup_fmap, lookup_seq_lt by lia. simpl. f_equal.
    unfold shift_rule. rewrite !circuit_value_insert_ge by lia.
    match goal with
    | |- Real.around 5 ?e = _ => replace e with 0 by ring
    end.
    apply around_zero.
Qed.

Lemma extra_parameters_zero_gradient_witness :
  exists g,
    ParameterShift.my_parameter_shift_grad (fun _ _ => 1)
      1%positive (<[1%positive := [1; 2; 3; 4]]> ∅)
    = (Ret g, <[1%positive := [1; 2; 3; 4]]> ∅)
    /\ length g = 4%nat /\ g !! 3%nat = Some 0.
Proof.
  apply (extra_parameters_zero_gradient (fun _ _ => 1) 1%positive
           (<[1%positive := [1; 2; 3; 4]]> ∅) [1; 2; 3; 4] 3).
  - apply lookup_insert_eq.
  - simpl. lia.
Defined.

(** X6: on the ideal device the QNode [circuit] evaluates, on parameters
    [t0, t1, t2] (further entries are ignored), to
    [cos(t2/2) - sin(t1) cos(t0/2) / 2]; its value never leaves
    [-3/2, 3/2]. *)
Theorem circuit_closed_form (t0 t1 t2 : R) (rest : list R) :
  ParameterShift.circuit Ideal.qubit_expval (t0 :: t1 :: t2 :: rest)
  = Ret (cos (t2 / 2) - sin t1 * cos (t0 / 2) / 2)
  /\ Rabs (cos (t2 / 2) - sin t1 * cos (t0 / 2) / 2) <= 3 / 2.
Proof.
  split.
  - rewrite circuit_ret by (simpl; lia).
    change (circuit_value Ideal.qubit_expval (t0 :: t1 :: t2 :: rest))
      with (circuit_value Ideal.qubit_expval [t0; t1; t2]).
    now rewrite ideal_circuit_closed.
  - pose proof (COS_bound (t2 / 2)) as [? ?].
    pose proof (COS_bound (t0 / 2)) as [? ?].
    pose proof (SIN_bound t1) as [? ?].
    apply Rabs_le. split; nra.
Qed.

Lemma trig'_0 t1 t2 x :
  trig' (cos (t2 / 2)) (- sin t1 / 2) 0 0 0 x = sin t1 * sin (x / 2) / 4.
Proof. unfold trig'. field. Qed.

Lemma trig'_1 t0 t2 x :
  trig' (cos (t2 / 2)) 0 0 0 (- cos (t0 / 2) / 2) x = - (cos x * cos (t0 / 2)) / 2.
Proof. unfold trig'. field. Qed.

Lemma trig'_2 t0 t1 x :
  trig' (- sin t1 * cos (t0 / 2) / 2) 1 0 0 0 x = - sin (x / 2) / 2.
Proof. unfold trig'. field. Qed.

(** X7: in exact arithmetic on the ideal device, the gradient returned for
    [t0, t1, t2] is, entry by entry and rounded to 5 decimals,
    [sin(t1) sin(t0/2) / 4], [- cos(t1) cos(t0/2) / 2] and
    [- sin(t2/2) / 2]; the list of parameters is as before the call. *)
Theorem gradient_closed_form (t0 t1 t2 : R) (l : loc) (h : heap R) :
  ParameterShift.my_parameter_shift_grad Ideal.qubit_expval l (<[l := [t0; t1; t2]]> h)
  = (Ret (map (around 5) (gradient_closed t0 t1 t2)), <[l := [t0; t1; t2]]> h).
Proof.
  rewrite (my_parameter_shift_grad_exact Ideal.qubit_expval l _ [t0; t1; t2] R_cancelling)
    by (rewrite ?lookup_insert_eq; simpl; auto).
  cbn [length seq map]. rewrite !shift_rule_four_term.
  unfold gradient_closed. cbn [map]. do 2 f_equal.
  f_equal; [|f_equal; [|f_equal]].
  - f_equal.
    rewrite (four_term_ext _ (trig (cos (t2 / 2)) (- sin t1 / 2) 0 0 0)).
    + rewrite four_term_trig. apply trig'_0.
    + intros v. change (<[0%nat := v]> [t0; t1; t2]) with [v; t1; t2].
      rewrite ideal_circuit_closed. apply closed_as_trig_0.
  - f_equal.
    rewrite (four_term_ext _ (trig (cos (t2 / 2)) 0 0 0 (- cos (t0 / 2) / 2))).
    + rewrite four_term_trig. apply trig'_1.
    + intros v. change (<[1%nat := v]> [t0; t1; t2]) with [t0; v; t2].
      rewrite ideal_circuit_closed. apply closed_as_trig_1.
  - f_equal.
    rewrite (four_term_ext _ (trig (- sin t1 * cos (t0 / 2) / 2) 1 0 0 0)).
    + rewrite four_term_trig. apply trig'_2.
    + intros v. change (<[2%nat := v]> [t0; t1; t2]) with [t0; t1; v].
      rewrite ideal_circuit_closed. apply closed_as_trig_2.
Qed.

(** X8: in exact arithmetic and on any device, each entry the routine
    returns is a whole multiple of 10^-5 and differs from the unrounded
    four-term combination by at most 5 * 10^-6: this is all that
    [np.round_(gradient, decimals=5)] changes. *)
Theorem gradient_rounding (execute : list (op R) -> list pauli -> R)
    (l : loc) (h : heap R) (ps : list R) :
  h !! l = Some ps -> (3 <= length ps)%nat ->
  exists g,
    ParameterShift.my_parameter_shift_grad execute l h = (Ret g, h)
    /\ forall i, (i < length ps)%nat ->
         (exists n : Z, g !!! i = IZR n / 10 ^ 5)
         /\ Rabs (g !!! i - shift_rule execute (fst ParameterShift.shifts_and_coeffs)
                              (snd ParameterShift.shifts_and_coeffs) ps i)
            <= 5 / 10 ^ 6.
Proof.
  intros Hl Hlen.
  rewrite (my_parameter_shift_grad_exact execute l h ps R_cancelling Hl Hlen).
  eexists. split; [reflexivity|]. intros i Hi.
  erewrite list_lookup_total_correct
    by (rewrite list_lookup_fmap, lookup_seq_lt by lia; reflexivity).
  cbn [plus].
  destruct (around_near 5 (shift_rule execute (fst ParameterShift.shifts_and_coeffs)
                             (snd ParameterShift.shifts_and_coeffs) ps i)) as [Hn Hd].
  split; [exact Hn|].
  eapply Rle_trans; [exact Hd|]. lra.
Qed.

Lemma gradient_rounding_witness :
  exists g,
    ParameterShift.my_parameter_shift_grad (fun _ _ => 1)
      1%positive (<[1%positive := [1; 2; 3]]> ∅)
    = (Ret g, <[1%positive := [1; 2; 3]]> ∅)
    /\ forall i, (i < 3)%nat ->
         (exists n : Z, g !!! i = IZR n / 10 ^ 5)
         /\ Rabs (g !!! i - shift_rule (fun _ _ => 1) (fst ParameterShift.shifts_and_coeffs)
                              (snd ParameterShift.shifts_and_coeffs) [1; 2; 3] i)
            <= 5 / 10 ^ 6.
Proof.
  apply (gradient_rounding (fun _ _ => 1) 1%positive
           (<[1%positive := [1; 2; 3]]> ∅) [1; 2; 3]).
  - apply lookup_insert_eq.
  - simpl. lia.
Defined.

(** X9: the shifts and coefficients that [shifts_and_coeffs] returns form
    an exact differentiation rule for every function of the form
    [A + B cos(v/2) + C sin(v/2) + D cos v + E sin v], the form of an
    expectation value in the angle of a controlled rotation: the
    combination [c1 (f(x+s1) - f(x-s1)) - c2 (f(x+s2) - f(x-s2))] is the
    derivative of [f] at [x]. *)
Theorem shifts_and_coeffs_rule (A B C_ D E x : R) :
  let shifts := fst (ParameterShift.shifts_and_coeffs (num := R)) in
  let coeffs := snd (ParameterShift.shifts_and_coeffs (num := R)) in
  let f := trig A B C_ D E in
  derivable_pt_lim f x
    (coeffs !!! 0%nat * (f (x + shifts !!! 0%nat) - f (x - shifts !!! 0%nat))
     - coeffs !!! 1%nat * (f (x + shifts !!! 1%nat) - f (x - shifts !!! 1%nat))).
Proof.
  cbv zeta. cbn [ParameterShift.shifts_and_coeffs fst snd lookup_total list_lookup_total].
  simpl.
  replace (PI * 3 / 2) with (3 * PI / 2) by lra.
  apply (four_term_is_derivative (trig A B C_ D E) A B C_ D E x). reflexivity.
Qed.

End GradReal.

(* ------------------------------------------------------------------ *)
(** * Further properties: the bit-flip circuit                          *)
(* ------------------------------------------------------------------ *)

Section BitflipMore.
Local Open Scope R_scope.

Lemma rho4_bell p : p = 0 \/ p = 1 -> rho4 p = bell.
Proof.
  intros [-> | ->]; unfold rho4, bell, r; cbv zeta; entrywise; lra.
Qed.

(** X10: with bit-flip probability 0, and also with probability 1 (both
    bits always flipped), [bitflip_circuit] prepares exactly the state of
    the error-less [circuit]. *)
Theorem bitflip_noise_limits :
  BitflipFidelity.bitflip_circuit (matrix C) Ideal.mixed_state 0
  = BitflipFidelity.circuit (matrix C) Ideal.mixed_state
  /\ BitflipFidelity.bitflip_circuit (matrix C) Ideal.mixed_state 1
     = BitflipFidelity.circuit (matrix C) Ideal.mixed_state.
Proof.
  rewrite circuit_is_bell, !bitflip_circuit_state by lra.
  split; apply rho4_bell; auto.
Qed.

(** X11: on the ideal simulator, in exact arithmetic, for a probability p
    in [0,1] the state of [bitflip_circuit(p)] is a 4 x 4 Hermitian
    matrix of trace one; its diagonal, the probabilities
    of the outcomes 00, 01, 10, 11, is
    [((1-p)^2 + p^2)/2, p(1-p), p(1-p), ((1-p)^2 + p^2)/2], each entry
    between 0 and 1. *)
Theorem bitflip_state_is_density_matrix (p : R) :
  0 <= p <= 1 ->
  let rho := BitflipFidelity.bitflip_circuit (matrix C) Ideal.mixed_state p in
  rows rho = 4%nat /\ Forall (fun row => length row = 4%nat) rho
  /\ adjoint rho = rho
  /\ trace rho = RtoC 1
  /\ map (fun i => entry rho i i) (seq 0 4)
     = map RtoC [((1 - p) ^ 2 + p ^ 2) / 2; p * (1 - p); p * (1 - p);
                 ((1 - p) ^ 2 + p ^ 2) / 2]
  /\ (forall i, (i < 4)%nat -> 0 <= Re (entry rho i i) <= 1).
Proof.
  intros Hp. cbv zeta. rewrite bitflip_circuit_state by assumption.
  split; [reflexivity|]. split; [repeat constructor|].
  split; [eval_matrix; entrywise; lra|].
  split; [eval_matrix; entrywise; field|].
  split; [eval_matrix; entrywise; field|].
  intros i Hi.
  destruct i as [|[|[|[|i]]]]; [| | | |lia]; eval_matrix; nra.
Qed.

Lemma bitflip_state_is_density_matrix_witness :
  let rho := BitflipFidelity.bitflip_circuit (matrix C) Ideal.mixed_state (1 / 4) in
  rows rho = 4%nat /\ Forall (fun row => length row = 4%nat) rho
  /\ adjoint rho = rho
  /\ trace rho = RtoC 1
  /\ map (fun i => entry rho i i) (seq 0 4)
     = map RtoC [((1 - 1 / 4) ^ 2 + (1 / 4) ^ 2) / 2; 1 / 4 * (1 - 1 / 4);
                 1 / 4 * (1 - 1 / 4); ((1 - 1 / 4) ^ 2 + (1 / 4) ^ 2) / 2]
  /\ (forall i, (i < 4)%nat -> 0 <= Re (entry rho i i) <= 1).
Proof.
  apply (bitflip_state_is_density_matrix (1 / 4)). lra.
Defined.

(** X12: on the ideal simulator, in exact arithmetic, for p in [0,1] the
    Uhlmann fidelity between the state of [bitflip_circuit(p)] and the
    state of [circuit()] lies between 1/2 and 1; it is the same for p and
    1 - p; it is 1 exactly for p = 0 and p = 1, and 1/2 exactly for
    p = 1/2; and up to p = 1/2 more noise never gives a larger fidelity.
    (In binary64 the code returns these values up to rounding only.) *)
Theorem fidelity_range (p : R) :
  0 <= p <= 1 ->
  let F q := Sim.fidelity (BitflipFidelity.bitflip_circuit (matrix C) Ideal.mixed_state q)
                          (BitflipFidelity.circuit (matrix C) Ideal.mixed_state) in
  1 / 2 <= F p <= 1
  /\ F (1 - p) = F p
  /\ (F p = 1 <-> p = 0 \/ p = 1)
  /\ (F p = 1 / 2 <-> p = 1 / 2)
  /\ (forall q, p <= q <= 1 / 2 -> F q <= F p).
Proof.
  intros Hp. cbv beta zeta.
  rewrite (fidelity_closed_form p), (fidelity_closed_form (1 - p)) by lra.
  pose proof (Rle_0_sqr (2 * p - 1)) as Hsq. unfold Rsqr in Hsq.
  split; [simpl; nra|]. split; [ring|]. split; [|split].
  - split.
    + intros Heq. assert (Hz : p * (1 - p) = 0) by lra.
      apply Rmult_integral in Hz. destruct Hz; [left | right]; lra.
    + intros [-> | ->]; ring.
  - split.
    + intros Heq. assert (Hz : (2 * p - 1) * (2 * p - 1) = 0) by lra.
      apply Rmult_integral in Hz. destruct Hz; lra.
    + intros ->. field.
  - intros q Hq. rewrite (fidelity_closed_form q) by lra. simpl. nra.
Qed.

Lemma fidelity_range_witness :
  let F q := Sim.fidelity (BitflipFidelity.bitflip_circuit (matrix C) Ideal.mixed_state q)
                          (BitflipFidelity.circuit (matrix C) Ideal.mixed_state) in
  1 / 2 <= F (1 / 4) <= 1
  /\ F (1 - 1 / 4) = F (1 / 4)
  /\ (F (1 / 4) = 1 <-> 1 / 4 = 0 \/ 1 / 4 = 1)
  /\ (F (1 / 4) = 1 / 2 <-> 1 / 4 = 1 / 2)
  /\ (forall q, 1 / 4 <= q <= 1 / 2 -> F q <= F (1 / 4)).
Proof.
  apply (fidelity_range (1 / 4)). lra.
Defined.

End BitflipMore.

(* ------------------------------------------------------------------ *)
(** * Further properties: the universality notebooks                    *)
(* ------------------------------------------------------------------ *)

Section UniversalityMore.
Import Exact.
Local Open Scope R_scope.

Lemma ht_circuit_complex : Sim.matrix_of 2 UniversalityHT.circuit = mmap RtoC SWAP_R.
Proof.
  unfold Sim.matrix_of. rewrite gates_of_exact by reflexivity.
  rewrite identity_exact, chain_exact.
  set (M := chain 2 _ _). vm_compute in M. subst M.
  unfold mmap, denote, RtoC, SWAP_R, Q2R; simpl.
  entrywise; lra.
Qed.

(** X13: on the ideal simulator, in exact arithmetic, the complex matrix
    of the H/T/CNOT circuit is the SWAP matrix itself, with no imaginary
    part and no phase, so taking [.real] in [run] discards nothing; and applied to the product of two arbitrary
    one-qubit states it gives the product in the other order. *)
Theorem ht_circuit_swaps_qubits (phi psi : C * C) :
  Sim.matrix_of 2 UniversalityHT.circuit = mmap RtoC SWAP_R
  /\ mmul (Sim.matrix_of 2 UniversalityHT.circuit) (product_state phi psi)
     = product_state psi phi.
Proof.
  split; [apply ht_circuit_complex|].
  rewrite ht_circuit_complex.
  destruct phi as [[a1 a2] [b1 b2]], psi as [[c1 c2] [d1 d2]].
  eval_matrix. entrywise; ring.
Qed.

Lemma u3_matrix_of : Sim.matrix_of 3 UniversalityU3.circuit = mmap RtoC solution_R.
Proof.
  unfold Sim.matrix_of. rewrite u3_gates_exact.
  rewrite identity_exact, chain_exact.
  set (M := chain 3 _ _). vm_compute in M. subst M.
  unfold mmap, denote, RtoC, solution_R, Q2R; simpl.
  unfold Rdiv. rewrite inv_sqrt2_half.
  entrywise; lra.
Qed.

(** X14: on the ideal simulator, [qml.matrix(circuit)], which orders the
    wires as the tape meets them, gives for the U3/CNOT circuit 1/sqrt 2
    times the matrix of the statement, with no imaginary part: the three
    [U3(0,0,0)] gates at its head fix the order 0, 1, 2.  Without them
    the tape meets wire 1 first, the order is 1, 0, 2, and the matrix is
    another one (its entry (2,2) is 1/sqrt 2 instead of -1/sqrt 2); on
    the fixed wire order 0, 1, 2 it would be the same. *)
Theorem u3_circuit_complex :
  Sim.tape_wires UniversalityU3.circuit = [0; 1; 2]%nat
  /\ Sim.qml_matrix UniversalityU3.circuit = mmap RtoC solution_R
  /\ Sim.tape_wires (skipn 3 UniversalityU3.circuit) = [1; 0; 2]%nat
  /\ Re (entry (Sim.qml_matrix (skipn 3 UniversalityU3.circuit)) 2 2) = / R_sqrt.sqrt 2
  /\ Re (entry (mmap RtoC solution_R) 2 2) = - / R_sqrt.sqrt 2
  /\ Sim.qml_matrix (skipn 3 UniversalityU3.circuit) <> mmap RtoC solution_R
  /\ Sim.matrix_of 3 (skipn 3 UniversalityU3.circuit) = mmap RtoC solution_R.
Proof.
  assert (Hcut : Re (entry (Sim.qml_matrix (skipn 3 UniversalityU3.circuit)) 2 2)
                 = / R_sqrt.sqrt 2).
  { unfold Sim.qml_matrix.
    change (Sim.tape_wires (skipn 3 UniversalityU3.circuit)) with [1; 0; 2]%nat.
    cbv zeta.
    assert (Hgates : map (fun o => (map (Sim.position [1; 0; 2]%nat) (wires o), Sim.gate_matrix o))
                         (skipn 3 UniversalityU3.circuit)
                     = exact_gates
                         (map (fun g => (map (Sim.position [1; 0; 2]%nat) (fst g), snd g))
                              (skipn 3 u3_circuit_K))).
    { unfold UniversalityU3.circuit, exact_gates, u3_circuit_K.
      cbn [skipn map fst snd wires].
      rewrite !U3_Z, !U3_Hadamard, CNOT_exact. reflexivity. }
    rewrite Hgates. change (length [1; 0; 2]%nat) with 3%nat.
    rewrite identity_exact, chain_exact.
    set (M := chain 3 _ _). vm_compute in M. subst M.
    unfold mmap, denote, Re, Q2R; simpl.
    rewrite inv_sqrt2_half. lra. }
  assert (Hsol : Re (entry (mmap RtoC solution_R) 2 2) = - / R_sqrt.sqrt 2).
  { unfold mmap, solution_R, RtoC, Re; simpl. field.
    pose proof sqrt2_pos. lra. }
  split; [reflexivity|]. split; [|split; [reflexivity|split; [exact Hcut|split; [exact Hsol|split]]]].
  - rewrite <- u3_matrix_of. reflexivity.
  - intros Heq. rewrite Heq, Hsol in Hcut.
    pose proof inv_sqrt2_sq as Hs. nra.
  - rewrite <- u3_matrix_of.
    unfold Sim.matrix_of.
    assert (Hgates : Sim.gates_of (skipn 3 UniversalityU3.circuit)
                     = exact_gates (skipn 3 u3_circuit_K)).
    { unfold Sim.gates_of, UniversalityU3.circuit, exact_gates, u3_circuit_K.
      cbn [skipn map fst snd wires].
      rewrite !U3_Z, !U3_Hadamard, CNOT_exact. reflexivity. }
    rewrite Hgates, u3_gates_exact, identity_exact, !chain_exact.
    apply (f_equal (mmap denote)). vm_compute. reflexivity.
Qed.
End UniversalityMore.

Section GateSet.

Lemma contains_In gates n : contains gates n = true <-> In n gates.
Proof.
  unfold contains. rewrite existsb_exists. split.
  - intros (x & Hx & Heq). apply String.eqb_eq in Heq. now subst.
  - intros Hn. exists n. split; [assumption | apply String.eqb_refl].
Qed.

(** A list has exactly the names of a duplicate-free list when it has as
    many distinct names and holds each of them. *)
Lemma distinct_exact gates (names : list string) :
  NoDup names ->
  (distinct_count gates = length names /\ forall n, In n names -> In n gates)
  <-> (forall g, In g gates <-> In g names).
Proof.
  intros Hnd. unfold distinct_count.
  pose proof (size_list_to_set (C := gset string) names Hnd) as Hsize.
  split.
  - intros [Hcount Hin].
    assert (Hsub : list_to_set (C := gset string) names ⊆ list_to_set gates).
    { intros x. rewrite !elem_of_list_to_set, !list_elem_of_In. apply Hin. }
    apply set_subseteq_size_eq in Hsub; [|lia].
    intros g. rewrite <- !list_elem_of_In, <- !(elem_of_list_to_set (C := gset string)).
    now rewrite Hsub.
  - intros Hall.
    assert (Heq : list_to_set (C := gset string) gates = list_to_set names).
    { apply set_eq. intros x. rewrite !elem_of_list_to_set, !list_elem_of_In. apply Hall. }
    rewrite Heq. split; [exact Hsize|]. intros n Hn. now apply Hall.
Qed.

(** X15: the gate test of the H/T/CNOT [check] passes exactly when the
    names on the tape are Hadamard, CNOT and T, all three present and no
    other; the one of the U3/CNOT [check] exactly when they are U3 and
    CNOT, both present and no other.  (How often and in which order a
    gate occurs does not matter.) *)
Theorem gate_set_tests (gates : list string) :
  (Nat.eqb (distinct_count gates) 3 && contains gates "Hadamard"
   && contains gates "CNOT" && contains gates "T" = true
   <-> forall g, In g gates <-> g = "Hadamard" \/ g = "CNOT" \/ g = "T")%string
  /\ (Nat.eqb (distinct_count gates) 2 && contains gates "U3"
      && contains gates "CNOT" = true
      <-> forall g, In g gates <-> g = "U3" \/ g = "CNOT")%string.
Proof.
  split.
  - rewrite !andb_true_iff, Nat.eqb_eq, !contains_In.
    pose proof (distinct_exact gates ["Hadamard"; "CNOT"; "T"]%string) as Hx.
    cbn [length In] in Hx.
    assert (Hnd : NoDup ["Hadamard"; "CNOT"; "T"]%string)
      by (apply (bool_decide_unpack _); vm_compute; reflexivity).
    specialize (Hx Hnd). split.
    + intros [[[Hc Hh] Hcn] Ht] g. rewrite (proj1 Hx).
      * cbn [In]. intuition congruence.
      * split; [exact Hc|]. intros n [<- | [<- | [<- | []]]]; assumption.
    + intros Hall.
      destruct (proj2 Hx) as [Hc Hin].
      { intros g. rewrite Hall. cbn [In]. intuition congruence. }
      repeat split; [exact Hc | apply Hin; auto ..].
  - rewrite !andb_true_iff, Nat.eqb_eq, !contains_In.
    pose proof (distinct_exact gates ["U3"; "CNOT"]%string) as Hx.
    cbn [length In] in Hx.
    assert (Hnd : NoDup ["U3"; "CNOT"]%string)
      by (apply (bool_decide_unpack _); vm_compute; reflexivity).
    specialize (Hx Hnd). split.
    + intros [[Hc Hu] Hcn] g. rewrite (proj1 Hx).
      * cbn [In]. intuition congruence.
      * split; [exact Hc|]. intros n [<- | [<- | []]]; assumption.
    + intros Hall.
      destruct (proj2 Hx) as [Hc Hin].
      { intros g. rewrite Hall. cbn [In]. intuition congruence. }
      repeat split; [exact Hc | apply Hin; auto ..].
Qed.

End GateSet.

Section HTNotebook.
Import Driver.
Variable matrix_real : list (op float) -> list (list float).
Variable json_dumps : parsed_output float -> string.
Variable json_loads : string -> result (parsed_output float).

(** X16: in the H/T/CNOT notebook, when [json.loads] gives back what
    [run] dumped and the device's matrix is rectangular and comparable
    with SWAP, the verdict of a test case depends on the matrix alone (the
    gate test always passes on the tape of [U]): if the matrix is close to
    SWAP the loop prints the banner and "Correct!", as the notebook
    records; otherwise the bare [assert] escapes with an AssertionError
    without message.  Input and expected output play no part. *)
Theorem ht_notebook_verdict (i : nat) (input expected : string) (b : bool) :
  let out := Output (matrix_real UniversalityHT.circuit)
                    (map name (UniversalityHT.U (num := float))) in
  json_loads (json_dumps out) = Ret out ->
  NumPy.rectangular (matrix_real UniversalityHT.circuit) = true ->
  NumPy.allclose2 NumPy.default_rtol NumPy.default_atol
    (matrix_real UniversalityHT.circuit) UniversalityHT.SWAP = Ret b ->
  test_case (stateless (UniversalityHT.run matrix_real json_dumps))
            (UniversalityHT.check json_loads) i input expected tt
  = if b
    then ([Print (running i input); CallRun input; CallCheck (json_dumps out) expected;
           Print "Correct!"%string], None, tt)
    else ([Print (running i input); CallRun input; CallCheck (json_dumps out) expected],
          Some (AssertionError EmptyString), tt).
Proof.
  intros out Hjl Hrect Hclose.
  assert (Hgates : Nat.eqb (distinct_count (gates_field out)) 3
                   && contains (gates_field out) "Hadamard"
                   && contains (gates_field out) "CNOT"
                   && contains (gates_field out) "T" = true)
    by (vm_compute; reflexivity).
  assert (Hcheck : UniversalityHT.check json_loads (json_dumps out) expected
                   = if b then Ret PyNone else Raise (AssertionError EmptyString)).
  { unfold UniversalityHT.check. rewrite Hjl. cbn [mbind result_bind].
    rewrite Hgates. cbn [matrix_field out].
    unfold NumPy.array2. rewrite Hrect. cbn [mbind result_bind]. rewrite Hclose.
    destruct b; reflexivity. }
  unfold test_case, stateless, UniversalityHT.run. fold out. rewrite Hcheck.
  destruct b; reflexivity.
Qed.

End HTNotebook.

Lemma ht_notebook_verdict_witness :
  Driver.test_case
    (Driver.stateless (UniversalityHT.run (fun _ => UniversalityHT.SWAP)
                                          (fun _ => "out"%string)))
    (UniversalityHT.check
       (fun _ => Ret (Output UniversalityHT.SWAP (map name (UniversalityHT.U (num := float))))))
    0 "No input" "No output" tt
  = ([Driver.Print (Driver.running 0 "No input"); Driver.CallRun "No input"%string;
      Driver.CallCheck "out" "No output"; Driver.Print "Correct!"%string], None, tt).
Proof.
  apply (ht_notebook_verdict (fun _ => UniversalityHT.SWAP) (fun _ => "out"%string)
           (fun _ => Ret (Output UniversalityHT.SWAP (map name (UniversalityHT.U (num := float)))))
           0%nat "No input"%string "No output"%string true).
  - reflexivity.
  - reflexivity.
  - vm_compute. reflexivity.
Defined.

Section U3Notebook.
Import Driver.
Variable matrix_real : list (op float) -> list (list float).
Variable json_dumps : parsed_output float -> string.
Variable json_loads : string -> result (parsed_output float).

(** X17: the same for the U3/CNOT notebook: the gate test always passes on
    the tape of [circuit], so a test case prints the banner and "Correct!"
    when the device's matrix is close to the matrix fixed in [check], and
    otherwise ends the loop with an AssertionError without message. *)
Theorem u3_notebook_verdict (i : nat) (input expected : string) (b : bool) :
  let out := Output (matrix_real UniversalityU3.circuit)
                    (map name (UniversalityU3.circuit (num := float))) in
  json_loads (json_dumps out) = Ret out ->
  NumPy.rectangular (matrix_real UniversalityU3.circuit) = true ->
  NumPy.allclose2 NumPy.default_rtol NumPy.default_atol
    (matrix_real UniversalityU3.circuit) UniversalityU3.solution = Ret b ->
  test_case (stateless (UniversalityU3.run matrix_real json_dumps))
            (UniversalityU3.check json_loads) i input expected tt
  = if b
    then ([Print (running i input); CallRun input; CallCheck (json_dumps out) expected;
           Print "Correct!"%string], None, tt)
    else ([Print (running i input); CallRun input; CallCheck (json_dumps out) expected],
          Some (AssertionError EmptyString), tt).
Proof.
  intros out Hjl Hrect Hclose.
  assert (Hgates : Nat.eqb (distinct_count (gates_field out)) 2
                   && contains (gates_field out) "U3"
                   && contains (gates_field out) "CNOT" = true)
    by (vm_compute; reflexivity).
  assert (Hcheck : UniversalityU3.check json_loads (json_dumps out) expected
                   = if b then Ret PyNone else Raise (AssertionError EmptyString)).
  { unfold UniversalityU3.check. rewrite Hjl. cbn [mbind result_bind].
    rewrite Hgates. cbn [matrix_field out].
    unfold NumPy.array2. rewrite Hrect. cbn [mbind result_bind]. rewrite Hclose.
    destruct b; reflexivity. }
  unfold test_case, stateless, UniversalityU3.run. fold out. rewrite Hcheck.
  destruct b; reflexivity.
Qed.

End U3Notebook.

Lemma u3_notebook_verdict_witness :
  Driver.test_case
    (Driver.stateless (UniversalityU3.run (fun _ => UniversalityU3.solution)
                                          (fun _ => "out"%string)))
    (UniversalityU3.check
       (fun _ => Ret (Output UniversalityU3.solution
                        (map name (UniversalityU3.circuit (num := float))))))
    0 "No input" "No output" tt
  = ([Driver.Print (Driver.running 0 "No input"); Driver.CallRun "No input"%string;
      Driver.CallCheck "out" "No output"; Driver.Print "Correct!"%string], None, tt).
Proof.
  apply (u3_notebook_verdict (fun _ => UniversalityU3.solution) (fun _ => "out"%string)
           (fun _ => Ret (Output UniversalityU3.solution
                            (map name (UniversalityU3.circuit (num := float)))))
           0%nat "No input"%string "No output"%string true).
  - reflexivity.
  - reflexivity.
  - vm_compute. reflexivity.
Defined.

(* ------------------------------------------------------------------ *)
(** * Further properties: the numeric checks                            *)
(* ------------------------------------------------------------------ *)

Section CloseLemmas.
Local Open Scope float_scope.

Lemma eqb_nan_l y : PrimFloat.eqb nan y = false.
Proof. rewrite FloatAxioms.eqb_spec. reflexivity. Qed.

Lemma eqb_nan_r x : PrimFloat.eqb x nan = false.
Proof.
  rewrite FloatAxioms.eqb_spec.
  change (Prim2SF nan) with S754_nan.
  destruct (Prim2SF x) as [s| s| |s m e]; try destruct s; reflexivity.
Qed.

(** [np.isclose] is false as soon as one side is NaN. *)
Lemma isclose_nan rtol atol x y :
  x = nan \/ y = nan -> NumPy.isclose rtol atol x y = false.
Proof.
  unfold NumPy.isclose. intros [-> | ->].
  - change (is_finite nan) with false. cbn [andb]. apply eqb_nan_l.
  - change (is_finite nan) with false. rewrite andb_false_r. apply eqb_nan_r.
Qed.

Lemma broadcast_same_length {A B} (xs : list A) (ys : list B) :
  length xs = length ys -> NumPy.broadcast xs ys = Ret (combine xs ys).
Proof. intros Hlen. unfold NumPy.broadcast. now rewrite Hlen, Nat.eqb_refl. Qed.

Lemma broadcast_mismatch {A B} (xs : list A) (ys : list B) :
  length xs <> length ys -> length xs <> 1%nat -> length ys <> 1%nat ->
  NumPy.broadcast xs ys = Raise (ValueError "operands could not be broadcast together").
Proof.
  intros Hne Hx Hy. unfold NumPy.broadcast.
  apply Nat.eqb_neq in Hne. rewrite Hne.
  destruct xs as [|x [|x' xs]]; destruct ys as [|y [|y' ys]]; simpl in *;
    try reflexivity; congruence.
Qed.

Lemma broadcast_singleton {A B} (xs : list A) (y : B) :
  NumPy.broadcast xs [y] = Ret (map (fun x => (x, y)) xs).
Proof.
  unfold NumPy.broadcast. destruct xs as [|x [|x' xs]]; reflexivity.
Qed.

Lemma forallb_combine_false {A B} (f : A * B -> bool) (P : A -> Prop) xs : forall ys,
  length xs = length ys ->
  (forall x y, P x -> f (x, y) = false) ->
  Exists P xs -> forallb f (combine xs ys) = false.
Proof.
  induction xs as [|x xs IH]; intros ys Hlen Hf Hex.
  - inversion Hex.
  - destruct ys as [|y ys]; [discriminate|]. simpl.
    inversion Hex as [? ? Hp | ? ? Hrest]; subst.
    + now rewrite Hf.
    + rewrite (IH ys); [apply andb_false_r | now injection Hlen | assumption | assumption].
Qed.

Lemma allclose_nan rtol atol a b :
  length a = length b -> In nan a -> NumPy.allclose rtol atol a b = Ret false.
Proof.
  intros Hlen Hin. unfold NumPy.allclose. rewrite broadcast_same_length by assumption.
  cbn. f_equal.
  apply (forallb_combine_false _ (fun x => x = nan)); [assumption| |].
  - intros x y ->. apply isclose_nan. now left.
  - apply List.Exists_exists. exists nan. split; [exact Hin | reflexivity].
Qed.

End CloseLemmas.

Section CheckMore.
Local Open Scope string_scope.

(** X18: a solution that parses to a list holding a NaN is never
    accepted: against an expected list of the same length the three
    numeric checks raise their AssertionError, even when the expected list
    holds a NaN at the same place. *)
Theorem nan_output_rejected jl s e sol ex :
  jl s = Ret sol -> jl e = Ret ex -> length sol = length ex -> In nan sol ->
  ParameterShift.check jl s e = Raise (AssertionError "Your gradient isn't quite right!")
  /\ BitflipFidelity.check jl s e = Raise (AssertionError "Your circuit isn't quite right!")
  /\ ZNE.check jl s e = Raise (AssertionError "Your extrapolation isn't quite right!").
Proof.
  intros Hs He Hlen Hnan.
  repeat split.
  - apply (allclose_check_outcome ParameterShift.check _ _ (fun _ _ _ => eq_refl)
             jl s e sol ex false Hs He). now apply allclose_nan.
  - apply (allclose_check_outcome BitflipFidelity.check _ _ (fun _ _ _ => eq_refl)
             jl s e sol ex false Hs He). now apply allclose_nan.
  - apply (allclose_check_outcome ZNE.check _ _ (fun _ _ _ => eq_refl)
             jl s e sol ex false Hs He). now apply allclose_nan.
Qed.

Lemma nan_output_rejected_witness :
  ParameterShift.check (fun _ => Ret [nan; 0.5%float]) "[NaN, 0.5]" "[NaN, 0.5]"
  = Raise (AssertionError "Your gradient isn't quite right!")
  /\ BitflipFidelity.check (fun _ => Ret [nan; 0.5%float]) "[NaN, 0.5]" "[NaN, 0.5]"
     = Raise (AssertionError "Your circuit isn't quite right!")
  /\ ZNE.check (fun _ => Ret [nan; 0.5%float]) "[NaN, 0.5]" "[NaN, 0.5]"
     = Raise (AssertionError "Your extrapolation isn't quite right!").
Proof.
  apply (nan_output_rejected (fun _ => Ret [nan; 0.5%float]) "[NaN, 0.5]" "[NaN, 0.5]"
           [nan; 0.5%float] [nan; 0.5%float]).
  - reflexivity.
  - reflexivity.
  - reflexivity.
  - simpl. auto.
Defined.

Lemma check_broadcast_error
    (check : (string -> result (list float)) -> string -> string -> result pyval)
    rtol msg :
  (forall jl s e, check jl s e =
     (sol ← jl s; ex ← jl e; ok ← NumPy.allclose rtol NumPy.default_atol sol ex;
      assert_ ok msg;; Ret PyNone)) ->
  forall jl s e sol ex,
    jl s = Ret sol -> jl e = Ret ex ->
    length sol <> length ex -> length sol <> 1%nat -> length ex <> 1%nat ->
    check jl s e = Raise (ValueError "operands could not be broadcast together").
Proof.
  intros Hdef jl s e sol ex Hs He H1 H2 H3. rewrite Hdef, Hs, He. cbn.
  unfold NumPy.allclose. now rewrite broadcast_mismatch.
Qed.

(** X19: an output of the wrong length is not a wrong answer but an
    error: when the parsed lists differ in length and neither has length
    one, the three numeric checks raise a ValueError (the arrays do not
    broadcast), not an AssertionError; in the loop it escapes after the
    banner, ending the run. *)
Theorem shape_mismatch_is_value_error jl s e sol ex :
  jl s = Ret sol -> jl e = Ret ex ->
  length sol <> length ex -> length sol <> 1%nat -> length ex <> 1%nat ->
  exists exc,
    exn_class exc = "ValueError"
    /\ ParameterShift.check jl s e = Raise exc
    /\ BitflipFidelity.check jl s e = Raise exc
    /\ ZNE.check jl s e = Raise exc
    /\ forall (W : Type) (run : string -> W -> result string * W) i input w w',
         run input w = (Ret s, w') ->
         Driver.test_case run (ParameterShift.check jl) i input e w
         = ([Driver.Print (Driver.running i input); Driver.CallRun input;
             Driver.CallCheck s e], Some exc, w').
Proof.
  intros Hs He H1 H2 H3.
  exists (ValueError "operands could not be broadcast together").
  assert (Hps : ParameterShift.check jl s e
                = Raise (ValueError "operands could not be broadcast together"))
    by (now apply (check_broadcast_error ParameterShift.check _ _ (fun _ _ _ => eq_refl)
                     jl s e sol ex)).
  split; [reflexivity|]. split; [exact Hps|]. split; [|split].
  - now apply (check_broadcast_error BitflipFidelity.check _ _ (fun _ _ _ => eq_refl)
                 jl s e sol ex).
  - now apply (check_broadcast_error ZNE.check _ _ (fun _ _ _ => eq_refl) jl s e sol ex).
  - intros W run i input w w' Hrun. unfold Driver.test_case. now rewrite Hrun, Hps.
Qed.

Lemma shape_mismatch_is_value_error_witness :
  exists exc,
    exn_class exc = "ValueError"
    /\ ParameterShift.check (two_loads "[]" [] [0; 0; 0]%float) "[]" "[0.0, 0.0, 0.0]"
       = Raise exc
    /\ BitflipFidelity.check (two_loads "[]" [] [0; 0; 0]%float) "[]" "[0.0, 0.0, 0.0]"
       = Raise exc
    /\ ZNE.check (two_loads "[]" [] [0; 0; 0]%float) "[]" "[0.0, 0.0, 0.0]" = Raise exc
    /\ forall (W : Type) (run : string -> W -> result string * W) i input w w',
         run input w = (Ret "[]", w') ->
         Driver.test_case run (ParameterShift.check (two_loads "[]" [] [0; 0; 0]%float))
           i input "[0.0, 0.0, 0.0]" w
         = ([Driver.Print (Driver.running i input); Driver.CallRun input;
             Driver.CallCheck "[]" "[0.0, 0.0, 0.0]"], Some exc, w').
Proof.
  apply (shape_mismatch_is_value_error (two_loads "[]" [] [0; 0; 0]%float)
           "[]" "[0.0, 0.0, 0.0]" [] [0; 0; 0]%float).
  - reflexivity.
  - reflexivity.
  - simpl. lia.
  - simpl. lia.
  - simpl. lia.
Defined.

(** X20: an expected output of one element is compared with every
    element of the solution ([np.allclose] broadcasts it); so against a
    one-element expected output the empty solution is accepted by the
    three numeric checks, whatever the expected value is. *)
Theorem singleton_expected_broadcasts rtol atol (sol : list float) (y : float) :
  NumPy.allclose rtol atol sol [y]
  = Ret (forallb (fun x => NumPy.isclose rtol atol x y) sol)
  /\ forall jl s e,
       jl s = Ret [] -> jl e = Ret [y] ->
       ParameterShift.check jl s e = Ret PyNone
       /\ BitflipFidelity.check jl s e = Ret PyNone
       /\ ZNE.check jl s e = Ret PyNone.
Proof.
  split.
  - unfold NumPy.allclose. rewrite broadcast_singleton. cbn. f_equal.
    induction sol as [|x sol IH]; [reflexivity|]. simpl. now rewrite IH.
  - intros jl s e Hs He.
    unfold ParameterShift.check, BitflipFidelity.check, ZNE.check.
    rewrite Hs, He. repeat split; reflexivity.
Qed.

(** X21: the tolerance test is relative to the expected value, so it is
    not symmetric: with the tolerance 1e-4 of the parameter-shift
    notebook, 1.0 is accepted where 1.000100015 is expected, and
    1.000100015 is rejected where 1.0 is expected. *)
Theorem check_not_symmetric :
  let jl := two_loads "[1.0]" [1%float] [1.000100015%float] in
  ParameterShift.check jl "[1.0]" "[1.000100015]" = Ret PyNone
  /\ ParameterShift.check jl "[1.000100015]" "[1.0]"
     = Raise (AssertionError "Your gradient isn't quite right!")
  /\ NumPy.allclose 1e-4 1e-8 [1%float] [1.000100015%float] = Ret true
  /\ NumPy.allclose 1e-4 1e-8 [1.000100015%float] [1%float] = Ret false.
Proof. cbv zeta. repeat split; vm_compute; reflexivity. Qed.

End CheckMore.

(* ------------------------------------------------------------------ *)
(** * Further properties: the driver loop                               *)
(* ------------------------------------------------------------------ *)

Section DriverMore.
Import Driver.
Context {W : Type}.
Variable run : string -> W -> result string * W.
Variable check : string -> string -> result pyval.

(** X22: the loop over two lists of test cases, one after the other: if an
    exception escapes during the first list, the second is never
    started; otherwise the second list runs from the state the first
    left, numbered on from the length of the first, and the traces
    follow each other. *)
Theorem loop_concatenation (tests1 tests2 : list (string * string)) : forall i w,
  loop run check i (tests1 ++ tests2) w
  = match loop run check i tests1 w with
    | (t, Some exc, w') => (t, Some exc, w')
    | (t, None, w') =>
        let '(t', r, w'') := loop run check (i + length tests1) tests2 w' in
        ((t ++ t')%list, r, w'')
    end.
Proof.
  induction tests1 as [|[input expected] tests1 IH]; intros i w.
  - cbn [app loop length]. rewrite Nat.add_0_r.
    destruct (loop run check i tests2 w) as [[t' r] w'']. reflexivity.
  - cbn [app loop length].
    destruct (test_case run check i input expected w) as [[t [exc|]] w']; [reflexivity|].
    rewrite IH.
    destruct (loop run check (S i) tests1 w') as [[t1 [exc|]] w1]; [reflexivity|].
    replace (i + S (length tests1))%nat with (S i + length tests1)%nat by lia.
    destruct (loop run check (S i + length tests1) tests2 w1) as [[t2 r] w2].
    now rewrite app_assoc.
Qed.

(** One test case: [run] is called once, on the input; the banner is
    printed first; one more line follows unless an exception escapes. *)
Lemma test_case_shape i input expected w :
  let r := test_case run check i input expected w in
  run_inputs (trace_of r) = [input]
  /\ match escaped r with
     | None => exists line, stdout (trace_of r) = [running i input; line]
     | Some _ => stdout (trace_of r) = [running i input]
     end.
Proof.
  cbv zeta. unfold test_case.
  destruct (run input w) as [[output|exc] w'].
  - destruct (check output expected) as [message|exc].
    + destruct (truthy message); split; try reflexivity; eexists; reflexivity.
    + split; reflexivity.
  - split; [reflexivity|]. eexists; reflexivity.
Qed.

(** X23: for any [run] and [check], the loop (the driver starts it at
    index 0) calls [run] on the inputs of the test cases in their order,
    each at most once, stopping only when an exception escapes.  If none
    escapes, every test case is run and exactly two lines per test case
    are printed; if one escapes during the n-th call, 2n - 1 lines have
    been printed.  The lines at even positions are the banners, numbered
    from the start index. *)
Theorem loop_order_and_counts (tests : list (string * string)) : forall i w,
  let r := loop run check i tests w in
  let n := length (run_inputs (trace_of r)) in
  run_inputs (trace_of r) = take n (map fst tests)
  /\ (n <= length tests)%nat
  /\ match escaped r with
     | None => n = length tests /\ length (stdout (trace_of r)) = (2 * n)%nat
     | Some _ => length (stdout (trace_of r)) = (2 * n - 1)%nat /\ (1 <= n)%nat
     end
  /\ forall k input, map fst tests !! k = Some input -> (k < n)%nat ->
       stdout (trace_of r) !! (2 * k)%nat = Some (running (i + k) input).
Proof.
  induction tests as [|[input expected] tests IH]; intros i w; cbv zeta.
  - cbn. repeat split; auto. intros k input Hk Hlt. lia.
  - cbn [loop].
    pose proof (test_case_shape i input expected w) as [Hri Hout]. cbv zeta in Hri, Hout.
    destruct (test_case run check i input expected w) as [[t [exc|]] w'];
      unfold trace_of, escaped in *; cbn [fst snd] in *.
    + rewrite Hri, Hout. cbn [length map take fst]. repeat split; auto; try lia.
      intros k input' Hk Hlt. assert (k = 0%nat) as -> by lia.
      cbn in Hk. injection Hk as <-. rewrite Nat.add_0_r. reflexivity.
    + destruct Hout as [line Hout].
      specialize (IH (S i) w'). cbv zeta in IH.
      destruct (loop run check (S i) tests w') as [[t' r'] w''].
      unfold trace_of, escaped in *; cbn [fst snd] in *.
      destruct IH as (IH1 & IH2 & IH3 & IH4).
      unfold run_inputs, stdout in *. rewrite !omap_app, Hri, Hout.
      cbn [app length map fst take].
      split; [f_equal; exact IH1|]. split; [lia|]. split.
      * destruct r' as [exc|]; lia.
      * intros k input' Hk Hlt. destruct k as [|k].
        -- cbn in Hk. injection Hk as <-. rewrite Nat.add_0_r. reflexivity.
        -- cbn in Hk. replace (2 * S k)%nat with (S (S (2 * k))) by lia.
           set (m := (2 * k)%nat).
           change (omap (fun e => match e with Print s => Some s | _ => None end) t' !! m
                   = Some (running (i + S k) input')).
           subst m. rewrite (IH4 k input' Hk) by lia. do 2 f_equal. lia.
Qed.

End DriverMore.

(* ------------------------------------------------------------------ *)
(** * Further properties: zero-noise extrapolation                      *)
(* ------------------------------------------------------------------ *)

Section PolyfitMore.
Local Open Scope R_scope.

(** Two quadratics that agree at three distinct points are the same. *)
Lemma quadratic_coefficients x1 x2 x3 a b c a' b' c' :
  x1 <> x2 -> x1 <> x3 -> x2 <> x3 ->
  a * x1 ^ 2 + b * x1 + c = a' * x1 ^ 2 + b' * x1 + c' ->
  a * x2 ^ 2 + b * x2 + c = a' * x2 ^ 2 + b' * x2 + c' ->
  a * x3 ^ 2 + b * x3 + c = a' * x3 ^ 2 + b' * x3 + c' ->
  a = a' /\ b = b' /\ c = c'.
Proof.
  intros H12 H13 H23 E1 E2 E3.
  assert (F12 : (x1 - x2) * ((a - a') * (x1 + x2) + (b - b')) = 0) by nra.
  assert (F13 : (x1 - x3) * ((a - a') * (x1 + x3) + (b - b')) = 0) by nra.
  apply Rmult_integral in F12. apply Rmult_integral in F13.
  destruct F12 as [F12 | F12]; [lra|]. destruct F13 as [F13 | F13]; [lra|].
  assert (Fa : (a - a') * (x2 - x3) = 0) by nra.
  apply Rmult_integral in Fa. destruct Fa as [Fa | Fa]; [|lra].
  assert (a = a') by lra. subst a'.
  assert (b = b') by nra. subst b'.
  repeat split. nra.
Qed.

(** Fitting a quadratic to three samples of a quadratic gives it back. *)
Lemma polyfit_recovers_quadratic (x1 x2 x3 a b c : R) :
  x1 <> x2 -> x1 <> x3 -> x2 <> x3 ->
  let q x := a * x ^ 2 + b * x + c in
  NumPy.polyfit [x1; x2; x3] [q x1; q x2; q x3] 2 = Ret [a; b; c].
Proof.
  intros H12 H13 H23 q.
  destruct (polyfit_three x1 x2 x3 (q x1) (q x2) (q x3) H12 H13 H23) as (a' & b' & -> & Hval).
  destruct (lagrange_interpolates x1 x2 x3 (q x1) (q x2) (q x3) H12 H13 H23)
    as (L1 & L2 & L3).
  destruct (quadratic_coefficients x1 x2 x3 a' b'
              (lagrange x1 x2 x3 (q x1) (q x2) (q x3) 0) a b c H12 H13 H23) as (-> & -> & ->).
  - now rewrite Hval, L1.
  - now rewrite Hval, L2.
  - now rewrite Hval, L3.
  - reflexivity.
Qed.

End PolyfitMore.

Section ZNEMore.
Local Open Scope R_scope.
Variables hamiltonian device qnode : Type.
Variable molecular_hamiltonian : list string -> list R -> hamiltonian * nat.
Variable default_mixed : nat -> device.
Variable insert_depolarizing : R -> device -> device.
Variable QNode : (R -> list (ZNE.ansatz_op R) * hamiltonian) -> device -> qnode.
Variable fold_global : qnode -> R -> qnode.
Variable call : qnode -> R -> R.
Variable optimizer_step : R -> qnode -> R -> R.
Variable json_loads : string -> result R.
Variable str : list R -> string.

Let ansatzes := ZNE.qnode_ansatzes hamiltonian device qnode molecular_hamiltonian
                  default_mixed insert_depolarizing QNode fold_global.
Let vqe := ZNE.VQE qnode call optimizer_step.

Let ideal := ideal_qnode hamiltonian device qnode molecular_hamiltonian default_mixed QNode.
Let energy := mitigated_energy hamiltonian device qnode molecular_hamiltonian default_mixed
                insert_depolarizing QNode fold_global call optimizer_step.

(** X24: with the scale factors 1, 2, 3 that [run] fixes, the zero-noise
    energy is [3 E1 - 3 E2 + E3], where [E1], [E2], [E3] are the energies
    that a VQE (20 gradient-descent steps of size 0.4 from 0) ends with on
    the noisy QNode of the H2 cost function folded by 1, 2 and 3; the
    first entry is the energy a VQE ends with on the noise-free QNode,
    rounded to 6 decimals.  [run] returns the string of these two numbers,
    on an input that parses to the distance.  The library calls are
    arbitrary functions, the arithmetic is that of the reals. *)
Theorem zne_run_richardson (d : R) :
  let ideal_energy := around 6 (vqe_energy qnode call optimizer_step (ideal d)) in
  let zne_energy := 3 * energy d 1 - 3 * energy d 2 + energy d 3 in
  ZNE.extrapolation hamiltonian device qnode molecular_hamiltonian default_mixed
    insert_depolarizing QNode fold_global call optimizer_step NumPy.polyfit
    d [1; 2; 3]
  = Ret [ideal_energy; zne_energy]
  /\ forall s,
       json_loads s = Ret d ->
       ZNE.run hamiltonian device qnode molecular_hamiltonian default_mixed
         insert_depolarizing QNode fold_global call optimizer_step NumPy.polyfit
         json_loads str s
       = Ret (str [ideal_energy; zne_energy]).
Proof.
  cbv zeta.
  assert (Hex : ZNE.extrapolation hamiltonian device qnode molecular_hamiltonian
                  default_mixed insert_depolarizing QNode fold_global call optimizer_step
                  NumPy.polyfit d [1; 2; 3]
                = Ret [around 6 (vqe_energy qnode call optimizer_step (ideal d));
                       3 * energy d 1 - 3 * energy d 2 + energy d 3]).
  { rewrite extrapolation_fit. cbn [map]. fold ideal energy.
    destruct (polyfit_three 1 2 3 (energy d 1) (energy d 2) (energy d 3))
      as (a & b & Hfit & _); try lra.
    rewrite Hfit. cbn [mbind result_bind ZNE.last_item rev app].
    do 3 f_equal. unfold lagrange. field. }
  split; [exact Hex|].
  intros s Hjl. unfold ZNE.run. rewrite Hjl. cbn [mbind result_bind].
  change [of_Z 1; of_Z 2; of_Z 3] with [1; 2; 3]. rewrite Hex. reflexivity.
Qed.

(** X25: the extrapolation is exact for noise that enters quadratically:
    if at three distinct scale factors x the mitigated VQE energy is
    [E0 + a x + b x^2], then [extrapolation] returns [E0] as the
    zero-noise energy, whatever [a] and [b] are. *)
Theorem zne_exact_on_quadratic_noise (d x1 x2 x3 E0 a b : R) :
  x1 <> x2 -> x1 <> x3 -> x2 <> x3 ->
  map vqe (snd (ansatzes d [x1; x2; x3]))
  = map (fun x => E0 + a * x + b * x ^ 2) [x1; x2; x3] ->
  ZNE.extrapolation hamiltonian device qnode molecular_hamiltonian default_mixed
    insert_depolarizing QNode fold_global call optimizer_step NumPy.polyfit
    d [x1; x2; x3]
  = Ret [around 6 (vqe (fst (ansatzes d [x1; x2; x3]))); E0].
Proof.
  intros H12 H13 H23 Hq.
  unfold ZNE.extrapolation. fold ansatzes.
  destruct (ansatzes d [x1; x2; x3]) as [qi qm] eqn:Ha.
  cbn [fst snd] in *. fold vqe. rewrite Hq. cbn [map].
  pose proof (polyfit_recovers_quadratic x1 x2 x3 b a E0 H12 H13 H23) as Hfit.
  cbv zeta in Hfit.
  replace (E0 + a * x1 + b * x1 ^ 2) with (b * x1 ^ 2 + a * x1 + E0) by ring.
  replace (E0 + a * x2 + b * x2 ^ 2) with (b * x2 ^ 2 + a * x2 + E0) by ring.
  replace (E0 + a * x3 + b * x3 ^ 2) with (b * x3 ^ 2 + a * x3 + E0) by ring.
  rewrite Hfit. reflexivity.
Qed.

End ZNEMore.

Lemma zne_exact_on_quadratic_noise_witness :
  ZNE.extrapolation unit unit R (fun _ _ => (tt, 4%nat)) (fun _ => tt) (fun _ dev => dev)
    (fun _ _ => 5%R) (fun q s => (q + 7 * s + 2 * s ^ 2)%R) (fun q _ => q)
    (fun _ _ p => p) NumPy.polyfit (6614 / 10000)%R [1; 2; 3]%R
  = Ret [around 6 5%R; 5%R].
Proof.
  apply (zne_exact_on_quadratic_noise unit unit R (fun _ _ => (tt, 4%nat)) (fun _ => tt)
           (fun _ dev => dev) (fun _ _ => 5%R) (fun q s => (q + 7 * s + 2 * s ^ 2)%R)
           (fun q _ => q) (fun _ _ p => p) (6614 / 10000)%R 1%R 2%R 3%R 5%R 7%R 2%R);
    try lra.
  reflexivity.
Defined.
